(** * echoing: a delayed-message echo service over Redis

    Shallow embedding of the service's four source files
    ([toolbox.js], [Timer.js], [queue.js], [index.js]) and the properties
    established about them.

    - JavaScript numbers are IEEE-754 binary64 values, embedded as
      [spec_float] (signed zeros and infinities, and one NaN; a NaN read
      from a buffer goes with the bits it was read with).
    - Buffers are lists of bytes.
    - The callback-driven code of [queue.js] is embedded by naming every
      closure of the source together with the variables it captures; the
      event loop hands a reply to the closure that waits for it.
    - The platform's timers and the store are the environment: a clock with
      pending timeouts for [Timer.js], and the keyspace the service uses,
      answering its requests in order, for [queue.js]. *)

From Stdlib Require Import ZArith List Bool Lia String Ascii.
From Stdlib Require Import Floats.SpecFloat.
From Stdlib Require Strings.Byte DecimalString.
From Stdlib Require Import Sorting.Permutation.
Import ListNotations.

Local Open Scope Z_scope.

(** ** JavaScript values used by the service *)

Module JS.

(** The Number type: binary64, [prec = 53], [emax = 1024]. *)
Definition number := spec_float.

Definition prec : Z := 53.
Definition emax : Z := 1024.

Definition is_number (x : number) : bool := valid_binary prec emax x.

Definition NaN : number := S754_nan.
Definition pos_zero : number := S754_zero false.

(** An integer as a Number (rounded to nearest even when it does not fit). *)
Definition of_Z (z : Z) : number := binary_normalize prec emax z 0 false.

Definition mul (x y : number) : number := SFmul prec emax x y.
Definition sub (x y : number) : number := SFsub prec emax x y.
Definition add (x y : number) : number := SFadd prec emax x y.

(** [x < y] on Numbers: false as soon as one side is NaN. *)
Definition lt (x y : number) : bool := SFltb x y.

Definition isNaN (x : number) : bool :=
  match x with S754_nan => true | _ => false end.

Definition isFinite (x : number) : bool :=
  match x with
  | S754_zero _ | S754_finite _ _ _ => true
  | _ => false
  end.

(** The values that reach the numeric helpers of the service: a variable
    declared and never assigned, [null], a Number, or a string. The
    operations of the language see the same NaN in every Number that is
    one, but a NaN read from a buffer keeps the 64 bits it was read with
    and is written back with them: [Nan bits] is such a Number, and
    [Num NaN] is the NaN that the engine makes, with the bits [nan_bits]
    below. *)
Inductive value :=
| Undefined
| Null
| Num (x : number)
| Nan (bits : Z)
| Str (s : string).

(** [v == null] *)
Definition eq_null (v : value) : bool :=
  match v with Undefined | Null => true | _ => false end.

(** [typeof v === 'number'] *)
Definition typeof_number (v : value) : bool :=
  match v with Num _ | Nan _ => true | _ => false end.

(** ToNumber on the values above that the service feeds to [Math.max]:
    [undefined] is NaN, [null] is +0. Strings never reach it. *)
Definition ToNumber (v : value) : number :=
  match v with
  | Undefined => NaN
  | Null => pos_zero
  | Num x => x
  | Nan _ => NaN
  | Str _ => NaN
  end.

(** [Math.max(a, b)]: NaN if either is NaN, and +0 is larger than -0. *)
Definition Math_max (a b : value) : number :=
  let x := ToNumber a in
  let y := ToNumber b in
  match SFcompare x y with
  | None => NaN
  | Some Lt => y
  | Some Gt => x
  | Some Eq =>
      match x, y with
      | S754_zero true, S754_zero false => y
      | _, _ => x
      end
  end.

(** The integer [floor (v + 1/2)] for [v = (-1)^s * m * 2^e] with [e < 0]. *)
Definition round_half_up (s : bool) (m : positive) (e : Z) : Z :=
  let k := Z.opp e in
  (2 * cond_Zopp s (Zpos m) + 2 ^ k) / 2 ^ (k + 1).

(** [Math.round(x)]: the nearest integer, ties towards +Infinity; the sign
    of a zero result is the sign of [x]. *)
Definition Math_round (x : number) : number :=
  match x with
  | S754_finite s m e =>
      if 0 <=? e then x
      else binary_normalize prec emax (round_half_up s m e) 0 s
  | _ => x
  end.

(** The integer [ceil v] for [v = (-1)^s * m * 2^e] with [e < 0]. *)
Definition ceiling (s : bool) (m : positive) (e : Z) : Z :=
  Z.opp (Z.opp (cond_Zopp s (Zpos m)) / 2 ^ (Z.opp e)).

(** [Math.ceil(x)]; a zero result of a negative [x] is -0. *)
Definition Math_ceil (x : number) : number :=
  match x with
  | S754_finite s m e =>
      if 0 <=? e then x
      else binary_normalize prec emax (ceiling s m e) 0 s
  | _ => x
  end.

(** *** The binary64 interchange format *)

Definition sign_bit (s : bool) : Z := if s then 2 ^ 63 else 0.

(** The encoding written for NaN: the quiet NaN with an empty payload. *)
Definition nan_bits : Z := 0x7FF8000000000000.

Definition bits_of_number (x : number) : Z :=
  match x with
  | S754_zero s => sign_bit s
  | S754_infinity s => sign_bit s + 0x7FF * 2 ^ 52
  | S754_nan => nan_bits
  | S754_finite s m e =>
      if 2 ^ 52 <=? Zpos m
      then sign_bit s + (e + 1075) * 2 ^ 52 + (Zpos m - 2 ^ 52)
      else sign_bit s + Zpos m
  end.

(** The numeric value of 64 bits. Every pattern of a NaN has the value
    NaN; [value_of_bits] below keeps the bits of those. *)
Definition number_of_bits (b : Z) : number :=
  let s := Z.testbit b 63 in
  let ex := (b / 2 ^ 52) mod 2 ^ 11 in
  let man := b mod 2 ^ 52 in
  if ex =? 0 then
    match man with
    | Zpos m => S754_finite s m (-1074)
    | _ => S754_zero s
    end
  else if ex =? 0x7FF then
    if man =? 0 then S754_infinity s else S754_nan
  else
    match man + 2 ^ 52 with
    | Zpos m => S754_finite s m (ex - 1075)
    | _ => S754_nan
    end.

(** A bit pattern is a NaN other than the one [bits_of_number] writes. *)
Definition foreign_nan (b : Z) : bool :=
  isNaN (number_of_bits b) && negb (b =? nan_bits).

(** The Number that 64 bits hold. *)
Definition value_of_bits (b : Z) : value :=
  if foreign_nan b then Nan b else Num (number_of_bits b).

(** A Number: a binary64, or a NaN with 64 bits of its own. *)
Definition is_Number (v : value) : bool :=
  match v with
  | Num x => is_number x
  | Nan b => (0 <=? b) && (b <? 2 ^ 64) && foreign_nan b
  | _ => false
  end.

End JS.

(** ** Buffers *)

Module Buf.

Definition buffer := list Byte.byte.

Definition byte_of_Z (z : Z) : Byte.byte :=
  match Byte.of_N (Z.to_N z) with
  | Some b => b
  | None => Byte.x00
  end.

Definition Z_of_byte (b : Byte.byte) : Z := Z.of_N (Byte.to_N b).

(** The [n] low-order bytes of [z], least significant first. *)
Fixpoint le_bytes (n : nat) (z : Z) : buffer :=
  match n with
  | O => []
  | S n' => byte_of_Z (z mod 256) :: le_bytes n' (z / 256)
  end.

Fixpoint le_value (l : buffer) : Z :=
  match l with
  | [] => 0
  | b :: l' => Z_of_byte b + 256 * le_value l'
  end.

(** [os.endianness()] *)
Inductive endianness := LE | BE.

Definition word_bytes (en : endianness) (n : nat) (z : Z) : buffer :=
  match en with
  | LE => le_bytes n z
  | BE => rev (le_bytes n z)
  end.

Definition word_value (en : endianness) (l : buffer) : Z :=
  match en with
  | LE => le_value l
  | BE => le_value (rev l)
  end.

(** [buf.writeDoubleLE(x)] / [buf.writeDoubleBE(x)] on a fresh 8-byte buffer *)
Definition writeDouble (en : endianness) (x : JS.number) : buffer :=
  word_bytes en 8 (JS.bits_of_number x).

(** [buf.readDoubleLE()] / [buf.readDoubleBE()] at offset 0; reading past
    the end of the buffer raises a RangeError. A NaN is read with the bits
    it has in the buffer. *)
Definition readDouble (en : endianness) (b : buffer) : option JS.value :=
  if (8 <=? List.length b)%nat
  then Some (JS.value_of_bits (word_value en (firstn 8 b)))
  else None.

End Buf.

(** ** toolbox.js *)

Module Toolbox.

Import JS Buf.

Inductive error :=
| TypeError (msg : string)
| RangeError (msg : string).

Definition EMPTY_BUFFER : buffer := [].

(** [mustBeNumber(arg, finite)]: [None] when the check passes. *)
Definition mustBeNumber (arg : value) (finite : bool) : option error :=
  match arg with
  | Num x =>
      if finite && negb (isFinite x)
      then Some (TypeError "A finite number was expected.")
      else None
  | Nan _ =>
      if finite then Some (TypeError "A finite number was expected.") else None
  | _ =>
      Some (TypeError (if finite then "A finite number was expected."
                       else "A number was expected."))
  end.

Definition numberToBuffer (en : endianness) (number : value) : buffer + error :=
  if eq_null number then inl EMPTY_BUFFER
  else
    match mustBeNumber number false, number with
    | None, Num x => inl (writeDouble en x)
    | None, Nan bits => inl (word_bytes en 8 bits)
    | Some err, _ => inr err
    | None, _ => inr (TypeError "A number was expected.")
    end.

(** The argument is always a Buffer here, so the [instanceof] check passes. *)
Definition bufferToNumber (en : endianness) (b : buffer) : value + error :=
  match b with
  | [] => inl Null
  | _ :: _ =>
      match readDouble en b with
      | Some x => inl x
      | None => inr (RangeError "Attempt to access memory outside buffer bounds")
      end
  end.

End Toolbox.

(** ** SHA-1 and base-64, as provided by Node's [crypto] *)

Module Sha1.

Import Buf.

Definition add32 (x y : Z) : Z := (x + y) mod 2 ^ 32.

Definition rotl (n x : Z) : Z :=
  Z.lor (Z.shiftl x n mod 2 ^ 32) (Z.shiftr x (32 - n)).

Definition not32 (x : Z) : Z := Z.lxor x 0xFFFFFFFF.

Definition f (t b c d : Z) : Z :=
  if t <? 20 then Z.lor (Z.land b c) (Z.land (not32 b) d)
  else if t <? 40 then Z.lxor (Z.lxor b c) d
  else if t <? 60 then Z.lor (Z.lor (Z.land b c) (Z.land b d)) (Z.land c d)
  else Z.lxor (Z.lxor b c) d.

Definition K (t : Z) : Z :=
  if t <? 20 then 0x5A827999
  else if t <? 40 then 0x6ED9EBA1
  else if t <? 60 then 0x8F1BBCDC
  else 0xCA62C1D6.

(** Message padding: a 1 bit, zeros up to 56 modulo 64 bytes, then the
    length in bits as a 64-bit big-endian integer. *)
Definition pad (msg : buffer) : buffer :=
  let len := Z.of_nat (List.length msg) in
  let zeros := Z.to_nat ((55 - len) mod 64) in
  msg ++ Byte.x80 :: repeat Byte.x00 zeros ++ word_bytes BE 8 (8 * len).

(** [n] groups of [k] consecutive elements. *)
Fixpoint chunks {A} (k n : nat) (l : list A) : list (list A) :=
  match n with
  | O => []
  | S n' => firstn k l :: chunks k n' (skipn k l)
  end.

(** The message schedule, most recent word first. *)
Fixpoint schedule (n : nat) (rw : list Z) : list Z :=
  match n with
  | O => rw
  | S n' =>
      let w := Z.lxor (Z.lxor (Z.lxor (nth 2 rw 0) (nth 7 rw 0)) (nth 13 rw 0))
                      (nth 15 rw 0) in
      schedule n' (rotl 1 w :: rw)
  end.

Definition state := (Z * Z * Z * Z * Z)%type.

Definition H0 : state :=
  (0x67452301, 0xEFCDAB89, 0x98BADCFE, 0x10325476, 0xC3D2E1F0).

Definition round (s : state) (tw : Z * Z) : state :=
  let '(a, b, c, d, e) := s in
  let '(t, w) := tw in
  let temp := add32 (add32 (add32 (add32 (rotl 5 a) (f t b c d)) e) (K t)) w in
  (temp, a, rotl 30 b, c, d).

Definition compress (h : state) (block : buffer) : state :=
  let w16 := map (word_value BE) (chunks 4 16 block) in
  let w := rev (schedule 64 (rev w16)) in
  let ts := map Z.of_nat (seq 0 80) in
  let '(a, b, c, d, e) := fold_left round (combine ts w) h in
  let '(h0, h1, h2, h3, h4) := h in
  (add32 h0 a, add32 h1 b, add32 h2 c, add32 h3 d, add32 h4 e).

Definition digest_bytes (h : state) : buffer :=
  let '(h0, h1, h2, h3, h4) := h in
  word_bytes BE 4 h0 ++ word_bytes BE 4 h1 ++ word_bytes BE 4 h2 ++
  word_bytes BE 4 h3 ++ word_bytes BE 4 h4.

Definition sha1 (msg : buffer) : buffer :=
  let p := pad msg in
  digest_bytes (fold_left compress (chunks 64 (List.length p / 64) p) H0).

End Sha1.

Module Base64.

Import Buf.

Definition alphabet : list ascii :=
  list_ascii_of_string
    "ABCDEFGHIJKLMNOPQRSTUVWXYZabcdefghijklmnopqrstuvwxyz0123456789+/".

Definition digit (n : Z) : ascii := nth (Z.to_nat n) alphabet "A"%char.

Definition padding : ascii := "="%char.

Fixpoint encode_chars (l : buffer) : list ascii :=
  match l with
  | [] => []
  | [x] =>
      let a := Z_of_byte x in
      [digit (Z.shiftr a 2); digit (Z.shiftl (Z.land a 3) 4); padding; padding]
  | [x; y] =>
      let a := Z_of_byte x in
      let b := Z_of_byte y in
      [digit (Z.shiftr a 2);
       digit (Z.lor (Z.shiftl (Z.land a 3) 4) (Z.shiftr b 4));
       digit (Z.shiftl (Z.land b 15) 2);
       padding]
  | x :: y :: z :: rest =>
      let a := Z_of_byte x in
      let b := Z_of_byte y in
      let c := Z_of_byte z in
      digit (Z.shiftr a 2) ::
      digit (Z.lor (Z.shiftl (Z.land a 3) 4) (Z.shiftr b 4)) ::
      digit (Z.lor (Z.shiftl (Z.land b 15) 2) (Z.shiftr c 6)) ::
      digit (Z.land c 63) ::
      encode_chars rest
  end.

Definition encode (l : buffer) : string := string_of_list_ascii (encode_chars l).

End Base64.

(** ** queue.js: message identifiers; index.js: the submitted due-time *)

Module MessageId.

Import JS Buf.

(** [s.slice(0, -1)] *)
Definition slice_0_m1 (s : string) : string :=
  substring 0 (String.length s - 1) s.

(** The bytes of [Float64Array.of(time)], in the byte order of the host. *)
Definition Float64Array_of (en : endianness) (time : number) : buffer :=
  word_bytes en 8 (bits_of_number time).

(** [getMessageId(time, text)]; [text] stands for the UTF-8 bytes that
    [hash.update(text)] feeds to the hash. *)
Definition getMessageId (en : endianness) (time : number) (text : string) : string :=
  let data := Float64Array_of en time ++ list_byte_of_string text in
  slice_0_m1 (Base64.encode (Sha1.sha1 data)).

(** index.js, "extract the message display time": [param] is the result of
    [Number.parseFloat] on the [ts] query parameter when it is present, and
    [now] is [Date.now()]. [None] is the 400 reply. *)
Definition display_time (param : option number) (now : number) : option number :=
  match param with
  | Some ts =>
      if isNaN ts then None
      else Some (Math_round (mul ts (of_Z 1000)))
  | None => Some now
  end.

(** The identifier [enqueue] computes for an accepted request. *)
Definition request_id (en : endianness) (param : option number) (now : number)
  (body : string) : option string :=
  match display_time param now with
  | Some ts => Some (getMessageId en ts body)
  | None => None
  end.

End MessageId.

(** ** Timer.js

    Instants and delays are integer milliseconds, where the arithmetic of
    Numbers is exact. The platform side is a clock, the pending timeouts
    and the [process.nextTick] queue. *)

Module Timer.

Definition MAX_TIMEOUT : Z := 0x7FFFFFFF.

(** The functions the timer hands to [setTimeout] and [process.nextTick]:
    the closure [schedule] of a call [trigger(time)], and [this.func]. *)
Inductive task :=
| Schedule (time : Z)
| Func.

Record world := mkWorld {
  now : Z;                            (* Date.now() *)
  triggerTime : option Z;             (* this.triggerTime *)
  timer : option nat;                 (* this.timer, a Timeout by identity *)
  timeouts : list (nat * (Z * task)); (* pending: handle, due instant, job *)
  ticks : list task;                  (* process.nextTick queue *)
  next_handle : nat;
  sleeps : list Z;                    (* delays given to setTimeout, latest first *)
  fired : list Z                      (* instants at which func() ran, latest first *)
}.

Definition fresh (clock : Z) : world :=
  mkWorld clock None None [] [] 0 [] [].

(** [setTimeout(job, delay)]; the platform turns a delay outside
    [1 .. MAX_TIMEOUT] into 1. *)
Definition setTimeout (job : task) (delay : Z) (w : world) : nat * world :=
  let d := if (1 <=? delay) && (delay <=? MAX_TIMEOUT) then delay else 1 in
  let h := next_handle w in
  (h, mkWorld (now w) (triggerTime w) (timer w)
        (timeouts w ++ [(h, (now w + d, job))]) (ticks w) (S h)
        (delay :: sleeps w) (fired w)).

Definition nextTick (job : task) (w : world) : world :=
  mkWorld (now w) (triggerTime w) (timer w) (timeouts w) (ticks w ++ [job])
    (next_handle w) (sleeps w) (fired w).

Definition set_timer (h : option nat) (w : world) : world :=
  mkWorld (now w) (triggerTime w) h (timeouts w) (ticks w) (next_handle w)
    (sleeps w) (fired w).

Definition set_triggerTime (t : option Z) (w : world) : world :=
  mkWorld (now w) t (timer w) (timeouts w) (ticks w) (next_handle w)
    (sleeps w) (fired w).

(** [this.func]: forget the timeout and the instant, then call [func()]. *)
Definition func (w : world) : world :=
  mkWorld (now w) None None (timeouts w) (ticks w) (next_handle w)
    (sleeps w) (now w :: fired w).

(** The closure [schedule] of [trigger(time)]. *)
Definition schedule (time : Z) (w : world) : world :=
  let delay := time - now w in
  if delay <? 1 then nextTick Func w
  else
    let (h, w') :=
      if MAX_TIMEOUT <? delay
      then setTimeout (Schedule time) MAX_TIMEOUT w
      else setTimeout Func delay w in
    set_timer (Some h) w'.

Inductive outcome :=
| Done
| Throws (msg : string).

(** [time === this.triggerTime] *)
Definition same_instant (stored : option Z) (time : Z) : bool :=
  match stored with
  | Some t0 => t0 =? time
  | None => false
  end.

(** [trigger(time)]. An instant here is an integer, so the check
    [mustBeNumber(time, true)] passes. A Timeout object has no
    [clearTimeout] method, so the call on a stored timeout raises a
    TypeError. *)
Definition trigger (time : Z) (w : world) : world * outcome :=
  if same_instant (triggerTime w) time then (w, Done)
  else
    let w1 := set_triggerTime (Some time) w in
    match timer w1 with
    | Some _ => (w1, Throws "this.timer.clearTimeout is not a function")
    | None => (schedule time w1, Done)
    end.

(** [cancel()] *)
Definition cancel (w : world) : world * outcome :=
  let w1 := set_triggerTime None w in
  match timer w1 with
  | Some _ => (w1, Throws "this.timer.clearTimeout is not a function")
  | None => (w1, Done)
  end.

(** *** The platform's event loop *)

Definition run_task (job : task) (w : world) : world :=
  match job with
  | Schedule time => schedule time w
  | Func => func w
  end.

(** The [process.nextTick] queue is emptied when the current callback
    returns. Only [this.func] is ever queued, and it queues nothing. *)
Definition drain (w : world) : world :=
  fold_left (fun w' job => run_task job w')
    (ticks w)
    (mkWorld (now w) (triggerTime w) (timer w) (timeouts w) []
       (next_handle w) (sleeps w) (fired w)).

(** The pending timeout that is due first, and the others. *)
Fixpoint earliest (l : list (nat * (Z * task))) :
  option ((nat * (Z * task)) * list (nat * (Z * task))) :=
  match l with
  | [] => None
  | x :: l' =>
      match earliest l' with
      | Some (y, rest) =>
          if fst (snd y) <? fst (snd x) then Some (y, x :: rest)
          else Some (x, l')
      | None => Some (x, [])
      end
  end.

(** The next timeout fires [late] milliseconds after it is due. *)
Definition fire (late : Z) (w : world) : world :=
  match earliest (timeouts w) with
  | None => w
  | Some ((_, (due, job)), rest) =>
      drain (run_task job
               (mkWorld (due + late) (triggerTime w) (timer w) rest (ticks w)
                  (next_handle w) (sleeps w) (fired w)))
  end.

(** [n] timeouts fire, the [k]-th one [late k] milliseconds late. *)
Fixpoint run (late : nat -> Z) (n : nat) (w : world) : world :=
  match n with
  | O => w
  | S n' => run (fun k => late (S k)) n' (fire (late O) w)
  end.

(** A call of [trigger(time)] from a callback of the event loop. *)
Definition arm (time : Z) (w : world) : world := drain (fst (trigger time w)).

(** A delay the platform's [setTimeout] honours as given. *)
Definition chunk_ok (d : Z) : Prop := 1 <= d <= MAX_TIMEOUT.

End Timer.

(** ** queue.js

    Every callback of the source is a constructor of [kont] that carries the
    variables the closure captures; [resume] is the body of each callback.
    A flag that the source leaves unassigned, or an argument it omits, is
    [false] here: the code only tests such values for truth or with
    [=== true]. *)

Module Queue.

Import JS Buf Toolbox MessageId.

(** The double written [1.1] in the source. *)
Definition lit_1_1 : number := S754_finite false 4953959590107546 (-52).

Definition PROCESSING_WINDOW : number := of_Z 1000.
Definition PROCESSING_RETRY_DELAY : number :=
  Math_ceil (mul lit_1_1 PROCESSING_WINDOW).
Definition PROCESSING_BATCH_SIZE : nat := 30.

Definition QUEUE : string := "msgq".
Definition CONTENT_PREFIX : string := "msg:".
Definition LOCK_PREFIX : string := "lk:".
Definition NEXT_DUE_TIME_CHANNEL : string := "ndt".

(** *** Redis commands and replies *)

Inductive bound :=
| MinusInf
| Score (x : number).

Inductive command :=
| SET (key : string) (val : string)
| SET_PX_NX (key : string) (val : buffer) (px : number)
| GET (key : string)
| DEL (keys : list string)
| ZADD (key : string) (score : number) (member : string)
| ZREM (key : string) (member : string)
| ZRANGE_WITHSCORES (key : string) (start stop : Z)
| ZRANGEBYSCORE (key : string) (min max : bound) (offset : Z) (count : nat)
| ZREVRANGEBYSCORE (key : string) (max min : bound) (offset : Z) (count : nat)
| PUBLISH (channel : string) (payload : buffer)
| WATCH (key : string).

(** A single command, a [multi()] transaction or a [batch()] pipeline. *)
Inductive request :=
| Single (c : command)
| Multi (cs : list command)
| Batch (cs : list command).

(** One result inside the array an [exec] hands back; [Err] is an instance
    of [RedisError]. *)
Inductive item :=
| Nil
| Bulk (s : string)
| Int (n : Z)
| Err (e : string).

(** The arguments [(error, response)] of a callback. *)
Inductive reply :=
| Failure (e : string)         (* error set *)
| Value (o : option string)    (* null, or a string *)
| Strings (l : list string)    (* the flat array of a range query *)
| Results (l : list item).     (* the array of an [exec] *)

(** [Number.parseInt(s, 10)] *)
Definition is_space (c : ascii) : bool :=
  let n := nat_of_ascii c in
  ((9 <=? n) && (n <=? 13))%nat || (n =? 32)%nat.

Definition digit_value (c : ascii) : option Z :=
  let n := nat_of_ascii c in
  if ((48 <=? n) && (n <=? 57))%nat then Some (Z.of_nat n - 48) else None.

Fixpoint skip_spaces (cs : list ascii) : list ascii :=
  match cs with
  | c :: cs' => if is_space c then skip_spaces cs' else cs
  | [] => []
  end.

(** The value of the leading decimal digits, if there is one at least. *)
Fixpoint digits (acc : option Z) (cs : list ascii) : option Z :=
  match cs with
  | c :: cs' =>
      match digit_value c with
      | Some d =>
          digits (Some (10 * match acc with Some a => a | None => 0 end + d)) cs'
      | None => acc
      end
  | [] => acc
  end.

Definition parseInt (s : option string) : number :=
  match s with
  | None => NaN   (* parseInt(undefined) *)
  | Some s =>
      let cs := skip_spaces (list_ascii_of_string s) in
      let '(neg, ds) :=
        match cs with
        | "-"%char :: r => (true, r)
        | "+"%char :: r => (false, r)
        | _ => (false, cs)
        end in
      match digits None ds with
      | Some n => binary_normalize prec emax (cond_Zopp neg n) 0 neg
      | None => NaN
      end
  end.

(** *** The variables of the module *)

Record state := mkState {
  latency : number;
  nextDueTime : value;
  upToDate : bool;
  inspectingQueue : bool;
  resumeInspection : bool;
  setupCallback : bool;  (* [callback] of [setUp] is still to be called *)
  triggerTime : option number;  (* [timer.triggerTime], null as [None] *)
  timerStored : bool     (* [timer.timer] holds a Timeout *)
}.

Definition initial : state :=
  mkState (of_Z 0) Undefined false false false true None false.

(** *** Closures *)

(** [c], the callback given to [tryDequeuing] inside a batch, with the
    variables of [inspectQueue], [actuallyInspectQueue] and of the batch
    callback that it reads. *)
Record batch_env := mkBatch {
  dueTime : number;
  reverse : bool;
  response : list string;
  i : nat;
  leftovers : bool
}.

(** The callbacks waiting for a reply of the database. *)
Inductive kont :=
| K_obtainNextDueTime (now : number)              (* setUp, zrange *)
| K_enqueue (id : string) (callback : nat)        (* enqueue, exec *)
| K_rollback (error : string) (callback : nat)    (* enqueue, rollback exec *)
| K_getBatch (dueTime : number) (reverse : bool)  (* getBatch, range query *)
| K_reserve (id : string) (time : number) (callback : batch_env)
                                                  (* tryDequeuing, set *)
| K_contents (id : string) (time : number) (callback : batch_env)
                                                  (* tryDequeuing, get *)
| K_cleanup                                       (* tryDequeuing, exec *)
| K_watch                                         (* cb, watch *)
| K_minimum                                       (* cb, zrange *)
| K_publish.                                      (* cb, exec *)

(** What is given to [process.nextTick] and [setTimeout]:
    [actuallyInspectQueue] together with the [cb] it is given, which only
    captures [dueTime], and [this.func] of the timer. *)
Inductive task :=
| ActuallyInspectQueue (dueTime : number)
| TimerFunc.

Inductive effect :=
| Db (r : request) (k : kont)
| Log (msg : string)                        (* console.error *)
| Emit (time : number) (text : string)      (* doTask *)
| TimerTrigger (time : number)              (* the timer sleeps until [time] *)
| TimerCancel                               (* the timer was idle and stays so *)
| NextTick (t : task)
| SetTimeout (t : task) (delay : number)
| EnqueueCallback (callback : nat) (error : option string)
| SetupCallback (error : option string)
| Throw (msg : string).                    (* an exception leaves the callback *)

Definition set_inspectingQueue (b : bool) (st : state) : state :=
  mkState (latency st) (nextDueTime st) (upToDate st) b (resumeInspection st)
    (setupCallback st) (triggerTime st) (timerStored st).

Definition set_resumeInspection (b : bool) (st : state) : state :=
  mkState (latency st) (nextDueTime st) (upToDate st) (inspectingQueue st) b
    (setupCallback st) (triggerTime st) (timerStored st).

Definition set_upToDate (b : bool) (st : state) : state :=
  mkState (latency st) (nextDueTime st) b (inspectingQueue st)
    (resumeInspection st) (setupCallback st) (triggerTime st) (timerStored st).

Definition set_timer (t : option number) (stored : bool) (st : state) : state :=
  mkState (latency st) (nextDueTime st) (upToDate st) (inspectingQueue st)
    (resumeInspection st) (setupCallback st) t stored.

Definition is_exception (e : effect) : bool :=
  match e with Throw _ => true | _ => false end.

(** A callback that threw runs no further. *)
Definition thrown (es : list effect) : bool := existsb is_exception es.

(** [new Date(time).toISOString()] raises a RangeError unless [time] is a
    finite Number within 8.64e15 ms of the epoch. *)
Definition MAX_DATE : number := of_Z 8640000000000000.

Definition valid_date (time : number) : bool := SFleb (SFabs time) MAX_DATE.

(** [time === this.triggerTime] *)
Definition same_instant (stored : option number) (time : number) : bool :=
  match stored with
  | Some t0 => SFeqb t0 time
  | None => false
  end.

Section Engine.

(** [os.endianness()] of the host. *)
Variable en : endianness.

(** [now] below is the value of [Date.now()] when the code runs. *)

(** [timer.trigger(time)] of Timer.js, seen from the module: the check of
    [mustBeNumber(time, true)], the return on an instant already asked
    for, the call of [clearTimeout] on a stored Timeout, which has no such
    method, and [schedule], which gives [this.func] to [process.nextTick]
    when the instant is less than a millisecond ahead and stores a timeout
    otherwise. *)
Definition timer_trigger (time : number) (now : number) (st : state)
  : state * list effect :=
  match mustBeNumber (Num time) true with
  | Some _ => (st, [Throw "TypeError: A finite number was expected."])
  | None =>
      if same_instant (triggerTime st) time then (st, [])
      else
        let st1 := set_timer (Some time) (timerStored st) st in
        if timerStored st
        then (st1, [Throw "TypeError: this.timer.clearTimeout is not a function"])
        else if lt (sub time now) (of_Z 1) then (st1, [NextTick TimerFunc])
        else (set_timer (Some time) true st1, [TimerTrigger time])
  end.

(** [timer.cancel()] *)
Definition timer_cancel (st : state) : state * list effect :=
  let st1 := set_timer None (timerStored st) st in
  if timerStored st
  then (st1, [Throw "TypeError: this.timer.clearTimeout is not a function"])
  else (st1, [TimerCancel]).

Definition setNextDueTime (time : value) (now : number) (st : state)
  : state * list effect :=
  let st' := mkState (latency st) time true (inspectingQueue st)
               (resumeInspection st) (setupCallback st) (triggerTime st)
               (timerStored st) in
  if eq_null time then timer_cancel st'
  else timer_trigger (sub (ToNumber time) (mul (of_Z 3) (latency st))) now st'.

(** [sub.on('end')] *)
Definition on_sub_end (st : state) : state * list effect :=
  (set_upToDate false st, []).

(** [sub.on('message_buffer')] *)
Definition on_message (payload : buffer) (now : number) (st : state)
  : state * list effect :=
  match bufferToNumber en payload with
  | inl time => setNextDueTime time now st
  | inr _ => (st, [Throw "RangeError"])
  end.

Definition obtainNextDueTime (now : number) (st : state) : state * list effect :=
  (st, [Db (Single (ZRANGE_WITHSCORES QUEUE 0 0)) (K_obtainNextDueTime now)]).

Definition publish_command (time : value) : command + error :=
  match numberToBuffer en time with
  | inl payload => inl (PUBLISH NEXT_DUE_TIME_CHANNEL payload)
  | inr e => inr e
  end.

(** [enqueue(time, text, callback)] *)
Definition enqueue (time : number) (text : string) (callback : nat) (st : state)
  : state * list effect :=
  let id := getMessageId en time text in
  let multi := [SET (CONTENT_PREFIX ++ id) text; ZADD QUEUE time id] in
  if negb (upToDate st) || eq_null (nextDueTime st)
     || lt time (ToNumber (nextDueTime st))
  then
    match publish_command (Num time) with
    | inl publish => (st, [Db (Multi (multi ++ [publish])) (K_enqueue id callback)])
    | inr _ => (st, [Throw "TypeError"])
    end
  else (st, [Db (Multi multi) (K_enqueue id callback)]).

(** The loop of [firstRedisError]: [i] counts down from [arr.length]. *)
Fixpoint firstRedisError_from (i : nat) (arr : list item) : option string :=
  match i with
  | O => None
  | S i' =>
      match nth_error arr i' with
      | Some (Err e) => Some e
      | _ => firstRedisError_from i' arr
      end
  end.

Definition firstRedisError (arr : list item) : option string :=
  firstRedisError_from (List.length arr) arr.

(** [cb(again)] of [inspectQueue], whose [dueTime] is [due]. *)
Definition cb (due : number) (again : bool) (now : number) (st : state)
  : state * list effect :=
  let st := set_inspectingQueue false st in
  if resumeInspection st then
    let st := set_resumeInspection false st in
    let due := Math_max (nextDueTime st) (Num now) in
    (st, [NextTick (ActuallyInspectQueue due)])
  else if again then
    (st, [SetTimeout (ActuallyInspectQueue due) PROCESSING_RETRY_DELAY])
  else
    (st, [Db (Single (WATCH QUEUE)) K_watch]).

Definition getBatch (due : number) (rev : bool) (st : state) : state * list effect :=
  let query :=
    if rev
    then ZREVRANGEBYSCORE QUEUE (Score due) MinusInf 0 PROCESSING_BATCH_SIZE
    else ZRANGEBYSCORE QUEUE MinusInf (Score due) 0 PROCESSING_BATCH_SIZE in
  (st, [Db (Single query) (K_getBatch due rev)]).

Definition actuallyInspectQueue (due : number) (st : state) : state * list effect :=
  getBatch due false (set_inspectingQueue true st).

(** [inspectQueue()], the function the timer runs. *)
Definition inspectQueue (now : number) (st : state) : state * list effect :=
  if inspectingQueue st then (set_resumeInspection true st, [])
  else actuallyInspectQueue (Math_max (nextDueTime st) (Num now)) st.

(** [this.func] of the timer: forget the timeout and the instant, then
    call [inspectQueue]. *)
Definition timer_func (now : number) (st : state) : state * list effect :=
  inspectQueue now (set_timer None false st).

(** [tryDequeuing(id, time, callback)] *)
Definition tryDequeuing (id : string) (time : number) (callback : batch_env)
  (st : state) : state * list effect :=
  (st, [Db (Single (SET_PX_NX (LOCK_PREFIX ++ id) EMPTY_BUFFER PROCESSING_WINDOW))
          (K_reserve id time callback)]).

(** [tryDequeuing(response[i], Number.parseInt(response[i + 1], 10), c)] *)
Definition dequeue_at (env : batch_env) (st : state) : state * list effect :=
  match nth_error (response env) (i env) with
  | Some id =>
      tryDequeuing id (parseInt (nth_error (response env) (i env + 1))) env st
  | None => tryDequeuing "undefined" (parseInt None) env st
  end.

(** [c(leftover)] *)
Definition c (env : batch_env) (leftover : bool) (now : number) (st : state)
  : state * list effect :=
  if resumeInspection st then cb (dueTime env) false now st
  else
    let leftovers' := leftovers env || leftover in
    let i' := (i env + 2)%nat in
    if (i' <? List.length (response env))%nat then
      dequeue_at (mkBatch (dueTime env) (reverse env) (response env) i' leftovers') st
    else if (List.length (response env) <? PROCESSING_BATCH_SIZE * 2)%nat then
      cb (dueTime env) leftovers' now st
    else getBatch (dueTime env) (negb (reverse env)) st.

Definition cleanup (id : string) : request :=
  Batch [ZREM QUEUE id; DEL [CONTENT_PREFIX ++ id; LOCK_PREFIX ++ id]]%string.

Definition rollback (id : string) : request :=
  Batch [ZREM QUEUE id; DEL [CONTENT_PREFIX ++ id]]%string.

(** Prefix the effects of what runs first. *)
Definition after (es : list effect) (r : state * list effect) : state * list effect :=
  (fst r, es ++ snd r).

(** The body of each callback, run on the reply it waits for. *)
Definition resume (k : kont) (r : reply) (now : number) (st : state)
  : state * list effect :=
  match k with
  | K_obtainNextDueTime before =>
      match r with
      | Failure e =>
          if setupCallback st then (st, [SetupCallback (Some e)])
          else (st, [Log "Could not read the next message's due time."])
      | Strings rs =>
          let st := mkState (sub now before) (nextDueTime st) (upToDate st)
                      (inspectingQueue st) (resumeInspection st)
                      (setupCallback st) (triggerTime st) (timerStored st) in
          let '(st, es) :=
            if upToDate st then (st, [])
            else setNextDueTime
                   (match rs with
                    | [] => Null
                    | _ :: _ => Num (parseInt (nth_error rs 1))
                    end) now st in
          if thrown es then (st, es)
          else if setupCallback st then
            (mkState (latency st) (nextDueTime st) (upToDate st)
               (inspectingQueue st) (resumeInspection st) false
               (triggerTime st) (timerStored st),
             es ++ [SetupCallback None])
          else (st, es)
      | _ => (st, [Throw "TypeError"])
      end
  | K_enqueue id callback =>
      match r with
      | Failure e => (st, [EnqueueCallback callback (Some e)])
      | Results responses =>
          match firstRedisError responses with
          | Some error => (st, [Db (rollback id) (K_rollback error callback)])
          | None =>
              match nth_error responses 1 with
              | Some (Int 1) => (st, [EnqueueCallback callback None])
              | _ =>
                  (st, [Log "Message was already present in the database.";
                        EnqueueCallback callback None])
              end
          end
      | _ => (st, [Throw "TypeError"])
      end
  | K_rollback error callback =>
      match r with
      | Failure _ =>
          (st, [Log "Could not rollback the write operations.";
                EnqueueCallback callback (Some error)])
      | _ => (st, [EnqueueCallback callback (Some error)])
      end
  | K_getBatch due rev =>
      if resumeInspection st then cb due false now st
      else
        match r with
        | Failure _ =>
            after [Log "Could not get a batch of messages."] (cb due true now st)
        | Strings [] => cb due false now st
        | Strings rs => dequeue_at (mkBatch due rev rs 0 false) st
        | _ => (st, [Throw "TypeError"])
        end
  | K_reserve id time callback =>
      match r with
      | Failure _ =>
          after [Log "Could not reserve a message."] (c callback true now st)
      | Value None => c callback true now st
      | _ => (st, [Db (Single (GET (CONTENT_PREFIX ++ id)))
                     (K_contents id time callback)])
      end
  | K_contents id time callback =>
      match r with
      | Failure _ =>
          after [Log "Could not get the contents of a message."]
            (c callback true now st)
      | Value None =>
          after [Log "Message is missing, most probably it has just been processed."]
            (c callback true now st)
      | Value (Some text) =>
          (* doTask(time, response) *)
          if valid_date time then
            after [Emit time text; Db (cleanup id) K_cleanup]
              (c callback false now st)
          else (st, [Throw "RangeError: Invalid time value"])
      | _ => (st, [Throw "TypeError"])
      end
  | K_cleanup =>
      match r with
      | Failure _ =>
          (st, [Log "Could not clean up the message from the database."])
      | Results responses =>
          match firstRedisError responses with
          | Some _ =>
              (st, [Log "Could not clean up the message from the database."])
          | None => (st, [])
          end
      | _ => (st, [Throw "TypeError"])
      end
  | K_watch =>
      match r with
      | Failure _ =>
          (st, [Log "Could not prepare the publishing of the next due time."])
      | _ => (st, [Db (Single (ZRANGE_WITHSCORES QUEUE 0 0)) K_minimum])
      end
  | K_minimum =>
      match r with
      | Failure _ => (st, [Log "Could not read the next message's due time."])
      | Strings rs =>
          let time :=
            match rs with
            | [] => Undefined
            | _ :: _ => Num (parseInt (nth_error rs 1))
            end in
          match publish_command time with
          | inl publish => (st, [Db (Multi [publish]) K_publish])
          | inr _ => (st, [Throw "TypeError"])
          end
      | _ => (st, [Throw "TypeError"])
      end
  | K_publish =>
      match r with
      | Failure _ | Value None =>
          (st, [Log "Someone else will have to publish the next due time."])
      | Results (Err _ :: _) => (st, [Log "Could not publish the next due time."])
      | _ => (st, [])
      end
  end.

Definition run_task (t : task) (now : number) (st : state)
  : state * list effect :=
  match t with
  | ActuallyInspectQueue due => actuallyInspectQueue due st
  | TimerFunc => timer_func now st
  end.

(** *** The event loop around the module

    The database answers requests in the order they were sent, so the
    callbacks wait in a queue. The functions given to [process.nextTick]
    run as soon as the current callback returns. An exception that leaves
    a callback ends that callback and is recorded in the trace; nothing in
    the service catches it. A run goes on after it, so what holds along
    every run holds up to the exception for a process that ends there. *)

Record world := mkWorld {
  vars : state;
  waiting : list kont;      (* callbacks of the requests sent, oldest first *)
  timeouts : list task;     (* pending [setTimeout]s *)
  trace : list effect       (* everything done so far, oldest first *)
}.

Definition konts (es : list effect) : list kont :=
  flat_map (fun e => match e with Db _ k => [k] | _ => [] end) es.

Definition sleepers (es : list effect) : list task :=
  flat_map (fun e => match e with SetTimeout t _ => [t] | _ => [] end) es.

Definition ticks (es : list effect) : list task :=
  flat_map (fun e => match e with NextTick t => [t] | _ => [] end) es.

Definition absorb (r : state * list effect) (w : world) : world :=
  mkWorld (fst r) (waiting w ++ konts (snd r)) (timeouts w ++ sleepers (snd r))
    (trace w ++ snd r).

(** Take in what a callback did, then run what it gave to [nextTick]. *)
Definition settle (r : state * list effect) (now : number) (w : world) : world :=
  fold_left (fun w' t => absorb (run_task t now (vars w')) w')
    (ticks (snd r)) (absorb r w).

Inductive event :=
| E_reply (r : reply)         (* the reply to the oldest request arrives *)
| E_timer                     (* the stored timeout runs [this.func] *)
| E_timeout (n : nat)         (* the [n]-th pending [setTimeout] fires *)
| E_message (payload : buffer)
| E_enqueue (time : number) (text : string) (callback : nat)
| E_sub_end.

(** One turn of the event loop at instant [now]. *)
Definition step (w : world) (ev : number * event) : world :=
  let now := fst ev in
  match snd ev with
  | E_reply r =>
      match waiting w with
      | k :: rest =>
          settle (resume k r now (vars w)) now
            (mkWorld (vars w) rest (timeouts w) (trace w))
      | [] => w
      end
  | E_timer =>
      if timerStored (vars w) then settle (timer_func now (vars w)) now w
      else w
  | E_timeout n =>
      match nth_error (timeouts w) n with
      | Some t =>
          settle (run_task t now (vars w)) now
            (mkWorld (vars w) (waiting w)
               (firstn n (timeouts w) ++ skipn (S n) (timeouts w)) (trace w))
      | None => w
      end
  | E_message payload => settle (on_message payload now (vars w)) now w
  | E_enqueue time text callback =>
      settle (enqueue time text callback (vars w)) now w
  | E_sub_end => settle (on_sub_end (vars w)) now w
  end.

Definition run (w : world) (evs : list (number * event)) : world :=
  fold_left step evs w.

(** *** Readings of a reply *)

(** The reservation [SET lk:id ... NX] went through. *)
Definition claim_obtained (r : reply) : bool :=
  match r with
  | Failure _ | Value None => false
  | _ => true
  end.

(** What a [GET] can answer: an error, null or a string. *)
Definition get_reply (r : reply) : bool :=
  match r with
  | Failure _ | Value _ => true
  | _ => false
  end.

Definition content_present (r : reply) : option string :=
  match r with
  | Value (Some text) => Some text
  | _ => None
  end.

Definition is_log (e : effect) : bool :=
  match e with Log _ => true | _ => false end.

(** A pass on its way: a callback of [getBatch] or of [tryDequeuing]. *)
Definition of_pass (k : kont) : bool :=
  match k with
  | K_getBatch _ _ | K_reserve _ _ _ | K_contents _ _ _ => true
  | _ => false
  end.

Definition passes_running (w : world) : nat :=
  List.length (filter of_pass (waiting w)).

(** What an [exec] can answer: an error or an array of results. *)
Definition exec_reply (r : reply) : bool :=
  match r with
  | Failure _ | Results _ => true
  | _ => false
  end.

(** The replies one entry of a batch receives: to the reservation, to the
    read of the contents when the reservation went through, and to the
    cleanup when the message was printed. *)
Record answers := mkAnswers {
  to_reserve : reply;
  to_get : reply;
  to_cleanup : reply
}.

Definition well_formed (a : answers) : bool :=
  get_reply (to_get a) && exec_reply (to_cleanup a).

Definition dispatched (a : answers) : bool :=
  claim_obtained (to_reserve a) &&
  match content_present (to_get a) with Some _ => true | None => false end.

Definition replies_of (a : answers) : list reply :=
  to_reserve a ::
  (if claim_obtained (to_reserve a)
   then to_get a :: (if dispatched a then [to_cleanup a] else [])
   else []).

(** Every score of a batch parses to a date [doTask] can print. *)
Fixpoint printable (rs : list string) : bool :=
  match rs with
  | [] => true
  | [_] => false
  | _ :: score :: rs' => valid_date (parseInt (Some score)) && printable rs'
  end.

(** The effects of handling one entry: reserving, reading, printing,
    cleaning up, logging. *)
Definition of_entry (e : effect) : bool :=
  match e with
  | Db _ (K_reserve _ _ _) | Db _ (K_contents _ _ _) | Db _ K_cleanup => true
  | Log _ | Emit _ _ => true
  | _ => false
  end.

Definition beyond_entries (es : list effect) : list effect :=
  filter (fun e => negb (of_entry e)) es.

(** What [c] does once the batch is processed, when no resumption is
    pending: the pass ends, with [lo] for [leftovers], or goes on to another
    batch. *)
Definition batch_end (env : batch_env) (lo : bool) (st : state) : state * list effect :=
  if (List.length (response env) <? PROCESSING_BATCH_SIZE * 2)%nat then
    (set_inspectingQueue false st,
     [if lo
      then SetTimeout (ActuallyInspectQueue (dueTime env)) PROCESSING_RETRY_DELAY
      else Db (Single (WATCH QUEUE)) K_watch])
  else getBatch (dueTime env) (negb (reverse env)) st.

(** The range a query by score covers, bounds included. *)
Definition within (lo hi : bound) (score : number) : bool :=
  match lo with
  | MinusInf => true
  | Score l => SFleb l score
  end &&
  match hi with
  | MinusInf => SFeqb score (S754_infinity true)
  | Score h => SFleb score h
  end.

(** What [Date.now()] returns: a Number that is neither NaN nor negative. *)
Definition is_instant (x : number) : bool :=
  match x with
  | S754_zero false | S754_infinity false | S754_finite false _ _ => true
  | _ => false
  end.

End Engine.

(** A batch of [n] entries. *)
Definition sample_batch (n : nat) : list string :=
  flat_map (fun _ => ["id"; "5"]%string) (seq 0 n).

(** A pass that ends with a leftover at 1002, the news at 1500 of a message
    due at 2100, the firing of the timer at 2100 and the retry of the first
    pass at 2102. *)
Definition retry_scenario : list (number * event) :=
  [ (of_Z 1000, E_timer);
    (of_Z 1001, E_reply (Strings ["a"; "1000"]%string));
    (of_Z 1002, E_reply (Value None));
    (of_Z 1500, E_message (writeDouble LE (of_Z 2100)));
    (of_Z 2100, E_timer);
    (of_Z 2102, E_timeout 0) ].

Definition armed : state :=
  mkState (of_Z 0) (Num (of_Z 1000)) true false false false
    (Some (of_Z 1000)) true.

(** A replica in the pass its timer started at 5000. *)
Definition in_pass : state :=
  mkState (of_Z 0) (Num (of_Z 5000)) true true false false None false.

(** The score the store returns for a message due at -1e16 ms, the time
    that a request with [ts=-10000000000000] asks for. *)
Definition far_past : string := "-10000000000000000".

(** A replica in a pass that was asked to resume, and that has been told
    since that the queue is empty. *)
Definition resuming : state :=
  mkState (of_Z 0) Null true true true false None false.

End Queue.

(** ** The store and the service together

    The keyspace of the store as far as the service uses it: string keys
    with an optional instant of expiry, and the sorted set [msgq]. The text
    the store gives to a score is left open. *)

Module Redis.

Import JS Buf Toolbox Queue.

Record store := mkStore {
  keys : string -> option (string * option number);
  msgq : list (string * number)
}.

(** A key with an expiry is gone once the instant is reached. *)
Definition alive (now : number) (expiry : option number) : bool :=
  match expiry with
  | None => true
  | Some t => lt now t
  end.

Definition get (now : number) (s : store) (key : string) : option string :=
  match keys s key with
  | Some (v, expiry) => if alive now expiry then Some v else None
  | None => None
  end.

Definition put (key v : string) (expiry : option number) (s : store) : store :=
  mkStore (fun k => if String.eqb k key then Some (v, expiry) else keys s k) (msgq s).

Definition del (key : string) (s : store) : store :=
  mkStore (fun k => if String.eqb k key then None else keys s k) (msgq s).

Definition is_member (id : string) (e : string * number) : bool :=
  String.eqb (fst e) id.

Definition zrem (id : string) (s : store) : store :=
  mkStore (keys s) (filter (fun e => negb (is_member id e)) (msgq s)).

(** The order of a sorted set: by score, then by member. *)
Definition before (a b : string * number) : bool :=
  SFltb (snd a) (snd b) || (SFeqb (snd a) (snd b) && String.leb (fst a) (fst b)).

Fixpoint insert (x : string * number) (l : list (string * number)) :=
  match l with
  | [] => [x]
  | y :: l' => if before x y then x :: l else y :: insert x l'
  end.

Fixpoint sort (l : list (string * number)) : list (string * number) :=
  match l with
  | [] => []
  | x :: l' => insert x (sort l')
  end.

Section Serve.

(** The text of a score in a reply. *)
Variable format_score : number -> string.

Definition range_reply (l : list (string * number)) : list string :=
  flat_map (fun e => [fst e; format_score (snd e)]) l.

Definition by_score (lo hi : bound) (l : list (string * number)) :=
  filter (fun e => within lo hi (snd e)) l.

(** A command inside [multi()] or [batch()]. *)
Definition exec_item (now : number) (s : store) (c : command) : store * item :=
  match c with
  | SET key v => (put key v None s, Bulk "OK")
  | DEL ks =>
      (fold_left (fun s' k => del k s') ks s,
       Int (Z.of_nat (List.length
                        (filter (fun k => match get now s k with
                                          | Some _ => true
                                          | None => false
                                          end) ks))))
  | ZADD key score member =>
      if existsb (is_member member) (msgq s)
      then (mkStore (keys s) ((member, score) :: msgq (zrem member s)), Int 0)
      else (mkStore (keys s) ((member, score) :: msgq s), Int 1)
  | ZREM key member =>
      (zrem member s, Int (if existsb (is_member member) (msgq s) then 1 else 0))
  | PUBLISH _ _ => (s, Int 0)
  | _ => (s, Err "ERR command not allowed here")
  end.

Fixpoint exec (now : number) (s : store) (cs : list command) : store * list item :=
  match cs with
  | [] => (s, [])
  | c :: cs' =>
      let (s1, x) := exec_item now s c in
      let (s2, xs) := exec now s1 cs' in
      (s2, x :: xs)
  end.

(** The reply of the store to a request of the service, at instant [now].
    Requests the service never sends have no reply here. *)
Definition serve (now : number) (s : store) (r : request) : option (store * reply) :=
  match r with
  | Single (GET key) => Some (s, Value (get now s key))
  | Single (SET_PX_NX key v px) =>
      match get now s key with
      | Some _ => Some (s, Value None)
      | None =>
          Some (put key (string_of_list_byte v) (Some (add now px)) s,
                Value (Some "OK"%string))
      end
  | Single (WATCH _) => Some (s, Value (Some "OK"%string))
  | Single (ZRANGE_WITHSCORES _ 0 0) =>
      Some (s, Strings (range_reply (firstn 1 (sort (msgq s)))))
  | Single (ZRANGEBYSCORE _ lo hi 0 n) =>
      Some (s, Strings (range_reply (firstn n (by_score lo hi (sort (msgq s))))))
  | Single (ZREVRANGEBYSCORE _ hi lo 0 n) =>
      Some (s, Strings (range_reply (firstn n (by_score lo hi (rev (sort (msgq s)))))))
  | Multi cs | Batch cs =>
      let (s', xs) := exec now s cs in Some (s', Results xs)
  | _ => None
  end.

(** *** One replica and the store *)

Variable en : endianness.

Record system := mkSystem {
  node : world;
  db : store;
  sent : list request   (* the requests not answered yet, oldest first *)
}.

Definition requests (es : list effect) : list request :=
  flat_map (fun e => match e with Db r _ => [r] | _ => [] end) es.

(** What the replica sent during a turn that took it from [w] to [w']. *)
Definition sent_during (w w' : world) : list request :=
  requests (skipn (List.length (trace w)) (trace w')).

(** The timer fires at [now]. *)
Definition timer_fires (now : number) (sys : system) : system :=
  let w' := step en (node sys) (now, E_timer) in
  mkSystem w' (db sys) (sent sys ++ sent_during (node sys) w').

(** The store answers the oldest request at [now]. *)
Definition answer (now : number) (sys : system) : system :=
  match sent sys with
  | r :: rest =>
      match serve now (db sys) r with
      | Some (db', reply) =>
          let w' := step en (node sys) (now, E_reply reply) in
          mkSystem w' db' (rest ++ sent_during (node sys) w')
      | None => sys
      end
  | [] => sys
  end.

(** [n] answers, the [k]-th one at instant [clock k]. *)
Fixpoint answers (clock : nat -> number) (n : nat) (sys : system) : system :=
  match n with
  | O => sys
  | S n' => answers (fun k => clock (S k)) n' (answer (clock O) sys)
  end.

(** The texts printed by a list of effects, oldest first. *)
Definition texts (es : list effect) : list string :=
  flat_map (fun e => match e with Emit _ text => [text] | _ => [] end) es.

(** The entries of the queue that are due at [now]. *)
Definition is_due (now : number) (e : string * number) : bool :=
  SFleb (snd e) now.

Definition due (now : number) (s : store) : list (string * number) :=
  filter (is_due now) (msgq s).

(** The members [ids] taken out of a list of entries. *)
Definition without (ids : list string) (l : list (string * number)) :=
  filter (fun e => negb (existsb (String.eqb (fst e)) ids)) l.

(** [k] is the content key or the lock of one of [ids]. *)
Definition key_of (ids : list string) (k : string) : bool :=
  existsb (fun id => String.eqb k (CONTENT_PREFIX ++ id)
                     || String.eqb k (LOCK_PREFIX ++ id)) ids.

(** An entry nobody has reserved, with its content in place. *)
Definition free (s : store) (e : string * number) : Prop :=
  keys s (LOCK_PREFIX ++ fst e) = None /\
  exists text, keys s (CONTENT_PREFIX ++ fst e) = Some (text, None).

(** The score of an entry comes back as a date [doTask] can print. *)
Definition dated (e : string * number) : bool :=
  valid_date (parseInt (Some (format_score (snd e)))).

(** The members of the queue are distinct, and every entry that is due at
    [now] is free. *)
Definition sound (now : number) (s : store) : Prop :=
  NoDup (map fst (msgq s)) /\ forall e, In e (due now s) -> free s e.

(** The range query of a pass whose cutoff is [now]. *)
Definition query (now : number) (rev : bool) : command :=
  if rev
  then ZREVRANGEBYSCORE QUEUE (Score now) MinusInf 0 PROCESSING_BATCH_SIZE
  else ZRANGEBYSCORE QUEUE MinusInf (Score now) 0 PROCESSING_BATCH_SIZE.

(** The window of that query, in the order the store reads it. *)
Definition window (now : number) (rev : bool) (s : store) : list (string * number) :=
  by_score MinusInf (Score now)
    (if rev then List.rev (sort (msgq s)) else sort (msgq s)).

(** The text stored for a member of the queue. *)
Definition content (s : store) (e : string * number) : option string :=
  match keys s (CONTENT_PREFIX ++ fst e) with
  | Some (text, _) => Some text
  | None => None
  end.

End Serve.

(** A queue of two messages, one due long ago and one in the far future. *)
Definition two_messages : store :=
  mkStore
    (fun k =>
       if String.eqb k "msg:a" then Some ("first"%string, None)
       else if String.eqb k "msg:b" then Some ("second"%string, None)
       else None)
    [("a"%string, of_Z 1000); ("b"%string, of_Z 1800000000000)].

(** The text the store gives to the scores of the service, which are
    integers or infinite: the decimal digits of an integer of at most 17
    digits, as [%.17g] prints it, and [inf] or [-inf]. *)
Definition score_text (x : number) : string :=
  match x with
  | S754_zero _ => "0"
  | S754_infinity s => if s then "-inf" else "inf"
  | S754_nan => "nan"
  | S754_finite s m e =>
      DecimalString.NilZero.string_of_int
        (Z.to_int (cond_Zopp s (if 0 <=? e then Zpos m * 2 ^ e
                                else Zpos m / 2 ^ (- e))))
  end.

End Redis.

(** ** Readings of a run of the event loop *)

Module Loop.

Import JS Buf Toolbox Queue.

(** The errors handed to the callback [n] of [enqueue], oldest first. *)
Definition callbacks (n : nat) (es : list effect) : list (option string) :=
  flat_map (fun e => match e with
                     | EnqueueCallback m error => if (m =? n)%nat then [error] else []
                     | _ => []
                     end) es.

Definition is_throw (e : effect) : bool :=
  match e with Throw _ => true | _ => false end.

(** What the callback of [setUp] was called with, oldest first. *)
Definition setups (es : list effect) : list (option string) :=
  flat_map (fun e => match e with SetupCallback error => [error] | _ => [] end) es.

(** The shape of the reply the client library hands to each callback: a
    range query answers with a flat array, the [exec] of a [batch()] with
    the array of its results, the [exec] of a [multi()] with that array or
    with null when a key watched on the connection changed, [set] and
    [get] with a string or null. *)
Definition fits (k : kont) (r : reply) : bool :=
  match k, r with
  | _, Failure _ => true
  | (K_obtainNextDueTime _ | K_getBatch _ _ | K_minimum), Strings _ => true
  | (K_enqueue _ _ | K_rollback _ _ | K_cleanup), Results _ => true
  | (K_enqueue _ _ | K_publish), Value None => true
  | K_publish, Results _ => true
  | (K_reserve _ _ _ | K_contents _ _ _ | K_watch), Value _ => true
  | _, _ => false
  end.

(** A reply ends the work on an entry of a batch, or is the batch itself.
    The content of a message ends it when [doTask] can print its date. *)
Definition ends_entry (k : kont) (r : reply) : bool :=
  match k with
  | K_getBatch _ _ => true
  | K_reserve _ _ _ => negb (claim_obtained r)
  | K_contents _ time _ =>
      match r with
      | Value (Some _) => valid_date time
      | _ => get_reply r
      end
  | _ => false
  end.

(** The effects of an entry that [ends_entry] leaves behind: what is
    logged, the message printed and its cleanup. *)
Definition entry_effects (k : kont) (r : reply) : list effect :=
  match k, r with
  | K_reserve _ _ _, Failure _ => [Log "Could not reserve a message."]
  | K_contents _ _ _, Failure _ => [Log "Could not get the contents of a message."]
  | K_contents _ _ _, Value None =>
      [Log "Message is missing, most probably it has just been processed."]
  | K_contents id time _, Value (Some text) =>
      [Emit time text; Db (cleanup id) K_cleanup]
  | _, _ => []
  end.

(** Counting in a trace and among the callbacks that wait. *)
Definition count {A : Type} (f : A -> bool) (l : list A) : nat :=
  List.length (filter f l).

Definition is_emit (e : effect) : bool :=
  match e with Emit _ _ => true | _ => false end.

Definition is_reservation (e : effect) : bool :=
  match e with Db (Single (SET_PX_NX _ _ _)) _ => true | _ => false end.

Definition is_read (e : effect) : bool :=
  match e with Db (Single (GET _)) _ => true | _ => false end.

Definition is_cleanup (e : effect) : bool :=
  match e with Db _ K_cleanup => true | _ => false end.

Definition reserving (k : kont) : bool :=
  match k with K_reserve _ _ _ => true | _ => false end.

Definition reading (k : kont) : bool :=
  match k with K_contents _ _ _ => true | _ => false end.

(** Every message printed was read, every read follows a reservation, and
    every message printed has its cleanup sent. *)
Definition accounted (w : world) : Prop :=
  (count is_emit (trace w) + count reading (waiting w) <= count is_read (trace w))%nat /\
  (count is_read (trace w) + count reserving (waiting w)
   <= count is_reservation (trace w))%nat /\
  count is_cleanup (trace w) = count is_emit (trace w).


Section Guard.

Variable en : endianness.




End Guard.

End Loop.

(** ** A message submitted to an empty store *)

Module Samples.

Import JS Buf Toolbox MessageId Queue Redis.

Definition empty : store := mkStore (fun _ => None) [].

Definition hello_id : string := getMessageId LE (of_Z 5000) "hello".

Definition hello_writes : list command :=
  [SET (CONTENT_PREFIX ++ hello_id) "hello"; ZADD QUEUE (of_Z 5000) hello_id].

Definition hello_publish : command :=
  PUBLISH NEXT_DUE_TIME_CHANNEL (writeDouble LE (of_Z 5000)).

(** The store after the message was submitted once, and twice. *)
Definition once : store :=
  fst (exec (of_Z 10) empty (hello_writes ++ [hello_publish])).

Definition twice : store := fst (exec (of_Z 20) once hello_writes).

(** A message asked for the instant -1e16 ms, as written by the
    transaction of [enqueue]. *)
Definition far_past_time : number := of_Z (-10000000000000000).

Definition far_past_id : string := getMessageId LE far_past_time "hello".

Definition far_past_store : store :=
  fst (exec (of_Z 10) empty
         [SET (CONTENT_PREFIX ++ far_past_id) "hello";
          ZADD QUEUE far_past_time far_past_id;
          PUBLISH NEXT_DUE_TIME_CHANNEL (writeDouble LE far_past_time)]).

(** A replica that has received the publication. *)
Definition informed : state :=
  mkState (of_Z 0) (Num (of_Z 5000)) true false false false
    (Some (of_Z 5000)) true.

End Samples.

(** ** queue.js, setUp: the two connections

    The listeners of [db] and [sub] that keep the flags [dbReady] and
    [subReady], which [setUp] declares and leaves unassigned. *)

Module Links.

Record links := mkLinks {
  dbReady : bool;
  subReady : bool
}.

Definition initial : links := mkLinks false false.

Inductive event :=
| Db_ready         (* db.on('ready') *)
| Db_end           (* db.on('end') *)
| Sub_ready        (* sub.on('ready') *)
| Sub_subscribe    (* sub.on('subscribe') *)
| Sub_end.         (* sub.on('end') *)

Inductive action :=
| Subscribe        (* sub.subscribe(NEXT_DUE_TIME_CHANNEL) *)
| Obtain           (* obtainNextDueTime() *)
| Stale.           (* upToDate = false *)

Definition on (ev : event) (l : links) : links * list action :=
  match ev with
  | Db_ready => (mkLinks true (subReady l), if subReady l then [Obtain] else [])
  | Db_end => (mkLinks false (subReady l), [])
  | Sub_ready => (l, [Subscribe])
  | Sub_subscribe => (mkLinks (dbReady l) true, if dbReady l then [Obtain] else [])
  | Sub_end => (mkLinks (dbReady l) false, [Stale])
  end.

Fixpoint run (evs : list event) (l : links) : links * list action :=
  match evs with
  | [] => (l, [])
  | ev :: evs' =>
      let (l1, as1) := on ev l in
      let (l2, as2) := run evs' l1 in
      (l2, as1 ++ as2)
  end.

(** The due time was declared stale, or never known, and has not been
    asked for since. *)
Fixpoint unrefreshed (stale : bool) (acts : list action) : bool :=
  match acts with
  | [] => stale
  | Obtain :: rest => unrefreshed false rest
  | Stale :: rest => unrefreshed true rest
  | Subscribe :: rest => unrefreshed stale rest
  end.

End Links.

(** ** queue.js: shutDown

    [cancelled] is what [timer.cancel()] does; [db] and [sub] tell whether
    the connections exist, [callback] whether one was given. *)

Module Shutdown.

Inductive stream := DbStream | SubStream.

Inductive action :=
| End (s : stream)        (* db.end(true), sub.end(true) *)
| Callback                (* callback() *)
| Throw (msg : string).

Record closing := mkClosing {
  conn : Z;
  db_listens : bool;      (* [done] listens to 'close' on db.stream *)
  sub_listens : bool      (* [done] listens to 'close' on sub.stream *)
}.

Definition shutDown (cancelled : Timer.outcome) (db sub callback : bool)
  : option closing * list action :=
  match cancelled with
  | Timer.Throws msg => (None, [Throw msg])
  | Timer.Done =>
      let conn1 := if db then 1 else 0 in
      let conn2 := if sub then conn1 + 1 else conn1 in
      (Some (mkClosing conn2 (db && callback) (sub && callback)),
       (if db then [End DbStream] else []) ++ (if sub then [End SubStream] else []))
  end.

(** The closure [done]. *)
Definition done (c : closing) : closing * list action :=
  let n := conn c - 1 in
  (mkClosing n (db_listens c) (sub_listens c), if n =? 0 then [Callback] else []).

(** A stream emits 'close'. *)
Definition on_close (s : stream) (c : closing) : closing * list action :=
  if match s with DbStream => db_listens c | SubStream => sub_listens c end
  then done c
  else (c, []).

Fixpoint run (closes : list stream) (c : closing) : closing * list action :=
  match closes with
  | [] => (c, [])
  | s :: rest =>
      let (c1, as1) := on_close s c in
      let (c2, as2) := run rest c1 in
      (c2, as1 ++ as2)
  end.

Definition other (s : stream) : stream :=
  match s with DbStream => SubStream | SubStream => DbStream end.

End Shutdown.

(** ** index.js: the request handler

    The values of [config.json] that the handler reads and
    [Buffer.isEncoding] are parameters. The handler sees the URL through
    [url.pathname] and the result of [Number.parseFloat] on the time
    parameter, and the [content-type] header through [ct.parse]. A
    character of a body stands for one UTF-16 code unit. The ['error']
    listener of the request is left out. *)

Module Http.

Import JS MessageId.

(** What [ct.parse] makes of a header. *)
Inductive media :=
| Unparsable                                    (* [ct.parse] throws *)
| Media (type : string) (charset : option string).

Record request := mkRequest {
  pathname : string;             (* url.pathname *)
  method : string;               (* request.method *)
  ts_param : option number;      (* the parsed time parameter, when given *)
  content_type : option media    (* the header, when given and not empty *)
}.

Inductive effect :=
| Reply (status : nat)                    (* statusCode set, response.end() *)
| Enqueue (ts : number) (body : string)   (* q.enqueue(ts, body, ...) *)
| Log (msg : string).

(** The variables of one call of the handler, once the listeners are in
    place. *)
Record exchange := mkExchange {
  ts : number;
  body : string;
  listening : bool   (* the ['data'] listener is still installed *)
}.

Inductive event :=
| Data (chunk : string)
| End (complete : bool)               (* [request.complete] at ['end'] *)
| Enqueued (error : option string).   (* the callback given to [q.enqueue] *)

Definition MEDIA_TYPE_PREFIX : string := "text/".

(** The chunks of a body put together, as [body += chunk] does. *)
Definition join (chunks : list string) : string :=
  fold_right append EmptyString chunks.

Section Handler.

Variable service_path service_method : string.
Variable maxMessageLength : nat.
Variable isEncoding : string -> bool.

(** [code || 400] *)
Definition status_of (code : option nat) : nat :=
  match code with
  | Some (S n) => S n
  | _ => 400
  end.

(** [replyWithError(code)] *)
Definition replyWithError (code : option nat) (x : exchange) : exchange * list effect :=
  (mkExchange (ts x) (body x) false, [Reply (status_of code)]).

(** The checks before the listeners are installed; [now] is [Date.now()]. *)
Definition on_request (rq : request) (now : number) : option exchange * list effect :=
  if negb (pathname rq =? service_path)%string then (None, [Reply (status_of (Some 404%nat))])
  else if negb (method rq =? service_method)%string then (None, [Reply (status_of (Some 405%nat))])
  else
    match display_time (ts_param rq) now with
    | None => (None, [Reply (status_of None)])
    | Some t =>
        let late :=
          match ts_param rq with
          | Some _ =>
              if lt t now
              then [Log "Received a message that should have been processed in the past."]
              else []
          | None => []
          end in
        let start := (Some (mkExchange t EmptyString true), late) in
        match content_type rq with
        | None => start
        | Some Unparsable => (None, late ++ [Reply (status_of None)])
        | Some (Media type charset) =>
            if negb (prefix MEDIA_TYPE_PREFIX type)
            then (None, late ++ [Reply (status_of None)])
            else
              match charset with
              | Some encoding =>
                  if negb (encoding =? EmptyString)%string && negb (isEncoding encoding)
                  then (None, late ++ [Reply (status_of None)])
                  else start
              | None => start
              end
        end
    end.

(** The ['data'] listener. *)
Definition on_data (chunk : string) (x : exchange) : exchange * list effect :=
  if listening x then
    if (maxMessageLength <? String.length (body x) + String.length chunk)%nat
    then replyWithError (Some 413%nat) x
    else (mkExchange (ts x) (body x ++ chunk) (listening x), [])
  else (x, []).

(** The ['end'] listener. *)
Definition on_end (complete : bool) (x : exchange) : exchange * list effect :=
  if negb complete || (String.length (body x) =? 0)%nat
  then replyWithError None x
  else (x, [Enqueue (ts x) (body x)]).

(** The callback given to [q.enqueue]. *)
Definition on_enqueued (error : option string) (x : exchange) : exchange * list effect :=
  match error with
  | Some e => (fst (replyWithError (Some 500%nat) x),
               Log e :: snd (replyWithError (Some 500%nat) x))
  | None => (x, [Reply 200%nat])
  end.

Definition handle (ev : event) (x : exchange) : exchange * list effect :=
  match ev with
  | Data chunk => on_data chunk x
  | End complete => on_end complete x
  | Enqueued error => on_enqueued error x
  end.

(** The events of one request in turn; what was done, oldest first. *)
Fixpoint run (evs : list event) (x : exchange) : exchange * list effect :=
  match evs with
  | [] => (x, [])
  | ev :: evs' =>
      let (x1, es1) := handle ev x in
      let (x2, es2) := run evs' x1 in
      (x2, es1 ++ es2)
  end.

(** The bodies handed to [q.enqueue]. *)
Definition enqueued (es : list effect) : list string :=
  flat_map (fun e => match e with Enqueue _ b => [b] | _ => [] end) es.

Definition statuses (es : list effect) : list nat :=
  flat_map (fun e => match e with Reply n => [n] | _ => [] end) es.

End Handler.

End Http.

(* ================================================================== *)
(** * Properties *)
(* ================================================================== *)

Import JS Buf.

(** ** The binary64 encoding *)

Section Binary64.

Lemma digits2_pos_bounds (m : positive) :
  2 ^ (Zpos (digits2_pos m) - 1) <= Zpos m < 2 ^ Zpos (digits2_pos m).
Proof.
  induction m as [m IH | m IH | ]; cbn [digits2_pos].
  - rewrite Pos2Z.inj_succ.
    replace (Z.succ (Zpos (digits2_pos m)) - 1) with (Z.succ (Zpos (digits2_pos m) - 1)) by lia.
    rewrite !Z.pow_succ_r by lia. lia.
  - rewrite Pos2Z.inj_succ.
    replace (Z.succ (Zpos (digits2_pos m)) - 1) with (Z.succ (Zpos (digits2_pos m) - 1)) by lia.
    rewrite !Z.pow_succ_r by lia. lia.
  - cbn. lia.
Qed.

Lemma bounded_cases (m : positive) (e : Z) :
  bounded prec emax m e = true ->
  (2 ^ 52 <= Zpos m < 2 ^ 53 /\ -1074 <= e <= 971) \/
  (Zpos m < 2 ^ 52 /\ e = -1074).
Proof.
  unfold bounded, canonical_mantissa, fexp, emin, prec, emax.
  intros H. apply andb_prop in H as [Hc He].
  apply Z.eqb_eq in Hc. apply Z.leb_le in He.
  pose proof (digits2_pos_bounds m) as [Hlo Hhi].
  set (d := Zpos (digits2_pos m)) in *.
  assert (Hd : 0 < d) by (unfold d; lia).
  destruct (Z.max_spec (d + e - 53) (3 - 1024 - 53)) as [[Hlt Hm] | [Hge Hm]];
    rewrite Hm in Hc.
  - right. split; [| lia].
    assert (d <= 52) by lia.
    eapply Z.lt_le_trans; [exact Hhi |].
    apply Z.pow_le_mono_r; lia.
  - left. assert (d = 53) by lia.
    replace d with 53 in * by lia. cbn in Hlo. cbn. lia.
Qed.

Lemma sign_bit_range s : sign_bit s = 0 \/ sign_bit s = 2 ^ 63.
Proof. destruct s; auto. Qed.

Lemma fields_of_bits (s : bool) (ex man : Z) :
  0 <= ex < 2 ^ 11 -> 0 <= man < 2 ^ 52 ->
  let b := sign_bit s + ex * 2 ^ 52 + man in
  Z.testbit b 63 = s /\ (b / 2 ^ 52) mod 2 ^ 11 = ex /\ b mod 2 ^ 52 = man.
Proof.
  intros Hex Hman b.
  assert (Hq : b / 2 ^ 52 = (if s then 2 ^ 11 else 0) + ex).
  { symmetry. apply Z.div_unique with (r := man); [lia |].
    unfold b, sign_bit. destruct s; lia. }
  repeat split.
  - rewrite Z.testbit_odd, Z.shiftr_div_pow2 by lia.
    replace (b / 2 ^ 63) with (if s then 1 else 0); [destruct s; reflexivity |].
    apply Z.div_unique with (r := ex * 2 ^ 52 + man); [lia |].
    unfold b, sign_bit. destruct s; lia.
  - rewrite Hq. symmetry.
    apply Z.mod_unique with (q := if s then 1 else 0); [lia |].
    destruct s; lia.
  - symmetry. apply Z.mod_unique with (q := (if s then 2 ^ 11 else 0) + ex); [lia |].
    unfold b, sign_bit. destruct s; lia.
Qed.

Lemma bits_of_number_range (x : number) :
  is_number x = true -> 0 <= bits_of_number x < 2 ^ 64.
Proof.
  destruct x as [s | s | | s m e]; cbn [bits_of_number is_number valid_binary].
  - intros _. destruct s; unfold sign_bit; lia.
  - intros _. destruct s; unfold sign_bit; lia.
  - intros _. unfold nan_bits. lia.
  - intros H. apply bounded_cases in H.
    destruct (Z.leb_spec (2 ^ 52) (Zpos m)); destruct s; unfold sign_bit; lia.
Qed.

Lemma number_of_bits_of_number (x : number) :
  is_number x = true -> number_of_bits (bits_of_number x) = x.
Proof.
  destruct x as [s | s | | s m e]; cbn [bits_of_number is_number valid_binary].
  - intros _. destruct s; reflexivity.
  - intros _. destruct s; reflexivity.
  - reflexivity.
  - intros H. apply bounded_cases in H.
    destruct (Z.leb_spec (2 ^ 52) (Zpos m)) as [Hn | Hs].
    + assert (He : -1074 <= e <= 971) by lia.
      destruct (fields_of_bits s (e + 1075) (Zpos m - 2 ^ 52)) as (Hb & Hx & Hm); [lia | lia |].
      unfold number_of_bits. rewrite Hb, Hx, Hm.
      destruct (Z.eqb_spec (e + 1075) 0); [lia |].
      destruct (Z.eqb_spec (e + 1075) 0x7FF); [lia |].
      replace (Zpos m - 2 ^ 52 + 2 ^ 52) with (Zpos m) by lia.
      f_equal. lia.
    + assert (He : e = -1074) by lia. subst e.
      destruct (fields_of_bits s 0 (Zpos m)) as (Hb & Hx & Hm); [lia | lia |].
      replace (sign_bit s + 0 * 2 ^ 52 + Zpos m) with (sign_bit s + Zpos m) in * by lia.
      unfold number_of_bits. rewrite Hb, Hx, Hm. reflexivity.
Qed.

Lemma bits_decompose (b : Z) :
  0 <= b < 2 ^ 64 ->
  b = sign_bit (Z.testbit b 63) + ((b / 2 ^ 52) mod 2 ^ 11) * 2 ^ 52 + b mod 2 ^ 52.
Proof.
  intros Hb.
  rewrite Z.testbit_odd, Z.shiftr_div_pow2 by lia.
  assert (H63 : 0 <= b / 2 ^ 63 < 2).
  { split; [apply Z.div_pos; lia | apply Z.div_lt_upper_bound; lia]. }
  pose proof (Z.div_mod b (2 ^ 52) ltac:(lia)) as Hdm.
  pose proof (Z.mod_pos_bound b (2 ^ 52) ltac:(lia)) as Hm.
  pose proof (Z.div_mod (b / 2 ^ 52) (2 ^ 11) ltac:(lia)) as Hdm'.
  pose proof (Z.mod_pos_bound (b / 2 ^ 52) (2 ^ 11) ltac:(lia)) as Hm'.
  rewrite Z.div_div in Hdm' by lia.
  change (2 ^ 52 * 2 ^ 11) with (2 ^ 63) in Hdm'.
  assert (Hs : sign_bit (Z.odd (b / 2 ^ 63)) = 2 ^ 63 * (b / 2 ^ 63)).
  { assert (Hc : b / 2 ^ 63 = 0 \/ b / 2 ^ 63 = 1) by lia.
    destruct Hc as [-> | ->]; reflexivity. }
  rewrite Hs. lia.
Qed.

Lemma bits_of_number_of_bits (b : Z) :
  0 <= b < 2 ^ 64 -> foreign_nan b = false ->
  bits_of_number (number_of_bits b) = b.
Proof.
  intros Hb Hn.
  pose proof (bits_decompose b Hb) as Hd.
  pose proof (Z.mod_pos_bound b (2 ^ 52) ltac:(lia)) as Hm.
  pose proof (Z.mod_pos_bound (b / 2 ^ 52) (2 ^ 11) ltac:(lia)) as Hx.
  unfold foreign_nan in Hn. revert Hn.
  unfold number_of_bits.
  set (s := Z.testbit b 63) in *.
  set (ex := (b / 2 ^ 52) mod 2 ^ 11) in *.
  set (man := b mod 2 ^ 52) in *.
  destruct (Z.eqb_spec ex 0) as [E0 | E0].
  - intros _. destruct man as [| m | m] eqn:Em; cbn [bits_of_number]; try lia.
    destruct (Z.leb_spec (2 ^ 52) (Zpos m)); lia.
  - destruct (Z.eqb_spec ex 0x7FF) as [E1 | E1].
    + destruct (Z.eqb_spec man 0) as [M0 | M0].
      * intros _. cbn [bits_of_number]. lia.
      * cbn [isNaN andb]. intros Hn. apply negb_false_iff, Z.eqb_eq in Hn.
        cbn [bits_of_number]. congruence.
    + intros _. destruct (man + 2 ^ 52) as [| m | m] eqn:Em; try lia.
      cbn [bits_of_number].
      destruct (Z.leb_spec (2 ^ 52) (Zpos m)); lia.
Qed.

End Binary64.

(** ** Byte strings *)

Section Bytes.

Lemma Z_of_byte_range (b : Byte.byte) : 0 <= Z_of_byte b < 256.
Proof.
  unfold Z_of_byte. pose proof (Byte.to_N_bounded b). lia.
Qed.

Lemma byte_of_Z_of_byte (b : Byte.byte) : byte_of_Z (Z_of_byte b) = b.
Proof.
  unfold byte_of_Z, Z_of_byte. rewrite N2Z.id, Byte.of_to_N. reflexivity.
Qed.

Lemma Z_of_byte_of_Z (z : Z) : 0 <= z < 256 -> Z_of_byte (byte_of_Z z) = z.
Proof.
  intros Hz. unfold byte_of_Z, Z_of_byte.
  destruct (Byte.of_N (Z.to_N z)) as [b |] eqn:E.
  - apply Byte.to_of_N in E. rewrite E. lia.
  - apply Byte.of_N_None_iff in E. lia.
Qed.

Lemma le_bytes_length (n : nat) (z : Z) : List.length (le_bytes n z) = n.
Proof.
  revert z. induction n as [| n IH]; intros z; cbn; [reflexivity |].
  now rewrite IH.
Qed.

Lemma le_value_range (l : buffer) : 0 <= le_value l < 256 ^ Z.of_nat (List.length l).
Proof.
  induction l as [| b l IH]; cbn [le_value List.length]; [cbn; lia |].
  rewrite Nat2Z.inj_succ, Z.pow_succ_r by lia.
  pose proof (Z_of_byte_range b). lia.
Qed.

Lemma le_value_bytes (n : nat) (z : Z) :
  0 <= z < 256 ^ Z.of_nat n -> le_value (le_bytes n z) = z.
Proof.
  revert z. induction n as [| n IH]; intros z Hz.
  - cbn in *. lia.
  - rewrite Nat2Z.inj_succ, Z.pow_succ_r in Hz by lia.
    cbn [le_bytes le_value].
    pose proof (Z.mod_pos_bound z 256 ltac:(lia)).
    rewrite Z_of_byte_of_Z by lia.
    rewrite IH.
    + pose proof (Z.div_mod z 256 ltac:(lia)). lia.
    + split; [apply Z.div_pos; lia | apply Z.div_lt_upper_bound; lia].
Qed.

Lemma le_bytes_value (l : buffer) : le_bytes (List.length l) (le_value l) = l.
Proof.
  induction l as [| b l IH]; cbn [le_bytes le_value List.length]; [reflexivity |].
  pose proof (Z_of_byte_range b) as Hb.
  assert (Hm : (Z_of_byte b + 256 * le_value l) mod 256 = Z_of_byte b).
  { symmetry. apply Z.mod_unique with (q := le_value l); lia. }
  assert (Hd : (Z_of_byte b + 256 * le_value l) / 256 = le_value l).
  { symmetry. apply Z.div_unique with (r := Z_of_byte b); lia. }
  rewrite Hm, Hd, byte_of_Z_of_byte, IH. reflexivity.
Qed.

Lemma word_bytes_length en n z : List.length (word_bytes en n z) = n.
Proof.
  destruct en; cbn; [| rewrite length_rev]; apply le_bytes_length.
Qed.

Lemma word_value_bytes en n z :
  0 <= z < 256 ^ Z.of_nat n -> word_value en (word_bytes en n z) = z.
Proof.
  intros Hz. destruct en; cbn; [| rewrite rev_involutive]; now apply le_value_bytes.
Qed.

Lemma word_bytes_value en (l : buffer) :
  word_bytes en (List.length l) (word_value en l) = l.
Proof.
  destruct en; cbn.
  - apply le_bytes_value.
  - rewrite <- (length_rev l), le_bytes_value. apply rev_involutive.
Qed.

Lemma word_value_range en (l : buffer) :
  0 <= word_value en l < 256 ^ Z.of_nat (List.length l).
Proof.
  destruct en; cbn; [apply le_value_range |].
  rewrite <- (length_rev l). apply le_value_range.
Qed.

Lemma bits_of_number_own (x : number) :
  is_number x = true -> foreign_nan (bits_of_number x) = false.
Proof.
  intros Hx. unfold foreign_nan. rewrite (number_of_bits_of_number x Hx).
  destruct x; reflexivity.
Qed.

Lemma readDouble_writeDouble en (x : number) :
  is_number x = true -> readDouble en (writeDouble en x) = Some (Num x).
Proof.
  intros Hx. unfold readDouble, writeDouble, value_of_bits.
  rewrite word_bytes_length. cbn [Nat.leb].
  rewrite firstn_all2 by (rewrite word_bytes_length; lia).
  rewrite word_value_bytes by (apply bits_of_number_range, Hx).
  now rewrite (bits_of_number_own x Hx), number_of_bits_of_number.
Qed.

(** A NaN with bits of its own is read with them. *)
Lemma readDouble_payload en (bits : Z) :
  0 <= bits < 2 ^ 64 -> foreign_nan bits = true ->
  readDouble en (word_bytes en 8 bits) = Some (Nan bits).
Proof.
  intros Hb Hn. unfold readDouble, value_of_bits.
  rewrite word_bytes_length. cbn [Nat.leb].
  rewrite firstn_all2 by (rewrite word_bytes_length; lia).
  rewrite word_value_bytes by (change (256 ^ Z.of_nat 8) with (2 ^ 64); lia).
  now rewrite Hn.
Qed.

(** What was read from eight bytes is written as the same bytes. *)
Lemma writeDouble_readDouble en (b : buffer) :
  List.length b = 8%nat ->
  (exists x, readDouble en b = Some (Num x) /\ writeDouble en x = b) \/
  (exists bits, readDouble en b = Some (Nan bits) /\ word_bytes en 8 bits = b).
Proof.
  intros Hl. unfold readDouble, writeDouble, value_of_bits. rewrite Hl.
  cbn [Nat.leb]. rewrite firstn_all2 by lia.
  pose proof (word_value_range en b) as Hr. rewrite Hl in Hr.
  pose proof (word_bytes_value en b) as Hw. rewrite Hl in Hw.
  destruct (foreign_nan (word_value en b)) eqn:Hn.
  - right. eexists. split; [reflexivity | exact Hw].
  - left. eexists. split; [reflexivity |].
    rewrite bits_of_number_of_bits by (auto; lia). exact Hw.
Qed.

End Bytes.

(** ** toolbox.js: numbers and buffers *)

Section ToolboxRoundTrip.

Import Toolbox.

Lemma bufferToNumber_of_eight en (b : buffer) (v : value) :
  List.length b = 8%nat -> readDouble en b = Some v ->
  bufferToNumber en b = inl v.
Proof.
  intros Hl Hr. unfold bufferToNumber. rewrite Hr.
  destruct b; [discriminate Hl | reflexivity].
Qed.

(** C8: [bufferToNumber (numberToBuffer x) = x] for every Number [x], a
    NaN with bits of its own included, and for [null], which goes to the
    empty buffer and back; [numberToBuffer (bufferToNumber b) = b] for
    every 8-byte buffer and for the empty buffer. *)
Theorem number_buffer_round_trip
  (en : endianness) (x : value) (b : buffer)
  (Hx : is_Number x = true)
  (Hlen : List.length b = 8%nat) :
  (exists b', numberToBuffer en x = inl b' /\ bufferToNumber en b' = inl x) /\
  (numberToBuffer en Null = inl EMPTY_BUFFER /\
   bufferToNumber en EMPTY_BUFFER = inl Null) /\
  (exists v, bufferToNumber en b = inl v /\ numberToBuffer en v = inl b) /\
  (exists v, bufferToNumber en EMPTY_BUFFER = inl v /\
             numberToBuffer en v = inl EMPTY_BUFFER).
Proof.
  split; [| split; [split; reflexivity | split]].
  - destruct x as [| | x | bits |]; try discriminate Hx; cbn in Hx.
    + exists (writeDouble en x). split; [reflexivity |].
      apply bufferToNumber_of_eight.
      * apply word_bytes_length.
      * now apply readDouble_writeDouble.
    + exists (word_bytes en 8 bits). split; [reflexivity |].
      apply andb_prop in Hx as [Hx Hn]. apply andb_prop in Hx as [Hlo Hhi].
      apply bufferToNumber_of_eight.
      * apply word_bytes_length.
      * apply readDouble_payload; [lia | exact Hn].
  - destruct (writeDouble_readDouble en b Hlen) as [(y & Hr & Hw) | (bits & Hr & Hw)].
    + exists (Num y). split; [now apply bufferToNumber_of_eight |].
      cbn. now rewrite Hw.
    + exists (Nan bits). split; [now apply bufferToNumber_of_eight |].
      cbn. now rewrite Hw.
  - exists Null. split; reflexivity.
Qed.

(** The round trip of 1000, of a NaN with all its bits set, and of their
    eight bytes. *)
Lemma number_buffer_round_trip_witness :
  (exists b',
     numberToBuffer LE (Nan 0xFFFFFFFFFFFFFFFF) = inl b' /\
     bufferToNumber LE b' = inl (Nan 0xFFFFFFFFFFFFFFFF)) /\
  exists v,
    bufferToNumber LE (word_bytes LE 8 0x408F400000000000) = inl v /\
    numberToBuffer LE v = inl (word_bytes LE 8 0x408F400000000000).
Proof.
  pose proof (number_buffer_round_trip LE (Nan 0xFFFFFFFFFFFFFFFF)
                (word_bytes LE 8 0x408F400000000000)
                eq_refl eq_refl) as (H1 & _ & H3 & _).
  split; [exact H1 | exact H3].
Defined.

End ToolboxRoundTrip.

(** ** Message identifiers *)

Section MessageIds.

Import MessageId.

Lemma sha1_length (msg : buffer) : List.length (Sha1.sha1 msg) = 20%nat.
Proof.
  unfold Sha1.sha1.
  destruct (fold_left Sha1.compress _ Sha1.H0) as [[[[h0 h1] h2] h3] h4].
  unfold Sha1.digest_bytes.
  rewrite !length_app, !word_bytes_length. reflexivity.
Qed.

Lemma digit_in_alphabet (n : Z) : In (Base64.digit n) Base64.alphabet.
Proof.
  unfold Base64.digit.
  destruct (nth_in_or_default (Z.to_nat n) Base64.alphabet "A"%char) as [H | ->].
  - exact H.
  - cbv. auto.
Qed.

Lemma alphabet_has_no_padding (c : ascii) :
  In c Base64.alphabet -> c <> Base64.padding.
Proof.
  intros H ->. revert H. cbv.
  intros H. repeat (destruct H as [H | H]; [discriminate H |]). exact H.
Qed.

Lemma string_of_list_ascii_length (cs : list ascii) :
  String.length (string_of_list_ascii cs) = List.length cs.
Proof.
  induction cs as [| a cs IH]; cbn; [reflexivity | now rewrite IH].
Qed.

Lemma substring_prefix (cs rest : list ascii) :
  substring 0 (List.length cs) (string_of_list_ascii (cs ++ rest)) =
  string_of_list_ascii cs.
Proof.
  induction cs as [| a cs IH]; cbn [app List.length string_of_list_ascii substring].
  - destruct (string_of_list_ascii rest); reflexivity.
  - now rewrite IH.
Qed.

Lemma slice_0_m1_snoc (cs : list ascii) (c : ascii) :
  slice_0_m1 (string_of_list_ascii (cs ++ [c])) = string_of_list_ascii cs.
Proof.
  unfold slice_0_m1.
  rewrite string_of_list_ascii_length, length_app. cbn [List.length].
  replace (List.length cs + 1 - 1)%nat with (List.length cs) by lia.
  apply substring_prefix.
Qed.

(** The base-64 text of 20 bytes: 27 digits and one padding character. *)
Lemma encode_20_bytes (l : buffer) :
  List.length l = 20%nat ->
  exists cs : list ascii,
    List.length cs = 27%nat /\
    Forall (fun c => In c Base64.alphabet) cs /\
    Base64.encode_chars l = cs ++ [Base64.padding].
Proof.
  intros Hl.
  do 20 (destruct l as [| ? l]; [discriminate Hl |]).
  destruct l; [| discriminate Hl].
  cbn [Base64.encode_chars].
  eexists (_ :: _ :: _ :: _ :: _ :: _ :: _ :: _ :: _ :: _ :: _ :: _ :: _ :: _ ::
           _ :: _ :: _ :: _ :: _ :: _ :: _ :: _ :: _ :: _ :: _ :: _ :: [_]).
  split; [reflexivity |]. split; [| reflexivity].
  repeat (apply Forall_cons; [apply digit_in_alphabet |]). apply Forall_nil.
Qed.

Lemma getMessageId_shape (en : endianness) (time : number) (text : string) :
  let hash := Sha1.sha1 (Float64Array_of en time ++ list_byte_of_string text) in
  exists cs : list ascii,
    List.length cs = 27%nat /\
    Forall (fun c => In c Base64.alphabet) cs /\
    Base64.encode hash = string_of_list_ascii (cs ++ [Base64.padding]) /\
    getMessageId en time text = string_of_list_ascii cs.
Proof.
  intros hash.
  destruct (encode_20_bytes hash (sha1_length _)) as (cs & Hlen & Hall & Henc).
  exists cs. repeat split; auto.
  - unfold Base64.encode. now rewrite Henc.
  - unfold getMessageId, Base64.encode. fold hash.
    rewrite Henc. apply slice_0_m1_snoc.
Qed.

(** C2 (amended): for every accepted request the message ID is the base-64
    text of the SHA-1 of the 8-byte binary64 representation of the due-time
    followed by the message bytes, without its one trailing padding
    character: 27 base-64 digits that depend on the due-time and the text
    only. The due-time that is hashed is the one already rounded to integer
    milliseconds. *)
Theorem message_id_of_request
  (en : endianness) (param : option number) (now : number) (body : string)
  (time : number)
  (Hreq : display_time param now = Some time) :
  let hash := Sha1.sha1 (Float64Array_of en time ++ list_byte_of_string body) in
  let id := getMessageId en time body in
  request_id en param now body = Some id /\
  (forall ts, param = Some ts -> time = Math_round (mul ts (of_Z 1000))) /\
  List.length (Float64Array_of en time) = 8%nat /\
  List.length hash = 20%nat /\
  Base64.encode hash = (id ++ "=")%string /\
  String.length id = 27%nat /\
  (forall c, In c (list_ascii_of_string id) ->
     In c Base64.alphabet /\ c <> Base64.padding).
Proof.
  intros hash id.
  destruct (getMessageId_shape en time body) as (cs & Hlen & Hall & Henc & Hid).
  fold hash in Henc. fold id in Hid.
  repeat split.
  - unfold request_id. now rewrite Hreq.
  - intros ts ->. unfold display_time in Hreq. destruct (isNaN ts); congruence.
  - apply word_bytes_length.
  - apply sha1_length.
  - rewrite Henc, Hid. clear. induction cs as [| a cs IH]; cbn; [reflexivity |].
    now rewrite IH.
  - rewrite Hid, string_of_list_ascii_length. exact Hlen.
  - rewrite Hid, list_ascii_of_string_of_list_ascii in H.
    rewrite Forall_forall in Hall. auto.
  - apply alphabet_has_no_padding.
    rewrite Hid, list_ascii_of_string_of_list_ascii in H.
    rewrite Forall_forall in Hall. auto.
Qed.

(** The request [ts=0.0009765625] with body ["A"]. *)
Lemma message_id_of_request_witness :
  request_id LE (Some (S754_finite false 1 (-10))) (of_Z 0) "A" =
  Some (getMessageId LE (of_Z 1) "A") /\
  String.length (getMessageId LE (of_Z 1) "A") = 27%nat.
Proof.
  pose proof (message_id_of_request LE (Some (S754_finite false 1 (-10)))
                (of_Z 0) "A" (of_Z 1) eq_refl) as (H1 & _ & _ & _ & _ & H6 & _).
  split; [exact H1 | exact H6].
Defined.

(** C2 as stated fails for the request [ts=0.0009765625] with body ["A"]:
    the due-time before rounding is 0.9765625 ms, and the ID is the one of
    the rounded due-time, 1 ms. *)
Lemma message_id_hashes_rounded_time :
  let ts := S754_finite false 1 (-10) in
  let unrounded := mul ts (of_Z 1000) in
  unrounded = S754_finite false 8796093022208000 (-53) /\
  display_time (Some ts) (of_Z 0) = Some (of_Z 1) /\
  request_id LE (Some ts) (of_Z 0) "A" = Some "0IEZnP12G+XMVn7klsQy84338Cc"%string /\
  getMessageId LE unrounded "A" = "tECTI4Luf4KeZRVPnQjgTQIeszg"%string /\
  request_id LE (Some ts) (of_Z 0) "A" <> Some (getMessageId LE unrounded "A").
Proof.
  cbv zeta. repeat split; try (vm_compute; reflexivity).
  vm_compute. discriminate.
Qed.

End MessageIds.

(** ** Timer.js: waits longer than the platform allows *)

Section TimerChunks.

Import Timer.

Lemma drain_idle (w : world) : ticks w = [] -> drain w = w.
Proof. destruct w; cbn; intros ->; reflexivity. Qed.

Lemma fire_idle (late : Z) (w : world) : timeouts w = [] -> fire late w = w.
Proof. unfold fire. intros ->. reflexivity. Qed.

Lemma run_idle (late : nat -> Z) (n : nat) (w : world) :
  timeouts w = [] -> run late n w = w.
Proof.
  revert late w. induction n as [| n IH]; intros late w Hw; cbn [run]; [reflexivity |].
  rewrite fire_idle by exact Hw. now apply IH.
Qed.

Lemma run_add (late : nat -> Z) (n m : nat) (w : world) :
  run late (n + m) w = run (fun k => late (n + k)%nat) m (run late n w).
Proof.
  revert late w. induction n as [| n IH]; intros late w; cbn [run Nat.add]; [reflexivity |].
  now rewrite IH.
Qed.

(** What a call of [schedule] leads to, whatever the distance to [t]. *)
Lemma schedule_fires_once (t L : Z) (fuel : nat) :
  forall (late : nat -> Z) (c : Z) (tt : option Z) (tm : option nat)
         (nh : nat) (sl fd : list Z),
    (Z.to_nat (t - c) <= fuel)%nat ->
    c <= t + L ->
    (forall k, 0 <= late k <= L) ->
    exists (n : nat) (T : Z) (new : list Z),
      let w := run late n (drain (schedule t (mkWorld c tt tm [] [] nh sl fd))) in
      fired w = T :: fd /\ t <= T <= t + L /\
      timeouts w = [] /\ ticks w = [] /\
      triggerTime w = None /\ timer w = None /\
      sleeps w = new ++ sl /\ List.length new = n /\ Forall chunk_ok new.
Proof.
  induction fuel as [| fuel IH]; intros late c tt tm nh sl fd Hfuel Hc Hlate.
  - (* no time left: the callback goes to the next tick *)
    exists 0%nat, c, [].
    assert (Hd : (t - c <? 1) = true) by (apply Z.ltb_lt; lia).
    unfold schedule. cbn [now]. rewrite Hd. cbn.
    repeat split; auto; lia.
  - unfold schedule. cbn [now].
    destruct (Z.ltb_spec (t - c) 1) as [Hd | Hd].
    + exists 0%nat, c, []. cbn. repeat split; auto; lia.
    + destruct (Z.ltb_spec MAX_TIMEOUT (t - c)) as [Hfar | Hnear].
      * (* one chunk, then [schedule] again *)
        pose proof (Hlate 0%nat) as Hl0.
        destruct (IH (fun k => late (S k)) (c + MAX_TIMEOUT + late 0%nat)
                    tt (Some nh) (S nh) (MAX_TIMEOUT :: sl) fd)
          as (n & T & new & Hf & HT & Hto & Hti & Htt & Htm & Hsl & Hlen & Hok).
        { unfold MAX_TIMEOUT in *. lia. }
        { unfold MAX_TIMEOUT in *. lia. }
        { intros k. apply Hlate. }
        exists (S n), T, (new ++ [MAX_TIMEOUT]).
        cbn [run]. cbn in Hf, Hto, Hti, Htt, Htm, Hsl |- *.
        repeat split; auto; try lia.
        -- rewrite Hsl, <- app_assoc. reflexivity.
        -- rewrite length_app. cbn. lia.
        -- apply Forall_app. split; [exact Hok |].
           constructor; [unfold chunk_ok, MAX_TIMEOUT; lia | constructor].
      * (* the last sleep *)
        pose proof (Hlate 0%nat) as Hl0.
        exists 1%nat, (t + late 0%nat), [t - c].
        assert (Hin : (1 <=? t - c) && (t - c <=? MAX_TIMEOUT) = true).
        { apply andb_true_intro. split; apply Z.leb_le; lia. }
        cbn. rewrite Hin. cbn.
        replace (c + (t - c) + late 0%nat) with (t + late 0%nat) by lia.
        repeat split; auto; try lia.
        constructor; [unfold chunk_ok; lia | constructor].
Qed.

(** On a timer that holds no timeout, [trigger(t)] with
    [t - now > MAX_TIMEOUT] sleeps in chunks of at most [MAX_TIMEOUT] ms and
    re-evaluates the remaining delay after each; after finitely many
    timeouts the callback has run exactly once more, no timeout is left,
    and nothing fires afterwards. The callback runs at [t] when the
    platform's timeouts are punctual, and never before [t] nor later than
    the lateness of a single timeout after it. *)
Lemma idle_timer_beyond_max_timeout
  (t L : Z) (late : nat -> Z) (w0 : world)
  (Hfar : MAX_TIMEOUT < t - now w0)
  (Hlate : forall k, 0 <= late k <= L)
  (Hidle : timer w0 = None /\ timeouts w0 = [] /\ ticks w0 = [])
  (Hnew : same_instant (triggerTime w0) t = false) :
  exists (n : nat) (T : Z) (new : list Z),
    let w := run late n (arm t w0) in
    fired w = T :: fired w0 /\ t <= T <= t + L /\ (L = 0 -> T = t) /\
    timeouts w = [] /\ ticks w = [] /\ triggerTime w = None /\
    sleeps w = new ++ sleeps w0 /\
    List.length new = n /\ Forall chunk_ok new /\
    (forall m, run late (n + m) (arm t w0) = w).
Proof.
  destruct w0 as [c tt tm tos tks nh sl fd]. cbn in Hfar, Hidle, Hnew.
  destruct Hidle as (-> & -> & ->).
  destruct (schedule_fires_once t L (Z.to_nat (t - c)) late c
              (Some t) None nh sl fd)
    as (n & T & new & Hf & HT & Hto & Hti & Htt & Htm & Hsl & Hlen & Hok).
  { lia. }
  { pose proof (Hlate 0%nat). unfold MAX_TIMEOUT in Hfar. lia. }
  { exact Hlate. }
  exists n, T, new.
  assert (Harm : arm t (mkWorld c tt None [] [] nh sl fd) =
                 drain (schedule t (mkWorld c (Some t) None [] [] nh sl fd))).
  { unfold arm, trigger. cbn [triggerTime]. rewrite Hnew. reflexivity. }
  rewrite Harm. cbv zeta. cbn [fired sleeps].
  repeat split; auto; try lia.
  intros m. rewrite run_add. apply run_idle. exact Hto.
Qed.

(** C7 (defect of [trigger]): on a timer that holds a timeout,
    [trigger(t)] with [t - now > MAX_TIMEOUT] does not sleep at all. The
    timer was asked for the instant 100 at 0 and holds the timeout of
    100 ms; asked then for [t = 2 * MAX_TIMEOUT + 5], it stores [t] and
    throws on [this.timer.clearTimeout()], a method the Timeout lacks,
    before [schedule] runs: no timeout is set for [t], the old one stays
    pending, and the callback fires once at 100 and never at [t]. *)
Theorem trigger_on_armed_timer_never_sleeps :
  let t := 2 * MAX_TIMEOUT + 5 in
  let w1 := arm 100 (fresh 0) in
  let w2 := drain (fst (trigger t w1)) in
  timer w1 = Some 0%nat /\ sleeps w1 = [100] /\
  MAX_TIMEOUT < t - now w1 /\
  snd (trigger t w1) = Throws "this.timer.clearTimeout is not a function" /\
  triggerTime w2 = Some t /\
  sleeps w2 = [100] /\
  timeouts w2 = [(0%nat, (100, Func))] /\
  forall n, fired (run (fun _ => 0) (S n) w2) = [100] /\
            sleeps (run (fun _ => 0) (S n) w2) = [100] /\
            timeouts (run (fun _ => 0) (S n) w2) = [].
Proof.
  cbv zeta.
  split; [reflexivity |]. split; [reflexivity |].
  split; [vm_compute; reflexivity |].
  split; [reflexivity |]. split; [reflexivity |].
  split; [reflexivity |]. split; [reflexivity |].
  intros n. cbn [run]. rewrite run_idle by reflexivity.
  repeat split.
Qed.

End TimerChunks.

(** ** queue.js: enqueue *)

Section Enqueue.

Import Toolbox MessageId Queue.

Variable en : endianness.

(** C3: the transaction [enqueue] sends holds the publication of the
    submitted time on [ndt] if and only if [upToDate] is false, or
    [nextDueTime] is none, or the time is strictly less than
    [nextDueTime]; it always holds the two writes. *)
Theorem enqueue_publishes_iff
  (time : number) (text : string) (callback : nat) (st : state) :
  let id := getMessageId en time text in
  let publish := PUBLISH NEXT_DUE_TIME_CHANNEL (writeDouble en time) in
  exists cmds : list command,
    enqueue en time text callback st =
      (st, [Db (Multi cmds) (K_enqueue id callback)]) /\
    (exists rest, cmds = SET (CONTENT_PREFIX ++ id) text :: ZADD QUEUE time id :: rest
                  /\ (rest = [] \/ rest = [publish])) /\
    (In publish cmds <->
       upToDate st = false \/
       (nextDueTime st = Undefined \/ nextDueTime st = Null) \/
       (exists due, nextDueTime st = Num due /\ lt time due = true)).
Proof.
  intros id publish. unfold enqueue. fold id.
  assert (Hp : publish_command en (Num time) = inl publish) by reflexivity.
  rewrite Hp.
  destruct (upToDate st) eqn:Hu; cbn [negb orb].
  - destruct (nextDueTime st) as [| | due | bits | s] eqn:Hn; cbn [eq_null orb ToNumber].
    + eexists. split; [reflexivity |]. split; [eexists; split; [reflexivity | auto] |].
      split; [auto | intros _; cbn; auto].
    + eexists. split; [reflexivity |]. split; [eexists; split; [reflexivity | auto] |].
      split; [auto | intros _; cbn; auto].
    + destruct (lt time due) eqn:Hlt.
      * eexists. split; [reflexivity |]. split; [eexists; split; [reflexivity | auto] |].
        split; [intros _; right; right; eauto | intros _; cbn; auto].
      * eexists. split; [reflexivity |]. split; [eexists; split; [reflexivity | auto] |].
        split.
        -- cbn. intros [H | [H | []]]; discriminate H.
        -- intros [H | [[H | H] | (d & [= <-] & H)]]; congruence.
    + assert (Hf : lt time NaN = false) by (unfold lt, SFltb, NaN; destruct time; reflexivity).
      rewrite Hf.
      eexists. split; [reflexivity |]. split; [eexists; split; [reflexivity | auto] |].
      split.
      * cbn. intros [H | [H | []]]; discriminate H.
      * intros [H | [[H | H] | (d & H & _)]]; discriminate H.
    + assert (Hf : lt time NaN = false) by (unfold lt, SFltb, NaN; destruct time; reflexivity).
      rewrite Hf.
      eexists. split; [reflexivity |]. split; [eexists; split; [reflexivity | auto] |].
      split.
      * cbn. intros [H | [H | []]]; discriminate H.
      * intros [H | [[H | H] | (d & H & _)]]; discriminate H.
  - eexists. split; [reflexivity |]. split; [eexists; split; [reflexivity | auto] |].
    split; [auto | intros _; cbn; auto].
Qed.

Lemma firstRedisError_from_spec (arr : list item) (n : nat) :
  match firstRedisError_from n arr with
  | Some e =>
      exists j, (j < n)%nat /\ nth_error arr j = Some (Err e) /\
                forall k e', (j < k < n)%nat -> nth_error arr k <> Some (Err e')
  | None => forall k e', (k < n)%nat -> nth_error arr k <> Some (Err e')
  end.
Proof.
  induction n as [| n IH]; cbn [firstRedisError_from].
  - intros k e' Hk. lia.
  - destruct (nth_error arr n) as [[| s | z | e] |] eqn:Hn;
      try (destruct (firstRedisError_from n arr) as [e0 |];
           [ destruct IH as (j & Hj & Hnth & Hlast);
             exists j; split; [lia |]; split; [exact Hnth |];
             intros k e' Hk; destruct (Nat.eq_dec k n) as [-> | Hne];
             [rewrite Hn; discriminate | apply Hlast; lia]
           | intros k e' Hk; destruct (Nat.eq_dec k n) as [-> | Hne];
             [rewrite Hn; discriminate | apply IH; lia] ]).
    exists n. split; [lia |]. split; [exact Hn |]. intros k e' Hk. lia.
Qed.

(** [firstRedisError] finds an error exactly when the array holds one, and
    then it is the last one. *)
Lemma firstRedisError_Some (arr : list item) :
  (exists e, In (Err e) arr) ->
  exists error j,
    firstRedisError arr = Some error /\ nth_error arr j = Some (Err error) /\
    forall k e', (j < k)%nat -> nth_error arr k <> Some (Err e').
Proof.
  intros (e & He). apply In_nth_error in He as (j0 & Hj0).
  pose proof (firstRedisError_from_spec arr (List.length arr)) as H.
  unfold firstRedisError.
  destruct (firstRedisError_from (List.length arr) arr) as [error |].
  - destruct H as (j & Hj & Hnth & Hlast). exists error, j.
    split; [reflexivity |]. split; [exact Hnth |].
    intros k e' Hk. destruct (Nat.lt_ge_cases k (List.length arr)) as [Hlt | Hge].
    + apply Hlast. lia.
    + apply nth_error_None in Hge. rewrite Hge. discriminate.
  - exfalso. apply (H j0 e); [| exact Hj0].
    apply nth_error_Some. rewrite Hj0. discriminate.
Qed.

Lemma firstRedisError_None (arr : list item) :
  (forall e, ~ In (Err e) arr) -> firstRedisError arr = None.
Proof.
  intros Hno.
  pose proof (firstRedisError_from_spec arr (List.length arr)) as H.
  unfold firstRedisError.
  destruct (firstRedisError_from (List.length arr) arr) as [error |]; [| reflexivity].
  destruct H as (j & _ & Hnth & _). apply nth_error_In in Hnth.
  exfalso. exact (Hno _ Hnth).
Qed.

(** C9: when the transaction of [enqueue] ran and one of its operations
    reports an error, the rollback (remove the queue member, delete the
    content key) is sent, and once it is answered, whatever the answer, the
    caller receives that operation's error; when no operation reports an
    error and the [zadd] added nothing, the duplicate is logged and the
    caller receives no error. *)
Theorem enqueue_transaction_outcome
  (id : string) (callback : nat) (responses : list item)
  (now : number) (st : state) :
  ((exists e, In (Err e) responses) ->
   exists error,
     In (Err error) responses /\
     resume en (K_enqueue id callback) (Results responses) now st =
       (st, [Db (Batch [ZREM QUEUE id; DEL [CONTENT_PREFIX ++ id]%string])
               (K_rollback error callback)]) /\
     forall (r : reply) (now' : number) (st' : state),
     exists logs,
       forallb is_log logs = true /\
       resume en (K_rollback error callback) r now' st' =
         (st', logs ++ [EnqueueCallback callback (Some error)])) /\
  ((forall e, ~ In (Err e) responses) ->
   nth_error responses 1 = Some (Int 0) ->
   resume en (K_enqueue id callback) (Results responses) now st =
     (st, [Log "Message was already present in the database.";
           EnqueueCallback callback None])).
Proof.
  split.
  - intros Herr.
    destruct (firstRedisError_Some responses Herr) as (error & j & Hf & Hnth & _).
    exists error. split; [eapply nth_error_In; exact Hnth |].
    split.
    + cbn [resume]. rewrite Hf. reflexivity.
    + intros r now' st'. destruct r as [e | o | l | l].
      * exists [Log "Could not rollback the write operations."]. split; reflexivity.
      * exists []. split; reflexivity.
      * exists []. split; reflexivity.
      * exists []. split; reflexivity.
  - intros Hno Hz. cbn [resume].
    rewrite (firstRedisError_None responses Hno), Hz. reflexivity.
Qed.

End Enqueue.

Import Toolbox MessageId Queue.

(** A failed [zadd], and a [zadd] that added nothing. *)
Lemma enqueue_transaction_outcome_witness :
  (exists error,
     In (Err error) [Bulk "OK"%string; Err "WRONGTYPE"%string] /\
     resume LE (K_enqueue "id"%string 0) (Results [Bulk "OK"%string; Err "WRONGTYPE"%string])
       (of_Z 0) initial =
       (initial, [Db (Batch [ZREM QUEUE "id"%string; DEL [CONTENT_PREFIX ++ "id"]%string])
                    (K_rollback error 0)])) /\
  resume LE (K_enqueue "id"%string 0) (Results [Bulk "OK"%string; Int 0]) (of_Z 0) initial =
    (initial, [Log "Message was already present in the database.";
               EnqueueCallback 0 None]).
Proof.
  destruct (enqueue_transaction_outcome LE "id"%string 0 [Bulk "OK"%string; Err "WRONGTYPE"%string]
              (of_Z 0) initial) as [H1 _].
  destruct (enqueue_transaction_outcome LE "id"%string 0 [Bulk "OK"%string; Int 0]
              (of_Z 0) initial) as [_ H2].
  split.
  - destruct H1 as (error & Hin & Hres & _).
    + exists "WRONGTYPE"%string%string. cbn. auto.
    + exists error. split; [exact Hin | exact Hres].
  - apply H2; [| reflexivity].
    intros e [H | [H | []]]; discriminate H.
Defined.

(** ** queue.js: dispatching one message *)

(** Case analysis on small disjunctions of constructor equations. *)
Ltac settle_cases :=
  intros;
  repeat match goal with
         | H : exists _, _ |- _ => destruct H
         | H : _ /\ _ |- _ => destruct H
         | H : _ \/ _ |- _ => destruct H
         | H : False |- _ => destruct H
         end;
  try discriminate; try congruence; eauto.

Section Dispatch.

Variable en : endianness.

(** [tryDequeuing] on a time that [doTask] can print: the message is
    emitted if and only if the reservation is obtained and the content key
    is present. When the reservation fails or errors, or the content is
    missing or errors, it only logs and calls back with leftover true.
    When it emits, the emission comes first, the cleanup is sent next, and
    the callback runs right after, with leftover unset, while the cleanup
    is still to be answered. *)
Lemma tryDequeuing_valid_date
  (id : string) (time : number) (env : batch_env) (r1 r2 : reply)
  (now1 now2 : number) (st1 st2 : state)
  (Hget : get_reply r2 = true)
  (Hdate : valid_date time = true) :
  tryDequeuing id time env st1 =
    (st1, [Db (Single (SET_PX_NX (LOCK_PREFIX ++ id) EMPTY_BUFFER PROCESSING_WINDOW))
             (K_reserve id time env)]) /\
  (claim_obtained r1 = true ->
   resume en (K_reserve id time env) r1 now1 st1 =
     (st1, [Db (Single (GET (CONTENT_PREFIX ++ id))) (K_contents id time env)])) /\
  exists (own : list effect) (leftover : bool),
    (if claim_obtained r1
     then resume en (K_contents id time env) r2 now2 st2 =
            after own (c env leftover now2 st2)
     else resume en (K_reserve id time env) r1 now1 st1 =
            after own (c env leftover now1 st1)) /\
    ((exists text, In (Emit time text) own) <->
       claim_obtained r1 = true /\ content_present r2 <> None) /\
    (leftover = false <->
       claim_obtained r1 = true /\ content_present r2 <> None) /\
    (leftover = true -> forallb is_log own = true) /\
    (leftover = false ->
       exists text, content_present r2 = Some text /\
                    own = [Emit time text; Db (cleanup id) K_cleanup]).
Proof.
  split; [reflexivity |]. split.
  - destruct r1 as [e | [s |] | l | l]; cbn; intros H; try discriminate H; reflexivity.
  - destruct (claim_obtained r1) eqn:Hc.
    + destruct r2 as [e | [text |] | l | l]; try discriminate Hget.
      * exists [Log "Could not get the contents of a message."], true.
        split; [reflexivity |]. cbn. repeat split; settle_cases.
      * exists [Emit time text; Db (cleanup id) K_cleanup], false.
        split; [cbn [resume]; rewrite Hdate; reflexivity |].
        cbn. repeat split; settle_cases.
      * exists [Log "Message is missing, most probably it has just been processed."], true.
        split; [reflexivity |]. cbn. repeat split; settle_cases.
    + destruct r1 as [e | [s |] | l | l]; try discriminate Hc.
      * exists [Log "Could not reserve a message."], true.
        split; [reflexivity |]. cbn. repeat split; settle_cases.
      * exists [], true.
        split; [cbn; destruct (c env true now1 st1); reflexivity |].
        cbn. repeat split; settle_cases.
Qed.

(** C1 (defect of [doTask]): a message submitted for the instant -1e16 ms
    comes back from the range query with the score
    ["-10000000000000000"]. Its reservation is obtained and its content is
    present, yet [tryDequeuing] emits nothing: [doTask] throws the
    RangeError of [toISOString] on a date out of range, so no cleanup is
    sent and the callback [c] is never called, at whatever instant and in
    whatever state of the module. The score ["-inf"] of a message
    submitted for -Infinity is no date either. *)
Theorem tryDequeuing_throws_on_invalid_date :
  let score := "-10000000000000000"%string in
  let time := parseInt (Some score) in
  let env := mkBatch (of_Z 5000) false ["id"%string; score] 0 false in
  time = of_Z (-10000000000000000) /\
  valid_date time = false /\
  valid_date (parseInt (Some "-inf"%string)) = false /\
  (forall st,
     dequeue_at env st =
       (st, [Db (Single (SET_PX_NX "lk:id" EMPTY_BUFFER PROCESSING_WINDOW))
               (K_reserve "id" time env)])) /\
  claim_obtained (Value (Some "OK"%string)) = true /\
  content_present (Value (Some "hello"%string)) = Some "hello"%string /\
  (forall now st,
     resume en (K_reserve "id" time env) (Value (Some "OK"%string)) now st =
       (st, [Db (Single (GET "msg:id")) (K_contents "id" time env)])) /\
  (forall now st,
     resume en (K_contents "id" time env) (Value (Some "hello"%string)) now st =
       (st, [Throw "RangeError: Invalid time value"])).
Proof.
  cbv zeta. split; [vm_compute; reflexivity |]. split; [vm_compute; reflexivity |].
  split; [vm_compute; reflexivity |].
  split; [intros st; reflexivity |]. split; [reflexivity |]. split; [reflexivity |].
  split; intros now st; reflexivity.
Qed.

End Dispatch.

(** ** queue.js: a batch of a pass *)

Section Batches.

Import Toolbox MessageId Queue.

Variable en : endianness.

Lemma cb_without_resume (due : number) (again : bool) (now : number) (st : state) :
  resumeInspection st = false ->
  cb due again now st =
    (set_inspectingQueue false st,
     [if again
      then SetTimeout (ActuallyInspectQueue due) PROCESSING_RETRY_DELAY
      else Db (Single (WATCH QUEUE)) K_watch]).
Proof.
  intros H. unfold cb. cbn [resumeInspection set_inspectingQueue]. rewrite H.
  destruct again; reflexivity.
Qed.

Lemma dequeue_at_shape (env : batch_env) (st : state) :
  exists id time,
    dequeue_at env st =
      (st, [Db (Single (SET_PX_NX (LOCK_PREFIX ++ id) EMPTY_BUFFER PROCESSING_WINDOW))
              (K_reserve id time env)]).
Proof.
  unfold dequeue_at, tryDequeuing.
  destruct (nth_error (response env) (i env)); eauto.
Qed.

(** What [c] does when no resumption was asked for. *)
Lemma c_without_resume (env : batch_env) (leftover : bool) (now : number) (st : state) :
  resumeInspection st = false ->
  c env leftover now st =
    if (i env + 2 <? List.length (response env))%nat then
      dequeue_at (mkBatch (dueTime env) (reverse env) (response env) (i env + 2)
                    (leftovers env || leftover)) st
    else if (List.length (response env) <? PROCESSING_BATCH_SIZE * 2)%nat then
      (set_inspectingQueue false st,
       [if leftovers env || leftover
        then SetTimeout (ActuallyInspectQueue (dueTime env)) PROCESSING_RETRY_DELAY
        else Db (Single (WATCH QUEUE)) K_watch])
    else getBatch (dueTime env) (negb (reverse env)) st.
Proof.
  intros H. unfold c. rewrite H.
  destruct (i env + 2 <? List.length (response env))%nat; [reflexivity |].
  destruct (List.length (response env) <? PROCESSING_BATCH_SIZE * 2)%nat; [| reflexivity].
  now apply cb_without_resume.
Qed.

Lemma batch_end_beyond (env : batch_env) (lo : bool) (st : state) :
  beyond_entries (snd (batch_end env lo st)) = snd (batch_end env lo st) /\
  ticks (snd (batch_end env lo st)) = [].
Proof.
  unfold batch_end.
  destruct (List.length (response env) <? PROCESSING_BATCH_SIZE * 2)%nat;
    [destruct lo |]; split; reflexivity.
Qed.

Lemma c_single (env : batch_env) (lo : bool) (now : number) (st : state) :
  resumeInspection st = false ->
  exists st' e,
    c env lo now st = (st', [e]) /\ ticks [e] = [] /\
    (forall now', c env lo now' st = (st', [e])).
Proof.
  intros H.
  assert (Hc : forall n, c env lo n st = c env lo now st).
  { intros n. now rewrite !c_without_resume. }
  assert (Hone : exists st' e, c env lo now st = (st', [e]) /\ ticks [e] = []).
  { rewrite c_without_resume by exact H.
    destruct (i env + 2 <? List.length (response env))%nat.
    - destruct (dequeue_at_shape
                  (mkBatch (dueTime env) (reverse env) (response env) (i env + 2)
                     (leftovers env || lo)) st) as (id & time & Hd).
      rewrite Hd. eexists _, _. split; reflexivity.
    - destruct (List.length (response env) <? PROCESSING_BATCH_SIZE * 2)%nat.
      + eexists _, _. split; [reflexivity |].
        destruct (leftovers env || lo); reflexivity.
      + unfold getBatch. eexists _, _. split; reflexivity. }
  destruct Hone as (st' & e & Hone & Ht).
  exists st', e. split; [exact Hone |]. split; [exact Ht |].
  intros n. now rewrite Hc.
Qed.

Lemma run_app (w : world) (evs1 evs2 : list (number * event)) :
  run en w (evs1 ++ evs2) = run en (run en w evs1) evs2.
Proof. apply fold_left_app. Qed.

Lemma run_cons (w : world) (ev : number * event) (evs : list (number * event)) :
  run en w (ev :: evs) = run en (step en w ev) evs.
Proof. reflexivity. Qed.

Lemma events_cons (evs : list (number * event)) (r : reply) (rs : list reply) :
  map snd evs = map E_reply (r :: rs) ->
  exists now evs', evs = (now, E_reply r) :: evs' /\ map snd evs' = map E_reply rs.
Proof.
  destruct evs as [| [now ev] evs']; [discriminate |].
  cbn. intros [= -> H]. eauto.
Qed.

Ltac same_world :=
  cbn [app konts sleepers flat_map];
  rewrite ?app_nil_r, <- ?app_assoc; reflexivity.

Lemma step_reply (k : kont) (rest : list kont) (r : reply) (now : number)
  (st st' : state) (tos : list task) (tr es : list effect) :
  resume en k r now st = (st', es) -> ticks es = [] ->
  step en (mkWorld st (k :: rest) tos tr) (now, E_reply r) =
    mkWorld st' (rest ++ konts es) (tos ++ sleepers es) (tr ++ es).
Proof.
  intros Hr Ht. unfold step, settle, absorb.
  cbn [fst snd waiting vars timeouts trace]. rewrite Hr. cbn [fst snd].
  rewrite Ht. reflexivity.
Qed.

Lemma logs_are_quiet (logs : list effect) :
  forallb is_log logs = true ->
  konts logs = [] /\ sleepers logs = [] /\ ticks logs = [] /\
  beyond_entries logs = [].
Proof.
  induction logs as [| l logs IH]; [auto |].
  cbn [forallb]. intros H. apply andb_prop in H as [Hl Hlogs].
  destruct l; try discriminate Hl. cbn. apply IH, Hlogs.
Qed.

Lemma cleanup_only_logs (r : reply) :
  exec_reply r = true ->
  exists logs,
    forallb is_log logs = true /\
    forall now st, resume en K_cleanup r now st = (st, logs).
Proof.
  destruct r as [e | o | l | l]; try discriminate; intros _.
  - exists [Log "Could not clean up the message from the database."].
    split; reflexivity.
  - cbn [resume]. destruct (firstRedisError l).
    + exists [Log "Could not clean up the message from the database."].
      split; reflexivity.
    + exists []. split; reflexivity.
Qed.

(** The replies to one entry bring the pass to the callback [c], which
    runs with leftover set unless the message was printed. *)
Lemma entry_done (a : answers) (env : batch_env) (st : state)
  (tos : list task) (tr : list effect) (id : string) (time : number)
  (evs : list (number * event)) :
  resumeInspection st = false ->
  well_formed a = true ->
  valid_date time = true ->
  map snd evs = map E_reply (replies_of a) ->
  exists st' e more,
    c env (negb (dispatched a)) (of_Z 0) st = (st', [e]) /\
    run en (mkWorld st [K_reserve id time env] tos tr) evs =
      mkWorld st' (konts [e]) (tos ++ sleepers [e]) (tr ++ more) /\
    beyond_entries more = beyond_entries [e].
Proof.
  intros Hres Hwf Hdate Hevs.
  destruct a as [r1 r2 r3]. unfold well_formed in Hwf. cbn in Hwf.
  apply andb_prop in Hwf as [Hget Hexec].
  unfold replies_of, dispatched in *. cbn [to_reserve to_get to_cleanup] in *.
  apply events_cons in Hevs as (now1 & evs1 & -> & Hevs).
  cbn [run fold_left].
  destruct (claim_obtained r1) eqn:Hclaim.
  - apply events_cons in Hevs as (now2 & evs2 & -> & Hevs).
    cbn [fold_left].
    rewrite (step_reply _ _ r1 now1 st st tos tr
               [Db (Single (GET (CONTENT_PREFIX ++ id))) (K_contents id time env)]);
      [| destruct r1 as [e1 | [s1 |] | l1 | l1]; try discriminate Hclaim; reflexivity
       | reflexivity].
    cbn [app konts sleepers flat_map].
    destruct r2 as [e2 | [text |] | l2 | l2]; try discriminate Hget;
      cbn [content_present andb negb] in *.
    + (* the read failed *)
      destruct evs2; [| discriminate Hevs]. cbn [fold_left].
      destruct (c_single env true now2 st Hres) as (st' & e & Hc & Ht & Hall).
      exists st', e,
        [Db (Single (GET (CONTENT_PREFIX ++ id))) (K_contents id time env); Log "Could not get the contents of a message."; e].
      split; [apply Hall |].
      rewrite (step_reply _ _ _ now2 st st' _ _
                 (Log "Could not get the contents of a message." :: [e]));
        [| cbn [resume]; rewrite Hc; reflexivity | exact Ht].
      split; [same_world | reflexivity].
    + (* the message is printed, and the cleanup is answered afterwards *)
      apply events_cons in Hevs as (now3 & evs3 & -> & Hevs).
      destruct evs3; [| discriminate Hevs]. cbn [fold_left].
      destruct (c_single env false now2 st Hres) as (st' & e & Hc & Ht & Hall).
      destruct (cleanup_only_logs r3 Hexec) as (logs & Hlogs & Hclean).
      destruct (logs_are_quiet logs Hlogs) as (Hk1 & Hk2 & Hk3 & Hk4).
      exists st', e,
        ([Db (Single (GET (CONTENT_PREFIX ++ id))) (K_contents id time env); Emit time text; Db (cleanup id) K_cleanup; e] ++ logs).
      split; [apply Hall |].
      rewrite (step_reply _ _ _ now2 st st' _ _
                 (Emit time text :: Db (cleanup id) K_cleanup :: [e]));
        [| cbn [resume]; rewrite Hdate, Hc; reflexivity | exact Ht].
      cbn [app konts sleepers flat_map].
      rewrite (step_reply _ _ r3 now3 st' st' _ _ logs (Hclean _ _) Hk3).
      rewrite Hk1, Hk2.
      split; [same_world |].
      unfold beyond_entries in *.
      cbn [filter of_entry negb]. rewrite Hk4. reflexivity.
    + (* the message is missing *)
      destruct evs2; [| discriminate Hevs]. cbn [fold_left].
      destruct (c_single env true now2 st Hres) as (st' & e & Hc & Ht & Hall).
      exists st', e,
        [Db (Single (GET (CONTENT_PREFIX ++ id))) (K_contents id time env);
         Log "Message is missing, most probably it has just been processed."; e].
      split; [apply Hall |].
      rewrite (step_reply _ _ _ now2 st st' _ _
                 (Log "Message is missing, most probably it has just been processed."
                  :: [e]));
        [| cbn [resume]; rewrite Hc; reflexivity | exact Ht].
      split; [same_world | reflexivity].
  - (* the reservation was not obtained *)
    destruct evs1; [| discriminate Hevs]. cbn [andb negb fold_left].
    destruct (c_single env true now1 st Hres) as (st' & e & Hc & Ht & Hall).
    exists st', e.
    destruct r1 as [e1 | [s1 |] | l1 | l1]; try discriminate Hclaim.
    + exists [Log "Could not reserve a message."; e]. split; [apply Hall |].
      rewrite (step_reply _ _ _ now1 st st' _ _
                 (Log "Could not reserve a message." :: [e]));
        [| cbn [resume]; rewrite Hc; reflexivity | exact Ht].
      split; [same_world | reflexivity].
    + exists [e]. split; [apply Hall |].
      rewrite (step_reply _ _ _ now1 st st' _ _ [e]);
        [| cbn [resume]; rewrite Hc; reflexivity | exact Ht].
      split; [same_world | reflexivity].
Qed.

Lemma printable_next (rs : list string) (n : nat) :
  printable (skipn n rs) = true -> (n + 2 <= List.length rs)%nat ->
  exists id,
    nth_error rs n = Some id /\
    valid_date (parseInt (nth_error rs (n + 1))) = true /\
    printable (skipn (n + 2) rs) = true.
Proof.
  intros Hp Hn.
  pose proof (length_skipn n rs) as Hl.
  assert (H1 : nth_error rs n = nth_error (skipn n rs) 0)
    by (rewrite nth_error_skipn; f_equal; lia).
  assert (H2 : nth_error rs (n + 1) = nth_error (skipn n rs) 1)
    by (rewrite nth_error_skipn; f_equal; lia).
  assert (H3 : skipn (n + 2) rs = skipn 2 (skipn n rs))
    by (rewrite skipn_skipn; f_equal; lia).
  rewrite H1, H2, H3.
  destruct (skipn n rs) as [| id [| score rest]]; cbn [List.length] in Hl; try lia.
  cbn [printable] in Hp. apply andb_prop in Hp as [Hd Hp].
  exists id. cbn [nth_error skipn]. auto.
Qed.

Lemma batch_entries (ans : list answers) :
  forall (env : batch_env) (st : state) (tos : list task) (tr : list effect)
         (id : string) (time : number) (evs : list (number * event)),
    resumeInspection st = false ->
    forallb well_formed ans = true ->
    valid_date time = true ->
    printable (skipn (i env + 2) (response env)) = true ->
    ans <> [] ->
    (i env + 2 * List.length ans = List.length (response env))%nat ->
    map snd evs = map E_reply (flat_map replies_of ans) ->
    exists more,
      let lo := leftovers env || existsb (fun a => negb (dispatched a)) ans in
      let final := batch_end env lo st in
      run en (mkWorld st [K_reserve id time env] tos tr) evs =
        mkWorld (fst final) (konts (snd final)) (tos ++ sleepers (snd final))
          (tr ++ more) /\
      beyond_entries more = snd final.
Proof.
  induction ans as [| a ans IH];
    intros env st tos tr id time evs Hres Hwf Hdate Hprint Hne Hi Hevs;
    [contradiction |].
  cbn [forallb] in Hwf. apply andb_prop in Hwf as [Hwa Hwf].
  cbn [flat_map] in Hevs. rewrite map_app in Hevs.
  apply map_eq_app in Hevs as (evs1 & evs2 & -> & Hevs1 & Hevs2).
  rewrite run_app.
  destruct (entry_done a env st tos tr id time evs1 Hres Hwa Hdate Hevs1)
    as (st' & e & more1 & Hc & Hrun & Hbeyond).
  rewrite Hrun. clear Hrun.
  rewrite c_without_resume in Hc by exact Hres.
  cbn [List.length] in Hi.
  destruct ans as [| a' ans'].
  - (* the last entry of the batch *)
    destruct evs2; [| discriminate Hevs2]. cbn [run fold_left List.length] in *.
    assert (Hlast : (i env + 2 <? List.length (response env))%nat = false)
      by (apply Nat.ltb_ge; lia).
    rewrite Hlast in Hc. cbn [existsb]. rewrite orb_false_r.
    exists more1. cbv zeta.
    fold (batch_end env (leftovers env || negb (dispatched a)) st) in Hc.
    rewrite Hc. cbn [fst snd]. split; [reflexivity |].
    rewrite Hbeyond. pose proof (batch_end_beyond env (leftovers env || negb (dispatched a)) st) as [Hb _].
    rewrite Hc in Hb. exact Hb.
  - (* on to the next entry *)
    assert (Hnext : (i env + 2 <? List.length (response env))%nat = true)
      by (apply Nat.ltb_lt; cbn [List.length] in Hi; lia).
    rewrite Hnext in Hc.
    set (env' := mkBatch (dueTime env) (reverse env) (response env) (i env + 2)
                   (leftovers env || negb (dispatched a))) in *.
    destruct (printable_next (response env) (i env + 2) Hprint
                ltac:(cbn [List.length] in Hi; lia)) as (id' & Hid & Hdate' & Hprint').
    assert (Hd : dequeue_at env' st =
                 tryDequeuing id' (parseInt (nth_error (response env) (i env + 2 + 1)))
                   env' st).
    { unfold dequeue_at. cbn [response i env']. now rewrite Hid. }
    unfold tryDequeuing in Hd.
    rewrite Hd in Hc. injection Hc as <- <-.
    cbn [konts sleepers flat_map app].
    rewrite app_nil_r.
    destruct (IH env' st tos (tr ++ more1) id' _ evs2 Hres Hwf Hdate' Hprint'
                ltac:(discriminate)
                ltac:(cbn [i response env' List.length] in *; lia) Hevs2)
      as (more2 & Hrun & Hb2).
    cbv zeta in Hrun, Hb2.
    assert (Hend : forall lo, batch_end env' lo st = batch_end env lo st) by reflexivity.
    assert (Hlo : leftovers env' || existsb (fun a => negb (dispatched a)) (a' :: ans') =
                  leftovers env || existsb (fun a => negb (dispatched a)) (a :: a' :: ans')).
    { unfold env'. cbn [leftovers existsb]. now rewrite <- orb_assoc. }
    rewrite Hend, Hlo in Hrun, Hb2.
    exists (more1 ++ more2). cbv zeta.
    rewrite Hrun. split; [now rewrite <- app_assoc |].
    unfold beyond_entries in *. rewrite filter_app, Hbeyond, Hb2. reflexivity.
Qed.

(** A whole batch: the reply to the range query, then the replies to its
    entries. *)
Lemma batch_run (rs : list string) (ans : list answers) (due : number) (rev : bool)
  (st : state) (tos : list task) (tr : list effect) (evs : list (number * event)) :
  resumeInspection st = false ->
  forallb well_formed ans = true ->
  printable rs = true ->
  List.length rs = (2 * List.length ans)%nat ->
  map snd evs = map E_reply (Strings rs :: flat_map replies_of ans) ->
  exists more,
    let lo := existsb (fun a => negb (dispatched a)) ans in
    let final := batch_end (mkBatch due rev rs 0 false) lo st in
    run en (mkWorld st [K_getBatch due rev] tos tr) evs =
      mkWorld (fst final) (konts (snd final)) (tos ++ sleepers (snd final))
        (tr ++ more) /\
    beyond_entries more = snd final.
Proof.
  intros Hres Hwf Hprint Hlen Hevs.
  apply events_cons in Hevs as (now0 & evs' & -> & Hevs).
  rewrite run_cons.
  destruct ans as [| a ans].
  - (* no messages at all *)
    destruct rs; [| discriminate Hlen].
    destruct evs'; [| discriminate Hevs].
    cbn [flat_map existsb run fold_left].
    exists [Db (Single (WATCH QUEUE)) K_watch]. cbv zeta.
    rewrite (step_reply _ _ _ now0 st (set_inspectingQueue false st) _ _
               [Db (Single (WATCH QUEUE)) K_watch]);
      [| cbn [resume]; rewrite Hres; now rewrite cb_without_resume | reflexivity].
    split; reflexivity.
  - set (env := mkBatch due rev rs 0 false).
    destruct (printable_next rs 0 Hprint ltac:(cbn [List.length] in Hlen; lia))
      as (id & Hid & Hdate & Hprint').
    set (time := parseInt (nth_error rs (0 + 1))) in *.
    assert (Hd : dequeue_at env st =
                 (st, [Db (Single (SET_PX_NX (LOCK_PREFIX ++ id) EMPTY_BUFFER
                                     PROCESSING_WINDOW))
                         (K_reserve id time env)])).
    { unfold dequeue_at. cbn [response i env]. now rewrite Hid. }
    rewrite (step_reply _ _ _ now0 st st _ _
               [Db (Single (SET_PX_NX (LOCK_PREFIX ++ id) EMPTY_BUFFER PROCESSING_WINDOW))
                  (K_reserve id time env)]);
      [| cbn [resume]; rewrite Hres;
         destruct rs; [discriminate Hlen | exact Hd]
       | reflexivity].
    cbn [konts sleepers flat_map app]. rewrite app_nil_r.
    destruct (batch_entries (a :: ans) env st tos
                (tr ++ [Db (Single (SET_PX_NX (LOCK_PREFIX ++ id) EMPTY_BUFFER
                                      PROCESSING_WINDOW))
                          (K_reserve id time env)])
                id time evs' Hres Hwf Hdate Hprint' ltac:(discriminate)
                ltac:(cbn [i response env]; lia) Hevs)
      as (more & Hrun & Hb).
    cbv zeta in Hrun, Hb. cbn [leftovers env orb] in Hrun, Hb.
    eexists (_ :: more). cbv zeta. fold env.
    rewrite Hrun. split; [now rewrite <- app_assoc |].
    cbn. exact Hb.
Qed.

(** The watched republish: once the queue is watched its minimum is read,
    and published in a transaction, as eight bytes or as none when the
    queue is empty. *)
Lemma watched_republish (now : number) (st : state) (rs : list string) :
  resume en K_watch (Value (Some "OK"%string)) now st =
    (st, [Db (Single (ZRANGE_WITHSCORES QUEUE 0 0)) K_minimum]) /\
  resume en K_minimum (Strings rs) now st =
    (st, [Db (Multi [PUBLISH NEXT_DUE_TIME_CHANNEL
                       match rs with
                       | [] => EMPTY_BUFFER
                       | _ :: _ => writeDouble en (parseInt (nth_error rs 1))
                       end])
             K_publish]).
Proof. split; [reflexivity |]. destruct rs; reflexivity. Qed.

(** In a pass that no timer firing interrupts and whose scores are dates
    [doTask] can print, a batch of exactly 30 entries makes the pass flip
    [reverse] and fetch another batch, once all of its entries are
    handled; a batch of fewer entries ends the pass: a new pass is
    scheduled if some entry was left over, and otherwise the watched
    republish starts and the pass is over. *)
Lemma batch_size_decides_valid_dates
  (rs : list string) (ans : list answers) (due : number) (rev : bool)
  (st : state) (evs : list (number * event))
  (Hres : resumeInspection st = false)
  (Hwf : forallb well_formed ans = true)
  (Hprint : printable rs = true)
  (Hlen : List.length rs = (2 * List.length ans)%nat)
  (Hevs : map snd evs = map E_reply (Strings rs :: flat_map replies_of ans)) :
  let w := run en (mkWorld st [K_getBatch due rev] [] []) evs in
  let leftover := existsb (fun a => negb (dispatched a)) ans in
  (List.length ans = PROCESSING_BATCH_SIZE ->
   vars w = st /\
   waiting w = [K_getBatch due (negb rev)] /\
   timeouts w = [] /\
   beyond_entries (trace w) =
     [Db (Single (if negb rev
                  then ZREVRANGEBYSCORE QUEUE (Score due) MinusInf 0 PROCESSING_BATCH_SIZE
                  else ZRANGEBYSCORE QUEUE MinusInf (Score due) 0 PROCESSING_BATCH_SIZE))
         (K_getBatch due (negb rev))]) /\
  ((List.length ans < PROCESSING_BATCH_SIZE)%nat ->
   vars w = set_inspectingQueue false st /\
   if leftover
   then waiting w = [] /\
        timeouts w = [ActuallyInspectQueue due] /\
        beyond_entries (trace w) =
          [SetTimeout (ActuallyInspectQueue due) PROCESSING_RETRY_DELAY]
   else waiting w = [K_watch] /\
        timeouts w = [] /\
        beyond_entries (trace w) = [Db (Single (WATCH QUEUE)) K_watch]).
Proof.
  intros w leftover.
  destruct (batch_run rs ans due rev st [] [] evs Hres Hwf Hprint Hlen Hevs)
    as (more & Hrun & Hb).
  cbv zeta in Hrun, Hb. fold leftover in Hrun, Hb. fold w in Hrun.
  unfold batch_end in Hrun, Hb. cbn [response dueTime reverse] in Hrun, Hb.
  split.
  - intros Hn.
    assert (Hfull : (List.length rs <? PROCESSING_BATCH_SIZE * 2)%nat = false)
      by (apply Nat.ltb_ge; lia).
    rewrite Hfull in Hrun, Hb. rewrite Hrun. cbn [vars waiting timeouts trace app].
    repeat split. exact Hb.
  - intros Hn.
    assert (Hshort : (List.length rs <? PROCESSING_BATCH_SIZE * 2)%nat = true)
      by (apply Nat.ltb_lt; lia).
    rewrite Hshort in Hrun, Hb. rewrite Hrun. cbn [vars waiting timeouts trace app fst snd].
    split; [reflexivity |].
    destruct leftover; cbn in Hb |- *; repeat split; exact Hb.
Qed.

(** C5 (defect of [doTask]): a batch whose last entry is due at -1e16 ms
    neither ends the pass nor fetches another batch. With that entry
    alone, reserved and read, the pass stops at the RangeError of
    [doTask]: no retry is scheduled, no WATCH is sent and
    [inspectingQueue] stays set. With 29 entries that a peer holds
    reserved before it, a batch of exactly 30, [reverse] is not flipped
    and no batch is fetched. *)
Theorem batch_stalls_on_invalid_date :
  let due := of_Z 5000 in
  let pass rs replies :=
    run en (mkWorld in_pass [K_getBatch due false] [] [])
      (map (fun r => (due, E_reply r)) (Strings rs :: replies)) in
  let one := pass ["id"%string; far_past]
               [Value (Some "OK"%string); Value (Some "hello"%string)] in
  let full := pass (sample_batch 29 ++ ["id"%string; far_past])
                (repeat (Value None) 29 ++
                 [Value (Some "OK"%string); Value (Some "hello"%string)]) in
  (vars one = in_pass /\ inspectingQueue (vars one) = true /\
   waiting one = [] /\ timeouts one = [] /\
   beyond_entries (trace one) = [Throw "RangeError: Invalid time value"]) /\
  (List.length (sample_batch 29 ++ ["id"%string; far_past]) =
     (2 * PROCESSING_BATCH_SIZE)%nat /\
   vars full = in_pass /\ waiting full = [] /\ timeouts full = [] /\
   beyond_entries (trace full) = [Throw "RangeError: Invalid time value"]).
Proof.
  cbv zeta. split.
  - vm_compute. repeat split.
  - vm_compute. repeat split.
Qed.

(** The double written [1.1] is the Number nearest to 11/10. *)
Lemma lit_1_1_is_nearest :
  lit_1_1 = S754_finite false 4953959590107546 (-52) /\
  is_number lit_1_1 = true /\
  Z.abs (10 * 4953959590107546 - 11 * 2 ^ 52) <= 5.
Proof. repeat split; vm_compute; congruence. Qed.

(** C6: a pass that reaches the end of its window with a leftover is run
    again after [PROCESSING_RETRY_DELAY] ms, which is
    [Math.ceil(1.1 * PROCESSING_WINDOW)] = [Math.ceil(1.1 * 1000)] = 1100:
    when the callback [c] of the last entry of the last batch runs with a
    leftover on record, and when the range query fails, [cb] gives
    [actuallyInspectQueue] to [setTimeout] with the delay 1100. *)
Theorem retry_delay_is_1100
  (env : batch_env) (leftover : bool) (due now : number) (rev : bool)
  (e : string) (st : state)
  (Hres : resumeInspection st = false)
  (Hlast : (List.length (response env) <= i env + 2)%nat)
  (Hshort : (List.length (response env) < 2 * PROCESSING_BATCH_SIZE)%nat)
  (Hleft : leftovers env || leftover = true) :
  PROCESSING_WINDOW = of_Z 1000 /\
  PROCESSING_RETRY_DELAY = Math_ceil (mul lit_1_1 (of_Z 1000)) /\
  PROCESSING_RETRY_DELAY = of_Z 1100 /\
  c env leftover now st =
    (set_inspectingQueue false st,
     [SetTimeout (ActuallyInspectQueue (dueTime env)) (of_Z 1100)]) /\
  cb due true now st =
    (set_inspectingQueue false st,
     [SetTimeout (ActuallyInspectQueue due) (of_Z 1100)]) /\
  resume en (K_getBatch due rev) (Failure e) now st =
    (set_inspectingQueue false st,
     [Log "Could not get a batch of messages.";
      SetTimeout (ActuallyInspectQueue due) (of_Z 1100)]).
Proof.
  assert (Hd : PROCESSING_RETRY_DELAY = of_Z 1100) by (vm_compute; reflexivity).
  split; [reflexivity |]. split; [reflexivity |]. split; [exact Hd |].
  rewrite <- Hd. split; [| split].
  - rewrite c_without_resume by exact Hres.
    assert (H1 : (i env + 2 <? List.length (response env))%nat = false)
      by (apply Nat.ltb_ge; lia).
    assert (H2 : (List.length (response env) <? PROCESSING_BATCH_SIZE * 2)%nat = true)
      by (apply Nat.ltb_lt; lia).
    rewrite H1, H2, Hleft. reflexivity.
  - now rewrite cb_without_resume.
  - cbn [resume]. rewrite Hres, cb_without_resume by exact Hres. reflexivity.
Qed.

End Batches.

(** The entry of a batch of one, left to a peer that holds it reserved. *)
Lemma retry_delay_is_1100_witness :
  c (mkBatch (of_Z 5000) false ["id"; "5"]%string 0 false) true (of_Z 5001) in_pass =
    (set_inspectingQueue false in_pass,
     [SetTimeout (ActuallyInspectQueue (of_Z 5000)) (of_Z 1100)]).
Proof.
  apply (retry_delay_is_1100 LE
           (mkBatch (of_Z 5000) false ["id"; "5"]%string 0 false) true
           (of_Z 5000) (of_Z 5001) false "ECONNRESET" in_pass).
  - reflexivity.
  - cbn. lia.
  - cbn. lia.
  - reflexivity.
Defined.

(** ** queue.js: the guard of the inspection and its cutoff *)

Section Inspection.

Variable en : endianness.

(** A firing of the timer during a pass only asks for a resumption. *)
Lemma inspectQueue_during_pass (now : number) (st : state) :
  inspectingQueue st = true ->
  inspectQueue now st = (set_resumeInspection true st, []).
Proof. intros H. unfold inspectQueue. now rewrite H. Qed.

(** The end of a pass that was asked to resume: the flag is cleared and
    [actuallyInspectQueue] is queued for the next tick with a cutoff
    computed then. *)
Lemma cb_with_resume (due : number) (again : bool) (now : number) (st : state) :
  resumeInspection st = true ->
  cb due again now st =
    (set_resumeInspection false (set_inspectingQueue false st),
     [NextTick (ActuallyInspectQueue (Math_max (nextDueTime st) (Num now)))]).
Proof.
  intros H. unfold cb. cbn [resumeInspection set_inspectingQueue]. now rewrite H.
Qed.

Lemma Math_max_null (now : number) :
  is_instant now = true -> Math_max Null (Num now) = now.
Proof.
  destruct now as [[|] | [|] | | [|] m e]; try discriminate; reflexivity.
Qed.

End Inspection.

(** C4: the guard of [inspectQueue] does not cover the retry. A pass ends
    with a leftover and schedules its retry; the timer fires 1098 ms later
    and starts a pass; the retry fires while that pass waits for its batch
    and starts a second pass beside it. *)
Lemma retry_starts_second_pass :
  let w3 := run LE (mkWorld armed [] [] []) (firstn 3 retry_scenario) in
  let w5 := run LE (mkWorld armed [] [] []) (firstn 5 retry_scenario) in
  let w6 := run LE (mkWorld armed [] [] []) retry_scenario in
  (* the first pass is over and its retry is pending *)
  passes_running w3 = 0%nat /\
  inspectingQueue (vars w3) = false /\
  timeouts w3 = [ActuallyInspectQueue (of_Z 1000)] /\
  (* after the timer fired for the second time, one pass is running *)
  waiting w5 = [K_getBatch (of_Z 2100) false] /\
  inspectingQueue (vars w5) = true /\
  (* the retry starts a second one beside it *)
  waiting w6 = [K_getBatch (of_Z 2100) false; K_getBatch (of_Z 1000) false] /\
  passes_running w6 = 2%nat.
Proof. vm_compute. repeat split. Qed.

(** ** A pass against the store *)

Section StoreFacts.

Import Redis.

Lemma content_key_eqb (a b : string) :
  String.eqb (CONTENT_PREFIX ++ a) (CONTENT_PREFIX ++ b) = String.eqb a b.
Proof. reflexivity. Qed.

Lemma lock_key_eqb (a b : string) :
  String.eqb (LOCK_PREFIX ++ a) (LOCK_PREFIX ++ b) = String.eqb a b.
Proof. reflexivity. Qed.

Lemma content_lock_eqb (a b : string) :
  String.eqb (CONTENT_PREFIX ++ a) (LOCK_PREFIX ++ b) = false.
Proof. reflexivity. Qed.

Lemma lock_content_eqb (a b : string) :
  String.eqb (LOCK_PREFIX ++ a) (CONTENT_PREFIX ++ b) = false.
Proof. reflexivity. Qed.

Lemma insert_perm (x : string * number) (l : list (string * number)) :
  Permutation (insert x l) (x :: l).
Proof.
  induction l as [| y l IH]; cbn [insert]; [reflexivity |].
  destruct (before x y); [reflexivity |].
  rewrite IH. apply perm_swap.
Qed.

Lemma sort_perm (l : list (string * number)) : Permutation (sort l) l.
Proof.
  induction l as [| x l IH]; cbn [sort]; [reflexivity |].
  rewrite insert_perm. now constructor.
Qed.

Lemma filter_perm {A} (f : A -> bool) (l l' : list A) :
  Permutation l l' -> Permutation (filter f l) (filter f l').
Proof.
  induction 1 as [| x l l' _ IH | x y l | l l' l'' _ IH1 _ IH2]; cbn [filter].
  - reflexivity.
  - destruct (f x); [now constructor | exact IH].
  - destruct (f x), (f y); try reflexivity. apply perm_swap.
  - now rewrite IH1.
Qed.

Lemma skipn_length_app {A} (l l' : list A) : skipn (List.length l) (l ++ l') = l'.
Proof. induction l as [| x l IH]; [reflexivity | exact IH]. Qed.

Lemma without_nil (l : list (string * number)) : without [] l = l.
Proof.
  unfold without. induction l as [| e l IH]; [reflexivity |].
  cbn [filter existsb negb]. f_equal. exact IH.
Qed.

Lemma without_cons (id : string) (ids : list string) (l : list (string * number)) :
  without ids (filter (fun e => negb (is_member id e)) l) = without (id :: ids) l.
Proof.
  unfold without. induction l as [| e l IH]; cbn [filter]; [reflexivity |].
  unfold is_member at 1. cbn [existsb].
  destruct (String.eqb (fst e) id); cbn [negb orb]; [exact IH |].
  cbn [filter]. destruct (negb (existsb (String.eqb (fst e)) ids)); [now rewrite IH | exact IH].
Qed.

Lemma existsb_eqb_In (id : string) (ids : list string) :
  existsb (String.eqb id) ids = true <-> In id ids.
Proof.
  rewrite existsb_exists. split.
  - intros (x & Hx & He). apply String.eqb_eq in He. now subst.
  - intros H. exists id. split; [exact H | apply String.eqb_refl].
Qed.

(** With distinct members, taking out the first ones leaves the others. *)
Lemma without_prefix (l1 l2 : list (string * number)) :
  NoDup (map fst (l1 ++ l2)) -> without (map fst l1) (l1 ++ l2) = l2.
Proof.
  intros Hnd. unfold without. rewrite filter_app.
  assert (H1 : filter (fun e => negb (existsb (String.eqb (fst e)) (map fst l1))) l1 = []).
  { clear. assert (H : forall l, incl l l1 ->
      filter (fun e => negb (existsb (String.eqb (fst e)) (map fst l1))) l = []).
    { induction l as [| e l IH]; intros Hi; [reflexivity |].
      cbn [filter].
      assert (He : existsb (String.eqb (fst e)) (map fst l1) = true).
      { apply existsb_eqb_In, in_map, Hi. now left. }
      rewrite He. cbn [negb]. apply IH. intros x Hx. apply Hi. now right. }
    apply H, incl_refl. }
  rewrite H1. cbn [app].
  rewrite map_app in Hnd.
  assert (H2 : forall e, In e l2 -> existsb (String.eqb (fst e)) (map fst l1) = false).
  { intros e He. destruct (existsb (String.eqb (fst e)) (map fst l1)) eqn:Hex; [| reflexivity].
    apply existsb_eqb_In in Hex.
    exfalso. revert Hex. clear - Hnd He.
    induction l1 as [| x l1 IH]; cbn [map app] in *; [tauto |].
    inversion Hnd as [| ? ? Hnot Hnd']; subst.
    intros [Hx | Hx].
    - apply Hnot. rewrite Hx. apply in_or_app. right. now apply in_map.
    - now apply IH. }
  clear - H2. induction l2 as [| e l2 IH]; [reflexivity |].
  cbn [filter]. rewrite (H2 e) by now left. cbn [negb].
  f_equal. apply IH. intros x Hx. apply H2. now right.
Qed.

End StoreFacts.

Section Drain.

Import Redis.

Variable format_score : number -> string.
Variable en : endianness.

Lemma answer_step (now : number) (r : request) (rest : list request)
  (s s' : store) (reply : reply) (k : kont) (krest : list kont)
  (st st' : state) (tos : list task) (tr es : list effect) :
  serve format_score now s r = Some (s', reply) ->
  resume en k reply now st = (st', es) ->
  ticks es = [] ->
  answer format_score en now (mkSystem (mkWorld st (k :: krest) tos tr) s (r :: rest)) =
    mkSystem (mkWorld st' (krest ++ konts es) (tos ++ sleepers es) (tr ++ es))
      s' (rest ++ requests es).
Proof.
  intros Hs Hr Ht. unfold answer. cbn [sent db node]. rewrite Hs.
  rewrite (step_reply en k krest reply now st st' tos tr es Hr Ht).
  unfold sent_during. cbn [trace]. now rewrite skipn_length_app.
Qed.

(** An entry whose lock is free and whose content is there: three answers
    of the store, and the message is printed and removed. *)
Lemma entry_dispatched (clock : nat -> number) (s : store) (st : state)
  (env : batch_env) (tos : list task) (tr : list effect)
  (id : string) (time : number) (text : string) :
  resumeInspection st = false ->
  valid_date time = true ->
  keys s (LOCK_PREFIX ++ id) = None ->
  keys s (CONTENT_PREFIX ++ id) = Some (text, None) ->
  exists st' e s',
    c env false (of_Z 0) st = (st', [e]) /\
    answers format_score en clock 3
      (mkSystem (mkWorld st [K_reserve id time env] tos tr) s
         [Single (SET_PX_NX (LOCK_PREFIX ++ id) EMPTY_BUFFER PROCESSING_WINDOW)]) =
      mkSystem
        (mkWorld st' (konts [e]) (tos ++ sleepers [e])
           (tr ++ [Db (Single (GET (CONTENT_PREFIX ++ id))) (K_contents id time env);
                   Emit time text; Db (cleanup id) K_cleanup; e]))
        s' (requests [e]) /\
    msgq s' = filter (fun x => negb (is_member id x)) (msgq s) /\
    (forall k, keys s' k =
               if String.eqb k (CONTENT_PREFIX ++ id) || String.eqb k (LOCK_PREFIX ++ id)
               then None else keys s k).
Proof.
  intros Hres Hdate Hlock Hcontent.
  destruct (c_single env false (clock 1%nat) st Hres) as (st' & e & Hc & Ht & Hall).
  exists st', e. eexists. split; [apply Hall |].
  cbn [answers].
  (* the reservation *)
  erewrite answer_step;
    [| unfold serve, get; rewrite Hlock; reflexivity
     | reflexivity | reflexivity].
  cbn [app konts sleepers requests flat_map].
  (* the contents *)
  erewrite answer_step;
    [| unfold serve, get, put; cbn [keys];
       rewrite content_lock_eqb, Hcontent; reflexivity
     | cbn [resume]; rewrite Hdate, Hc; unfold after; cbn [fst snd app]; reflexivity
     | exact Ht].
  cbn [app konts sleepers requests flat_map].
  (* the cleanup *)
  erewrite answer_step;
    [| reflexivity | reflexivity | reflexivity].
  cbn [app konts sleepers requests flat_map].
  rewrite !app_nil_r, <- !app_assoc. cbn [app].
  split; [reflexivity |]. split; [reflexivity |].
  intros k. cbn [keys fold_left del zrem put].
  destruct (String.eqb k (CONTENT_PREFIX ++ id)); [destruct (String.eqb k (LOCK_PREFIX ++ id)); reflexivity |].
  cbn [orb]. destruct (String.eqb k (LOCK_PREFIX ++ id)); reflexivity.
Qed.

Lemma answers_add (clock : nat -> number) (n m : nat) (sys : system) :
  answers format_score en clock (n + m) sys =
    answers format_score en (fun k => clock (n + k)%nat) m
      (answers format_score en clock n sys).
Proof.
  revert clock sys. induction n as [| n IH]; intros clock sys; cbn [answers Nat.add];
    [reflexivity | now rewrite IH].
Qed.

Lemma key_of_other (ids : list string) (id : string) :
  ~ In id ids ->
  key_of ids (CONTENT_PREFIX ++ id) = false /\ key_of ids (LOCK_PREFIX ++ id) = false.
Proof.
  intros Hn. unfold key_of.
  induction ids as [| x ids IH]; [split; reflexivity |].
  cbn [existsb].
  rewrite content_key_eqb, content_lock_eqb, lock_content_eqb, lock_key_eqb.
  assert (Hx : String.eqb id x = false).
  { apply String.eqb_neq. intros ->. apply Hn. now left. }
  rewrite Hx. cbn [orb]. apply IH. intros H. apply Hn. now right.
Qed.

(** The entries of a batch that are all free are printed and removed one
    after the other, and the batch ends without leftover of its own. *)
Lemma batch_dispatched (B : list (string * number)) :
  forall (clock : nat -> number) (s : store) (st : state) (env : batch_env)
         (tos : list task) (tr : list effect) (x : string * number)
         (time : number),
    resumeInspection st = false ->
    valid_date time = true ->
    (forall e, In e B -> dated format_score e = true) ->
    skipn (i env) (response env) = range_reply format_score (x :: B) ->
    (i env + 2 * List.length (x :: B) = List.length (response env))%nat ->
    NoDup (map fst (x :: B)) ->
    (forall e, In e (x :: B) -> free s e) ->
    exists s' more,
      let final := batch_end env (leftovers env) st in
      answers format_score en clock (3 * List.length (x :: B))
        (mkSystem (mkWorld st [K_reserve (fst x) time env] tos tr) s
           [Single (SET_PX_NX (LOCK_PREFIX ++ fst x) EMPTY_BUFFER PROCESSING_WINDOW)]) =
        mkSystem
          (mkWorld (fst final) (konts (snd final)) (tos ++ sleepers (snd final))
             (tr ++ more))
          s' (requests (snd final)) /\
      beyond_entries more = snd final /\
      map Some (texts more) = map (content s) (x :: B) /\
      msgq s' = without (map fst (x :: B)) (msgq s) /\
      (forall k, keys s' k = if key_of (map fst (x :: B)) k then None else keys s k).
Proof.
  induction B as [| y B IH];
    intros clock s st env tos tr x time Hres Hdate Hdated Hskip Hlen Hnd Hfree.
  - (* the last entry *)
    destruct (Hfree x (or_introl eq_refl)) as (Hlock & text & Hcontent).
    destruct (entry_dispatched clock s st env tos tr (fst x) time text Hres Hdate Hlock Hcontent)
      as (st' & e & s' & Hc & Hrun & Hq & Hk).
    rewrite c_without_resume in Hc by exact Hres.
    cbn [List.length] in Hlen.
    assert (Hlast : (i env + 2 <? List.length (response env))%nat = false)
      by (apply Nat.ltb_ge; lia).
    rewrite Hlast, orb_false_r in Hc.
    fold (batch_end env (leftovers env) st) in Hc.
    exists s'. eexists. cbv zeta. rewrite Hc. cbn [fst snd].
    change (3 * List.length [x])%nat with 3%nat. rewrite Hrun.
    split; [reflexivity |].
    pose proof (batch_end_beyond env (leftovers env) st) as [Hb _]. rewrite Hc in Hb.
    cbn [snd] in Hb.
    split; [exact Hb |].
    split.
    { unfold texts. cbn [flat_map app map].
      assert (Hte : match e with Emit _ t => [t] | _ => [] end = []).
      { revert Hc. unfold batch_end, getBatch.
        destruct (List.length (response env) <? PROCESSING_BATCH_SIZE * 2)%nat;
          [destruct (leftovers env) |]; intros [= _ <-]; reflexivity. }
      rewrite Hte. unfold content. now rewrite Hcontent. }
    split.
    { rewrite Hq. unfold without. apply filter_ext. intros a.
      cbn [map existsb]. unfold is_member. now rewrite orb_false_r. }
    intros k. rewrite Hk. unfold key_of. cbn [map existsb]. now rewrite orb_false_r.
  - (* on to the next entry *)
    destruct (Hfree x (or_introl eq_refl)) as (Hlock & text & Hcontent).
    destruct (entry_dispatched clock s st env tos tr (fst x) time text Hres Hdate Hlock Hcontent)
      as (st' & e & s1 & Hc & Hrun & Hq & Hk).
    rewrite c_without_resume in Hc by exact Hres.
    cbn [List.length] in Hlen.
    assert (Hnext : (i env + 2 <? List.length (response env))%nat = true)
      by (apply Nat.ltb_lt; lia).
    rewrite Hnext, orb_false_r in Hc.
    set (env' := mkBatch (dueTime env) (reverse env) (response env) (i env + 2)
                   (leftovers env)) in *.
    assert (Hid : nth_error (response env') (i env') = Some (fst y)).
    { unfold env'. cbn [response i].
      rewrite <- nth_error_skipn, Hskip. reflexivity. }
    unfold dequeue_at, tryDequeuing in Hc. rewrite Hid in Hc.
    injection Hc as <- <-.
    inversion Hnd as [| ? ? Hnotin Hnd']; subst.
    destruct (IH (fun k => clock (3 + k)%nat) s1 st env' tos
                (tr ++ [Db (Single (GET (CONTENT_PREFIX ++ fst x))) (K_contents (fst x) time env);
                        Emit time text; Db (cleanup (fst x)) K_cleanup;
                        Db (Single (SET_PX_NX (LOCK_PREFIX ++ fst y) EMPTY_BUFFER
                                      PROCESSING_WINDOW))
                          (K_reserve (fst y)
                             (parseInt (nth_error (response env') (i env' + 1))) env')])
                y (parseInt (nth_error (response env') (i env' + 1))))
      as (s' & more & Hrun2 & Hb & Ht & Hq2 & Hk2).
    + exact Hres.
    + unfold env'. cbn [i response].
      replace (i env + 2 + 1)%nat with (i env + 3)%nat by lia.
      rewrite <- nth_error_skipn, Hskip. cbn [range_reply flat_map app nth_error].
      apply (Hdated y). now left.
    + intros a Ha. apply Hdated. now right.
    + unfold env'. cbn [i response].
      replace (i env + 2)%nat with (2 + i env)%nat by lia.
      rewrite <- skipn_skipn, Hskip. reflexivity.
    + unfold env'. cbn [i response List.length] in *. lia.
    + exact Hnd'.
    + intros a Ha. destruct (Hfree a (or_intror Ha)) as (Hl & t & Hct).
      assert (Hne : ~ In (fst a) [fst x]).
      { intros [Heq | []]. apply Hnotin. rewrite Heq. exact (in_map fst (y :: B) a Ha). }
      destruct (key_of_other [fst x] (fst a) Hne) as [Hk1 Hk3].
      unfold key_of in Hk1, Hk3. cbn [existsb] in Hk1, Hk3.
      rewrite orb_false_r in Hk1, Hk3.
      split; [| exists t]; rewrite Hk; [rewrite Hk3 | rewrite Hk1]; assumption.
    + cbv zeta in Hrun2, Hb.
      assert (Hend : batch_end env' (leftovers env') st = batch_end env (leftovers env) st)
        by reflexivity.
      rewrite Hend in Hrun2, Hb.
      exists s'. eexists (_ :: _ :: _ :: _ :: more). cbv zeta.
      replace (3 * List.length (x :: y :: B))%nat
        with (3 + 3 * List.length (y :: B))%nat by (cbn [List.length]; lia).
      rewrite answers_add, Hrun.
      cbn [konts sleepers requests flat_map app]. rewrite app_nil_r.
      lazymatch goal with
      | |- answers _ _ _ _ ?a = _ /\ _ =>
          lazymatch type of Hrun2 with
          | answers _ _ _ _ ?b = _ => replace a with b by reflexivity
          end
      end.
      rewrite Hrun2. rewrite <- app_assoc. cbn [app].
      split; [reflexivity |].
      split; [exact Hb |].
      split.
      { unfold texts in *. cbn [flat_map app map]. rewrite Ht.
        change (content s x :: content s y :: map (content s) B)
          with (content s x :: map (content s) (y :: B)).
        f_equal; [unfold content; now rewrite Hcontent |].
        apply map_ext_in. intros a Ha.
        assert (Hne : ~ In (fst a) [fst x]).
        { intros [Heq | []]. apply Hnotin. rewrite Heq. exact (in_map fst (y :: B) a Ha). }
        destruct (key_of_other [fst x] (fst a) Hne) as [Hk1 _].
        unfold key_of in Hk1. cbn [existsb] in Hk1. rewrite orb_false_r in Hk1.
        unfold content. now rewrite Hk, Hk1. }
      split.
      { rewrite Hq2, Hq. apply without_cons. }
      intros k. rewrite Hk2, Hk. unfold key_of. cbn [map existsb].
      destruct (String.eqb k (CONTENT_PREFIX ++ fst x) || String.eqb k (LOCK_PREFIX ++ fst x));
        cbn [orb]; [| reflexivity].
      now destruct (_ || _).
Qed.

Variable now : number.

Lemma window_perm (rev : bool) (s : store) :
  Permutation (window now rev s) (due now s).
Proof.
  unfold window, due, by_score.
  assert (H : Permutation (if rev then List.rev (sort (msgq s)) else sort (msgq s)) (msgq s)).
  { destruct rev; [rewrite <- Permutation_rev |]; apply sort_perm. }
  now apply filter_perm.
Qed.

Lemma NoDup_map_filter (f : string * number -> bool) (l : list (string * number)) :
  NoDup (map fst l) -> NoDup (map fst (filter f l)).
Proof.
  induction l as [| e l IH]; cbn [map filter]; [auto |].
  intros H. inversion H as [| ? ? Hn Hd]; subst.
  destruct (f e); [| now apply IH].
  cbn [map]. constructor; [| now apply IH].
  intros Hin. apply Hn. apply in_map_iff in Hin as (x & Hx & Hi).
  apply filter_In in Hi as [Hi _]. rewrite <- Hx. now apply in_map.
Qed.

Lemma NoDup_fst_inj (l : list (string * number)) (a b : string * number) :
  NoDup (map fst l) -> In a l -> In b l -> fst a = fst b -> a = b.
Proof.
  induction l as [| e l IH]; cbn [map]; [intros _ [] |].
  intros H Ha Hb Hab. inversion H as [| ? ? Hn Hd]; subst.
  destruct Ha as [-> | Ha], Hb as [-> | Hb]; auto.
  - exfalso. apply Hn. rewrite Hab. now apply in_map.
  - exfalso. apply Hn. rewrite <- Hab. now apply in_map.
Qed.

Lemma existsb_perm {A} (f : A -> bool) (l l' : list A) :
  Permutation l l' -> existsb f l = existsb f l'.
Proof.
  induction 1 as [| x l l' _ IH | x y l | l l' l'' _ IH1 _ IH2]; cbn [existsb].
  - reflexivity.
  - now rewrite IH.
  - destruct (f x), (f y); reflexivity.
  - now rewrite IH1.
Qed.

Lemma key_of_perm (l l' : list string) (k : string) :
  Permutation l l' -> key_of l k = key_of l' k.
Proof. apply existsb_perm. Qed.

Lemma key_of_app (l l' : list string) (k : string) :
  key_of (l ++ l') k = key_of l k || key_of l' k.
Proof. apply existsb_app. Qed.

Lemma range_reply_length (B : list (string * number)) :
  List.length (range_reply format_score B) = (2 * List.length B)%nat.
Proof.
  induction B as [| e B IH]; [reflexivity |].
  change (range_reply format_score (e :: B))
    with (fst e :: format_score (snd e) :: range_reply format_score B).
  cbn [List.length]. rewrite IH. lia.
Qed.

Lemma firstn_short {A} (n : nat) (l : list A) :
  (List.length (firstn n l) < n)%nat -> firstn n l = l.
Proof.
  intros H. rewrite length_firstn in H. apply firstn_all2. lia.
Qed.

(** Entries that are not due are not among the ones removed. *)
Lemma not_due_stays (s : store) (B : list (string * number)) (e : string * number) :
  NoDup (map fst (msgq s)) -> incl B (due now s) ->
  In e (msgq s) -> is_due now e = false ->
  existsb (String.eqb (fst e)) (map fst B) = false.
Proof.
  intros Hnd Hincl He Hdue.
  destruct (existsb (String.eqb (fst e)) (map fst B)) eqn:Hex; [| reflexivity].
  apply existsb_eqb_In, in_map_iff in Hex as (b & Hfst & Hb).
  apply Hincl, filter_In in Hb as [Hb Hbd].
  assert (b = e) by (eapply NoDup_fst_inj; eauto). subst b.
  congruence.
Qed.

Lemma serve_query (clock : number) (rev : bool) (s : store) :
  serve format_score clock s (Single (query now rev)) =
    Some (s, Strings (range_reply format_score
                        (firstn PROCESSING_BATCH_SIZE (window now rev s)))).
Proof. destruct rev; reflexivity. Qed.

Lemma filter_none {A} (f : A -> bool) (l : list A) :
  filter f l = [] -> filter (fun x => negb (f x)) l = l.
Proof.
  induction l as [| x l IH]; cbn [filter]; [reflexivity |].
  destruct (f x); [discriminate |]. cbn [negb]. intros H. now rewrite IH.
Qed.

(** From the range query of a batch to the end of the pass, when the
    entries that are due are free. *)
Lemma pass_from_query (m : nat) :
  forall (clock : nat -> number) (s : store) (st : state) (rev : bool)
         (tos : list task) (tr : list effect),
    (List.length (due now s) <= m)%nat ->
    sound now s ->
    (forall e, In e (due now s) -> dated format_score e = true) ->
    resumeInspection st = false ->
    exists n s' more,
      answers format_score en clock n
        (mkSystem (mkWorld st [K_getBatch now rev] tos tr) s [Single (query now rev)]) =
        mkSystem
          (mkWorld (set_inspectingQueue false st) [K_watch] tos (tr ++ more))
          s' [Single (WATCH QUEUE)] /\
      Permutation (map Some (texts more)) (map (content s) (due now s)) /\
      msgq s' = filter (fun e => negb (is_due now e)) (msgq s) /\
      (forall k, keys s' k = if key_of (map fst (due now s)) k then None else keys s k).
Proof.
  induction m as [m IH] using lt_wf_ind.
  intros clock s st rev tos tr Hm [Hnd Hfree] Hdated Hres.
  pose proof (window_perm rev s) as Hperm.
  set (X := window now rev s) in *.
  assert (HndX : NoDup (map fst X)).
  { apply (Permutation_NoDup (l := map fst (due now s))).
    - symmetry. now apply Permutation_map.
    - unfold due. now apply NoDup_map_filter. }
  pose proof (firstn_skipn PROCESSING_BATCH_SIZE X) as Hsplit.
  pose proof (serve_query (clock 0%nat) rev s) as Hserve. fold X in Hserve.
  destruct (firstn PROCESSING_BATCH_SIZE X) as [| x B] eqn:HB.
  - (* no messages at all *)
    assert (HX : X = []) by (destruct X; [reflexivity | discriminate HB]).
    rewrite HX in Hperm. apply Permutation_nil in Hperm.
    exists 1%nat, s, [Db (Single (WATCH QUEUE)) K_watch].
    cbn [answers].
    rewrite (answer_step (clock 0%nat) _ _ s s _ _ _ st (set_inspectingQueue false st)
               tos tr [Db (Single (WATCH QUEUE)) K_watch] Hserve);
      [| cbn [resume range_reply flat_map]; rewrite Hres; now rewrite cb_without_resume
       | reflexivity].
    cbn [app konts sleepers requests flat_map]. rewrite app_nil_r.
    split; [reflexivity |].
    rewrite Hperm. cbn [map texts flat_map app key_of existsb].
    split; [constructor |]. split; [| reflexivity].
    symmetry. apply filter_none. exact Hperm.
  - (* a batch *)
    set (rs := range_reply format_score (x :: B)) in *.
    set (env := mkBatch now rev rs 0 false).
    set (time := parseInt (nth_error rs 1)).
    assert (Hin : incl (x :: B) (due now s)).
    { intros e He. apply (Permutation_in _ Hperm). rewrite <- Hsplit.
      apply in_or_app. now left. }
    assert (HndB : NoDup (map fst (x :: B))).
    { rewrite <- Hsplit, map_app in HndX. now apply NoDup_app_remove_r in HndX. }
    destruct (batch_dispatched B (fun k => clock (S k)) s st env tos
                (tr ++ [Db (Single (SET_PX_NX (LOCK_PREFIX ++ fst x) EMPTY_BUFFER
                                      PROCESSING_WINDOW))
                          (K_reserve (fst x) time env)])
                x time Hres)
      as (s1 & more1 & Hrun1 & Hb1 & Ht1 & Hq1 & Hk1).
    { apply (Hdated x), Hin. now left. }
    { intros e He. apply Hdated, Hin. now right. }
    { reflexivity. }
    { unfold env. cbn [i response]. unfold rs. now rewrite range_reply_length. }
    { exact HndB. }
    { intros e He. apply Hfree, Hin, He. }
    cbv zeta in Hrun1, Hb1.
    assert (Hfirst :
      answer format_score en (clock 0%nat)
        (mkSystem (mkWorld st [K_getBatch now rev] tos tr) s [Single (query now rev)]) =
      mkSystem
        (mkWorld st [K_reserve (fst x) time env] tos
           (tr ++ [Db (Single (SET_PX_NX (LOCK_PREFIX ++ fst x) EMPTY_BUFFER
                                 PROCESSING_WINDOW))
                     (K_reserve (fst x) time env)]))
        s [Single (SET_PX_NX (LOCK_PREFIX ++ fst x) EMPTY_BUFFER PROCESSING_WINDOW)]).
    { rewrite (answer_step (clock 0%nat) _ _ s s _ _ _ st st tos tr
                 [Db (Single (SET_PX_NX (LOCK_PREFIX ++ fst x) EMPTY_BUFFER
                                PROCESSING_WINDOW))
                    (K_reserve (fst x) time env)] Hserve);
        [| cbn [resume]; rewrite Hres; reflexivity | reflexivity].
      cbn [app konts sleepers requests flat_map]. now rewrite app_nil_r. }
    (* what is left of the window *)
    assert (Hrest : Permutation (due now s1) (skipn PROCESSING_BATCH_SIZE X)).
    { unfold due. rewrite Hq1.
      assert (Hcomm : filter (is_due now) (without (map fst (x :: B)) (msgq s)) =
                      without (map fst (x :: B)) (due now s)).
      { unfold without, due. generalize (msgq s). intros l.
        induction l as [| e l IHl]; [reflexivity |]. cbn [filter].
        destruct (negb (existsb (String.eqb (fst e)) (map fst (x :: B)))) eqn:E1,
                 (is_due now e) eqn:E2; cbn [filter]; rewrite ?E1, ?E2, ?IHl; reflexivity. }
      rewrite Hcomm.
      transitivity (without (map fst (x :: B)) X).
      - apply filter_perm. now symmetry.
      - rewrite <- Hsplit at 1. rewrite without_prefix; [reflexivity |].
        now rewrite Hsplit. }
    assert (Hall : Permutation (due now s) ((x :: B) ++ due now s1)).
    { rewrite Hrest, Hsplit. now symmetry. }
    assert (Hsame : forall e, In e (due now s1) ->
              key_of (map fst (x :: B)) (CONTENT_PREFIX ++ fst e) = false /\
              key_of (map fst (x :: B)) (LOCK_PREFIX ++ fst e) = false).
    { intros e He. apply key_of_other. intros Hid.
      apply (Permutation_in _ Hrest) in He.
      rewrite <- Hsplit, map_app in HndX.
      apply in_map with (f := fst) in He.
      revert HndX Hid He. generalize (map fst (x :: B)) (map fst (skipn PROCESSING_BATCH_SIZE X)).
      clear. intros l1 l2 Hnd H1 H2.
      induction l1 as [| a l1 IHl]; [destruct H1 |].
      cbn [app] in Hnd. inversion Hnd as [| ? ? Hn Hd]; subst.
      destruct H1 as [-> | H1]; [| now apply IHl].
      apply Hn, in_or_app. now right. }
    unfold batch_end in Hrun1, Hb1. cbn [response dueTime reverse leftovers env] in Hrun1, Hb1.
    destruct (List.length rs <? PROCESSING_BATCH_SIZE * 2)%nat eqn:Hsize.
    + (* the last batch *)
      cbn [fst snd konts sleepers requests flat_map app] in Hrun1, Hb1.
      rewrite app_nil_r in Hrun1.
      exists (S (3 * List.length (x :: B))), s1. eexists (_ :: more1).
      cbn [answers]. rewrite Hfirst, Hrun1. rewrite <- app_assoc. cbn [app].
      split; [reflexivity |].
      assert (HBX : x :: B = X).
      { rewrite <- HB. apply firstn_short. rewrite HB.
        apply Nat.ltb_lt in Hsize. unfold rs in Hsize.
        rewrite range_reply_length in Hsize. lia. }
      assert (HBdue : Permutation (x :: B) (due now s)) by (rewrite HBX; exact Hperm).
      split.
      { cbn [texts flat_map app]. fold (texts more1). rewrite Ht1.
        now apply Permutation_map. }
      split.
      { rewrite Hq1. unfold without. apply filter_ext_in. intros e He. f_equal.
        destruct (is_due now e) eqn:Hd.
        - apply existsb_eqb_In. apply in_map.
          apply (Permutation_in _ (Permutation_sym HBdue)).
          unfold due. apply filter_In. now split.
        - now apply (not_due_stays s). }
      intros k. rewrite Hk1. now rewrite (key_of_perm _ _ k (Permutation_map fst HBdue)).
    + (* a full batch: the pass goes on from the other end *)
      unfold getBatch in Hrun1, Hb1.
      cbn [fst snd konts sleepers requests flat_map app] in Hrun1, Hb1.
      rewrite app_nil_r in Hrun1.
      fold (query now (negb rev)) in Hrun1.
      assert (Hfull : (PROCESSING_BATCH_SIZE <= List.length (x :: B))%nat).
      { apply Nat.ltb_ge in Hsize. unfold rs in Hsize.
        rewrite range_reply_length in Hsize. lia. }
      assert (Hless : (List.length (due now s1) < m)%nat).
      { apply Permutation_length in Hall. rewrite length_app in Hall.
        unfold PROCESSING_BATCH_SIZE in Hfull. lia. }
      destruct (IH (List.length (due now s1)) Hless
                  (fun k => clock (S (3 * List.length (x :: B)) + k)%nat) s1 st (negb rev) tos
                  ((tr ++ [Db (Single (SET_PX_NX (LOCK_PREFIX ++ fst x) EMPTY_BUFFER
                                         PROCESSING_WINDOW))
                             (K_reserve (fst x) time env)]) ++ more1))
        as (n2 & s2 & more2 & Hrun2 & Ht2 & Hq2 & Hk2).
      { lia. }
      { split.
        - rewrite Hq1. unfold without. now apply NoDup_map_filter.
        - intros e He. destruct (Hsame e He) as [Hc Hl].
          assert (Hes : In e (due now s)).
          { apply (Permutation_in _ (Permutation_sym Hall)), in_or_app. now right. }
          destruct (Hfree e Hes) as (Hlk & text & Hct).
          split; [| exists text]; rewrite Hk1; [rewrite Hl | rewrite Hc]; assumption. }
      { intros e He. apply Hdated.
        apply (Permutation_in _ (Permutation_sym Hall)), in_or_app. now right. }
      { exact Hres. }
      exists (S (3 * List.length (x :: B)) + n2)%nat, s2.
      eexists (_ :: more1 ++ more2).
      rewrite answers_add.
      cbn [answers]. rewrite Hfirst, Hrun1, Hrun2.
      rewrite <- !app_assoc. cbn [app].
      split; [reflexivity |].
      split.
      { cbn [texts flat_map app]. fold (texts (more1 ++ more2)).
        unfold texts in *. rewrite flat_map_app, map_app, Ht1.
        rewrite (Permutation_map (content s) Hall), map_app.
        apply Permutation_app_head. rewrite Ht2.
        assert (Hext : map (content s1) (due now s1) = map (content s) (due now s1)).
        { apply map_ext_in. intros e He. destruct (Hsame e He) as [Hc _].
          unfold content. now rewrite Hk1, Hc. }
        now rewrite Hext. }
      split.
      { rewrite Hq2, Hq1. unfold without.
        generalize (fun e He => not_due_stays s (x :: B) e Hnd Hin He).
        generalize (msgq s). clear. intros l H.
        induction l as [| e l IHl]; [reflexivity |]. cbn [filter].
        assert (IHl' := IHl (fun a Ha => H a (or_intror Ha))).
        destruct (is_due now e) eqn:Hd; cbn [negb].
        - destruct (negb (existsb (String.eqb (fst e)) (map fst (x :: B)))); [| exact IHl'].
          cbn [filter]. now rewrite Hd.
        - rewrite (H e (or_introl eq_refl) Hd). cbn [negb filter]. rewrite Hd. cbn [negb].
          now rewrite IHl'. }
      intros k. rewrite Hk2, Hk1.
      rewrite (key_of_perm _ _ k (Permutation_map fst Hall)), map_app, key_of_app.
      destruct (key_of (map fst (x :: B)) k), (key_of (map fst (due now s1)) k); reflexivity.
Qed.

(** A pass started by the timer with no next due time known: every message
    that is due and free is printed once, and leaves the queue, when the
    scores of the due messages are dates [doTask] can print. *)
Lemma timer_pass_drains (clock : nat -> number) (s : store) (st : state) :
  is_instant now = true ->
  nextDueTime st = Null ->
  timerStored st = true ->
  inspectingQueue st = false ->
  resumeInspection st = false ->
  sound now s ->
  (forall e, In e (due now s) -> dated format_score e = true) ->
  exists n,
    let sys := answers format_score en clock n
                 (timer_fires en now (mkSystem (mkWorld st [] [] []) s [])) in
    Permutation (map Some (texts (trace (node sys)))) (map (content s) (due now s)) /\
    due now (db sys) = [] /\
    msgq (db sys) = filter (fun e => negb (is_due now e)) (msgq s) /\
    inspectingQueue (vars (node sys)) = false /\
    waiting (node sys) = [K_watch].
Proof.
  intros Hnow Hnone Hstored Hidle Hres Hsound Hdated.
  assert (Hstart :
    timer_fires en now (mkSystem (mkWorld st [] [] []) s []) =
    mkSystem
      (mkWorld (set_inspectingQueue true (set_timer None false st))
         [K_getBatch now false] []
         ([] ++ [Db (Single (query now false)) (K_getBatch now false)]))
      s [Single (query now false)]).
  { unfold timer_fires, step, settle, sent_during, timer_func, inspectQueue.
    cbn [fst snd node vars db sent]. rewrite Hstored.
    cbn [set_timer inspectingQueue nextDueTime]. rewrite Hidle, Hnone.
    rewrite (Math_max_null now Hnow). reflexivity. }
  destruct (pass_from_query (List.length (due now s)) clock s
              (set_inspectingQueue true (set_timer None false st)) false []
              ([] ++ [Db (Single (query now false)) (K_getBatch now false)])
              (le_n _) Hsound Hdated Hres)
    as (n & s' & more & Hrun & Ht & Hq & Hk).
  exists n. cbv zeta. rewrite Hstart, Hrun. cbn [node db trace vars waiting].
  split; [exact Ht |].
  split.
  { unfold due. rewrite Hq. clear.
    induction (msgq s) as [| e l IH]; [reflexivity |]. cbn [filter].
    destruct (is_due now e) eqn:Hd; cbn [negb filter]; [exact IH |].
    now rewrite Hd. }
  split; [exact Hq |]. split; reflexivity.
Qed.

End Drain.

(** ** queue.js: the cutoff of a pass when no due time is known *)

Section Cutoff.

Import Redis.

Variable format_score : number -> string.
Variable en : endianness.

(** When [nextDueTime] is null and [Date.now()] is an instant at or after
    the epoch, [Math.max(nextDueTime, Date.now())] is the current time, a
    Number that is not NaN; a pass that starts then, from the timer or on
    resumption, asks for the entries whose score is at most the current
    time. When the entries due by now are free, their scores are dates
    [doTask] can print and nothing interrupts the pass, it prints each of
    them once, removes them from the queue and leaves the others. *)
Lemma cutoff_and_drain_valid_dates
  (now : number) (st : state) (s : store) (clock : nat -> number)
  (Hnow : is_instant now = true)
  (Hnone : nextDueTime st = Null) :
  Math_max (nextDueTime st) (Num now) = now /\
  isNaN (Math_max (nextDueTime st) (Num now)) = false /\
  (inspectingQueue st = false ->
   inspectQueue now st =
     (set_inspectingQueue true st,
      [Db (Single (ZRANGEBYSCORE QUEUE MinusInf (Score now) 0 PROCESSING_BATCH_SIZE))
          (K_getBatch now false)])) /\
  (forall due again,
     resumeInspection st = true ->
     cb due again now st =
       (set_resumeInspection false (set_inspectingQueue false st),
        [NextTick (ActuallyInspectQueue now)])) /\
  (forall score, within MinusInf (Score now) score = SFleb score now) /\
  (timerStored st = true ->
   inspectingQueue st = false -> resumeInspection st = false -> sound now s ->
   (forall e, In e (due now s) -> dated format_score e = true) ->
   exists n,
     let sys := answers format_score en clock n
                  (timer_fires en now (mkSystem (mkWorld st [] [] []) s [])) in
     Permutation (map Some (texts (trace (node sys))))
       (map (content s) (due now s)) /\
     due now (db sys) = [] /\
     msgq (db sys) = filter (fun e => negb (is_due now e)) (msgq s) /\
     inspectingQueue (vars (node sys)) = false /\
     waiting (node sys) = [K_watch]).
Proof.
  rewrite Hnone, (Math_max_null now Hnow).
  repeat split.
  - destruct now as [[|] | [|] | | [|] m e]; try discriminate; reflexivity.
  - intros Hidle. unfold inspectQueue. rewrite Hidle, Hnone, (Math_max_null now Hnow).
    reflexivity.
  - intros due again Hr. rewrite (cb_with_resume due again now st Hr), Hnone.
    now rewrite (Math_max_null now Hnow).
  - intros Hstored Hidle Hres Hsound Hdated.
    exact (timer_pass_drains format_score en now clock s st Hnow Hnone Hstored Hidle
             Hres Hsound Hdated).
Qed.

(** Once no request is outstanding, the store has nothing to answer. *)
Lemma answers_idle (clock : nat -> number) (n : nat) (sys : system) :
  sent sys = [] -> answers format_score en clock n sys = sys.
Proof.
  revert clock. induction n as [| n IH]; intros clock Hs; [reflexivity |].
  cbn [answers]. unfold answer. rewrite Hs. now apply IH.
Qed.

End Cutoff.

Section DrainDefect.

Import Redis Samples.

(** C10 (defect of [doTask]): the cutoff of a pass that starts while
    [nextDueTime] is null is the current time, and the range query is
    bounded by it; but the pass does not drain the messages that are due.
    A replica in a pass that was asked to resume has been told that the
    queue is empty; a message submitted for -1e16 ms is then in the queue,
    free and due. The reply to the pending range query ends the pass, and
    the new pass starts with the current time for cutoff. It reserves the
    message, reads its content and stops at the RangeError of [doTask]:
    nothing is printed, the message stays in the queue with its content,
    [inspectingQueue] stays set, and no request or timeout is left to
    carry the pass further, however many answers are waited for. *)
Theorem pass_stops_on_invalid_date :
  let now := of_Z 1700000000000 in
  let start :=
    mkSystem (mkWorld resuming [K_getBatch (of_Z 1000) false] [] [])
      far_past_store [Single (query (of_Z 1000) false)] in
  let sys n := answers score_text LE (fun _ => now) n start in
  nextDueTime resuming = Null /\
  Math_max (nextDueTime resuming) (Num now) = now /\
  waiting (node (sys 1%nat)) = [K_getBatch now false] /\
  sent (sys 1%nat) =
    [Single (ZRANGEBYSCORE QUEUE MinusInf (Score now) 0 PROCESSING_BATCH_SIZE)] /\
  sound now far_past_store /\
  due now far_past_store = [(far_past_id, far_past_time)] /\
  content far_past_store (far_past_id, far_past_time) = Some "hello"%string /\
  score_text far_past_time = far_past /\
  forall n,
    texts (trace (node (sys (4 + n)%nat))) = [] /\
    thrown (trace (node (sys (4 + n)%nat))) = true /\
    due now (db (sys (4 + n)%nat)) = [(far_past_id, far_past_time)] /\
    content (db (sys (4 + n)%nat)) (far_past_id, far_past_time) =
      Some "hello"%string /\
    inspectingQueue (vars (node (sys (4 + n)%nat))) = true /\
    waiting (node (sys (4 + n)%nat)) = [] /\
    timeouts (node (sys (4 + n)%nat)) = [] /\
    sent (sys (4 + n)%nat) = [].
Proof.
  cbv zeta.
  split; [reflexivity |]. split; [reflexivity |].
  split; [vm_compute; reflexivity |]. split; [vm_compute; reflexivity |].
  split.
  { split.
    - vm_compute. repeat constructor. intros [].
    - intros e He. vm_compute in He. destruct He as [<- | []].
      split; [vm_compute; reflexivity | eexists; vm_compute; reflexivity]. }
  split; [vm_compute; reflexivity |]. split; [vm_compute; reflexivity |].
  split; [vm_compute; reflexivity |].
  intros n.
  rewrite answers_add.
  rewrite answers_idle by (vm_compute; reflexivity).
  vm_compute. repeat split.
Qed.

End DrainDefect.

(* ================================================================== *)
(** * Further properties *)
(* ================================================================== *)

(** ** toolbox.js: the edges of the two conversions *)

Section ToolboxEdges.

Import Toolbox.

Variable en : endianness.

(** X1: what [bufferToNumber] makes of a buffer depends on its length
    alone: null for the empty buffer and for no other, a RangeError for one
    to seven bytes, a Number for eight bytes or more; it never gives
    undefined. *)
Theorem bufferToNumber_by_length (b : buffer) :
  (bufferToNumber en b = inl Null <-> b = []) /\
  ((exists x, bufferToNumber en b = inl x /\ typeof_number x = true) <->
     (8 <= List.length b)%nat) /\
  ((exists msg, bufferToNumber en b = inr (RangeError msg)) <->
     (0 < List.length b < 8)%nat) /\
  bufferToNumber en b <> inl Undefined.
Proof.
  unfold bufferToNumber, readDouble, value_of_bits.
  destruct b as [| x b]; cbn [List.length].
  - split; [split; reflexivity |].
    split; [split; [intros (? & [= <-] & H); discriminate H | lia] |].
    split; [split; [intros (? & H); discriminate H | lia] | discriminate].
  - destruct (Nat.leb_spec 8 (S (List.length b))) as [Hl | Hl].
    + destruct (foreign_nan _).
      * split; [split; discriminate |].
        split; [split; [intros _; exact Hl | intros _; eauto] |].
        split; [split; [intros (? & H); discriminate H | lia] | discriminate].
      * split; [split; discriminate |].
        split; [split; [intros _; exact Hl | intros _; eauto] |].
        split; [split; [intros (? & H); discriminate H | lia] | discriminate].
    + split; [split; discriminate |].
      split; [split; [intros (? & H & _); discriminate H | lia] |].
      split; [split; [intros _; lia | intros _; eauto] | discriminate].
Qed.

(** X2: [bufferToNumber] reads the first eight bytes and ignores what
    follows: a payload that starts with the bytes of a Number decodes to
    that Number, whatever comes after them. *)
Theorem bufferToNumber_ignores_trailing_bytes (x : number) (extra : buffer)
  (Hx : is_number x = true) :
  bufferToNumber en (writeDouble en x ++ extra) = inl (Num x).
Proof.
  pose proof (readDouble_writeDouble en x Hx) as Hrt.
  assert (Hlen : List.length (writeDouble en x) = 8%nat) by apply word_bytes_length.
  assert (Hread : readDouble en (writeDouble en x ++ extra) = Some (Num x)).
  { rewrite <- Hrt. unfold readDouble.
    rewrite length_app, firstn_app, Hlen. cbn [Nat.add Nat.leb Nat.sub].
    now rewrite firstn_O, app_nil_r. }
  unfold bufferToNumber. rewrite Hread.
  destruct (writeDouble en x) as [| b0 l]; [discriminate Hlen | reflexivity].
Qed.

(** X3: [numberToBuffer] fails on strings only; null and undefined give
    the empty buffer and every Number, finite or not, gives eight bytes.
    What it returns is always decoded by [bufferToNumber] without error,
    and decoded to null exactly when the argument was null or undefined. *)
Theorem numberToBuffer_outcome (v : value) :
  match numberToBuffer en v with
  | inl b =>
      List.length b = (if eq_null v then 0 else 8)%nat /\
      (exists v', bufferToNumber en b = inl v') /\
      (bufferToNumber en b = inl Null <-> eq_null v = true)
  | inr e => exists s msg, v = Str s /\ e = TypeError msg
  end.
Proof.
  destruct v as [| | x | bits | s]; cbn.
  - repeat split; eauto.
  - repeat split; eauto.
  - assert (Hlen : List.length (writeDouble en x) = 8%nat) by apply word_bytes_length.
    split; [exact Hlen |].
    unfold bufferToNumber, readDouble, value_of_bits. rewrite Hlen. cbn [Nat.leb].
    destruct (writeDouble en x) as [| b0 l]; [discriminate Hlen |].
    destruct (foreign_nan _); (split; [eauto |]; split; discriminate).
  - assert (Hlen : List.length (word_bytes en 8 bits) = 8%nat) by apply word_bytes_length.
    split; [exact Hlen |].
    unfold bufferToNumber, readDouble, value_of_bits. rewrite Hlen. cbn [Nat.leb].
    destruct (word_bytes en 8 bits) as [| b0 l]; [discriminate Hlen |].
    destruct (foreign_nan _); (split; [eauto |]; split; discriminate).
  - eauto.
Qed.

End ToolboxEdges.

(** A payload of nine bytes. *)
Lemma bufferToNumber_ignores_trailing_bytes_witness :
  Toolbox.bufferToNumber LE (writeDouble LE (of_Z 1000) ++ [Byte.x01]) =
    inl (Num (of_Z 1000)).
Proof.
  apply (bufferToNumber_ignores_trailing_bytes LE (of_Z 1000) [Byte.x01]).
  reflexivity.
Defined.

(** ** queue.js: what the identifier is a hash of *)

Section HashedData.

Import MessageId.

Variable en : endianness.

(** X4: the bytes [getMessageId] hashes determine the time and the text:
    the eight bytes of the time come first, so two requests that differ in
    time or in text are hashed from different data. *)
Theorem hashed_data_injective (t1 t2 : number) (s1 s2 : string)
  (H1 : is_number t1 = true) (H2 : is_number t2 = true)
  (Hsame : Float64Array_of en t1 ++ list_byte_of_string s1 =
           Float64Array_of en t2 ++ list_byte_of_string s2) :
  t1 = t2 /\ s1 = s2.
Proof.
  assert (Hl1 : List.length (Float64Array_of en t1) = 8%nat) by apply word_bytes_length.
  assert (Hl2 : List.length (Float64Array_of en t2) = 8%nat) by apply word_bytes_length.
  assert (Hhead : Float64Array_of en t1 = Float64Array_of en t2).
  { apply (f_equal (firstn 8)) in Hsame.
    rewrite !firstn_app, Hl1, Hl2 in Hsame. cbn [Nat.sub] in Hsame.
    rewrite !firstn_O, !app_nil_r in Hsame.
    rewrite (firstn_all2 (Float64Array_of en t1)) in Hsame by lia.
    now rewrite (firstn_all2 (Float64Array_of en t2)) in Hsame by lia. }
  assert (Htail : list_byte_of_string s1 = list_byte_of_string s2).
  { rewrite Hhead in Hsame. now apply app_inv_head in Hsame. }
  split.
  - pose proof (readDouble_writeDouble en t1 H1) as R1.
    pose proof (readDouble_writeDouble en t2 H2) as R2.
    unfold writeDouble in R1, R2. unfold Float64Array_of in Hhead.
    rewrite Hhead in R1. congruence.
  - rewrite <- (string_of_list_byte_of_string s1), <- (string_of_list_byte_of_string s2).
    now rewrite Htail.
Qed.

End HashedData.

(** The same request twice. *)
Lemma hashed_data_injective_witness :
  of_Z 1500 = of_Z 1500 /\ "hello"%string = "hello"%string.
Proof.
  apply (hashed_data_injective LE (of_Z 1500) (of_Z 1500) "hello" "hello");
    reflexivity.
Defined.

(** ** Timer.js: repeated, late and near instants *)

Section TimerEdges.

Import Timer.

Lemma schedule_keeps_triggerTime (t : Z) (w : world) :
  triggerTime (schedule t w) = triggerTime w.
Proof.
  unfold schedule. destruct (t - now w <? 1); [reflexivity |].
  destruct (MAX_TIMEOUT <? t - now w); reflexivity.
Qed.

(** X5: [trigger(t)] right after [trigger(t)] changes nothing and does not
    throw, whatever the state of the timer was before the first call. *)
Theorem trigger_is_idempotent (t : Z) (w : world) :
  trigger t (fst (trigger t w)) = (fst (trigger t w), Done).
Proof.
  assert (Hset : same_instant (triggerTime (fst (trigger t w))) t = true).
  { unfold trigger. destruct (same_instant (triggerTime w) t) eqn:Hs; [exact Hs |].
    cbn [timer set_triggerTime].
    destruct (timer w); cbn [fst].
    - cbn. apply Z.eqb_refl.
    - rewrite schedule_keeps_triggerTime. cbn. apply Z.eqb_refl. }
  unfold trigger at 1. now rewrite Hset.
Qed.

(** X6: on a timer that holds no timeout, [trigger(t)] for an instant less
    than one millisecond ahead sets no timeout: the callback runs on the
    next tick, once, at the current instant, and the timer is idle again.
    A [cancel()] issued in the same turn, after the [trigger], does not
    throw and does not stop that run. *)
Theorem trigger_due_runs_at_once (t : Z) (w : world)
  (Hdue : t - now w < 1)
  (Hidle : timer w = None /\ ticks w = [])
  (Hnew : same_instant (triggerTime w) t = false) :
  let w' := arm t w in
  fired w' = now w :: fired w /\
  timeouts w' = timeouts w /\ sleeps w' = sleeps w /\
  triggerTime w' = None /\ timer w' = None /\ ticks w' = [] /\
  snd (cancel (fst (trigger t w))) = Done /\
  fired (drain (fst (cancel (fst (trigger t w))))) = now w :: fired w.
Proof.
  destruct w as [c tt tm tos tks nh sl fd]. cbn in Hdue, Hidle, Hnew.
  destruct Hidle as [-> ->].
  assert (Hd : (t - c <? 1) = true) by (apply Z.ltb_lt; lia).
  unfold arm, trigger, cancel. cbn [triggerTime]. rewrite Hnew.
  cbn [timer set_triggerTime]. unfold schedule. cbn [now set_triggerTime]. rewrite Hd.
  cbn. repeat split.
Qed.

(** With punctual timeouts, a wait of [k] maximal delays and [r] more. *)
Lemma punctual_schedule (r : Z) (k : nat) :
  1 <= r <= MAX_TIMEOUT ->
  forall (c : Z) (tt : option Z) (tm : option nat) (nh : nat) (sl fd : list Z),
    let t := c + Z.of_nat k * MAX_TIMEOUT + r in
    let w := run (fun _ => 0) (S k)
               (drain (schedule t (mkWorld c tt tm [] [] nh sl fd))) in
    fired w = t :: fd /\ sleeps w = r :: repeat MAX_TIMEOUT k ++ sl /\
    timeouts w = [] /\ ticks w = [] /\ triggerTime w = None /\ timer w = None.
Proof.
  intros Hr. induction k as [| k IH]; intros c tt tm nh sl fd t w.
  - subst w t. cbn [Z.of_nat Z.mul]. rewrite Z.add_0_r.
    unfold schedule. cbn [now].
    replace (c + r - c) with r by lia.
    assert (H1 : (r <? 1) = false) by (apply Z.ltb_ge; lia).
    assert (H2 : (MAX_TIMEOUT <? r) = false) by (apply Z.ltb_ge; lia).
    assert (H3 : (1 <=? r) && (r <=? MAX_TIMEOUT) = true).
    { apply andb_true_intro. split; apply Z.leb_le; lia. }
    rewrite H1, H2. cbn. rewrite H3. cbn.
    rewrite Z.add_0_r. repeat split.
  - assert (Ht : t = (c + MAX_TIMEOUT) + Z.of_nat k * MAX_TIMEOUT + r) by (subst t; lia).
    specialize (IH (c + MAX_TIMEOUT) tt (Some nh) (S nh) (MAX_TIMEOUT :: sl) fd).
    cbv zeta in IH. rewrite <- Ht in IH.
    assert (H1 : (t - c <? 1) = false) by (apply Z.ltb_ge; unfold MAX_TIMEOUT in *; lia).
    assert (H2 : (MAX_TIMEOUT <? t - c) = true) by (apply Z.ltb_lt; unfold MAX_TIMEOUT in *; lia).
    subst w.
    change (run (fun _ : nat => 0) (S (S k))
              (drain (schedule t (mkWorld c tt tm [] [] nh sl fd))))
      with (run (fun _ : nat => 0) (S k)
              (fire 0 (drain (schedule t (mkWorld c tt tm [] [] nh sl fd))))).
    assert (Hfire :
      fire 0 (drain (schedule t (mkWorld c tt tm [] [] nh sl fd))) =
      drain (schedule t (mkWorld (c + MAX_TIMEOUT) tt (Some nh) [] [] (S nh)
                           (MAX_TIMEOUT :: sl) fd))).
    { unfold schedule at 1. cbn [now]. rewrite H1, H2. cbn.
      rewrite Z.add_0_r. reflexivity. }
    rewrite Hfire.
    destruct IH as (Hf & Hs & Hrest).
    split; [exact Hf |]. split; [| exact Hrest].
    rewrite Hs. cbn [repeat]. rewrite repeat_cons, <- app_assoc. reflexivity.
Qed.

(** X7: with punctual timeouts, on a timer that holds no timeout, a wait
    of [k] times [MAX_TIMEOUT] plus [r] milliseconds, [1 <= r <=
    MAX_TIMEOUT], takes exactly [k + 1] timeouts: [k] of [MAX_TIMEOUT] and
    a last one of [r]. The callback runs once, at the instant asked for,
    nothing fires afterwards, and the timer is idle again, ready to be
    triggered anew. *)
Theorem punctual_chunks (k : nat) (r : Z) (w0 : world)
  (Hr : 1 <= r <= MAX_TIMEOUT)
  (Hidle : timer w0 = None /\ timeouts w0 = [] /\ ticks w0 = [])
  (Hnew : same_instant (triggerTime w0) (now w0 + Z.of_nat k * MAX_TIMEOUT + r) = false) :
  let t := now w0 + Z.of_nat k * MAX_TIMEOUT + r in
  let w := run (fun _ => 0) (S k) (arm t w0) in
  fired w = t :: fired w0 /\
  sleeps w = r :: repeat MAX_TIMEOUT k ++ sleeps w0 /\
  timeouts w = [] /\ ticks w = [] /\ timer w = None /\ triggerTime w = None /\
  (forall m, run (fun _ => 0) (S k + m) (arm t w0) = w).
Proof.
  destruct w0 as [c tt tm tos tks nh sl fd]. cbn in Hidle, Hnew.
  cbv zeta. cbn [now fired sleeps].
  destruct Hidle as (-> & -> & ->).
  destruct (punctual_schedule r k Hr c (Some (c + Z.of_nat k * MAX_TIMEOUT + r)) None nh sl fd)
    as (Hf & Hs & Hto & Hti & Htt & Htm).
  assert (Harm : arm (c + Z.of_nat k * MAX_TIMEOUT + r) (mkWorld c tt None [] [] nh sl fd) =
                 drain (schedule (c + Z.of_nat k * MAX_TIMEOUT + r)
                          (mkWorld c (Some (c + Z.of_nat k * MAX_TIMEOUT + r)) None [] [] nh sl fd))).
  { unfold arm, trigger. cbn [triggerTime]. rewrite Hnew. reflexivity. }
  rewrite Harm.
  split; [exact Hf |]. split; [exact Hs |]. split; [exact Hto |].
  split; [exact Hti |]. split; [exact Htm |]. split; [exact Htt |].
  intros m. rewrite (run_add (fun _ => 0) (S k) m). apply run_idle. exact Hto.
Qed.

(** X8: once [trigger(t)] has set a timeout, the timer cannot be changed:
    [trigger] for another instant and [cancel()] both throw, because the
    stored Timeout has no [clearTimeout] method, and both leave the timeout
    pending, so the callback still runs at [t]. *)
Theorem armed_timer_rejects_change (t t' late : Z) (w0 : world)
  (Hnear : 1 <= t - now w0 <= MAX_TIMEOUT)
  (Hidle : timer w0 = None /\ timeouts w0 = [] /\ ticks w0 = [])
  (Hnew : same_instant (triggerTime w0) t = false)
  (Hother : t' <> t) :
  let w := arm t w0 in
  (exists msg, snd (trigger t' w) = Throws msg) /\
  (exists msg, snd (cancel w) = Throws msg) /\
  timeouts (fst (trigger t' w)) = timeouts w /\
  timeouts (fst (cancel w)) = timeouts w /\
  timeouts w <> [] /\
  fired (fire late (drain (fst (trigger t' w)))) = (t + late) :: fired w0 /\
  fired (fire late (drain (fst (cancel w)))) = (t + late) :: fired w0.
Proof.
  destruct w0 as [c tt tm tos tks nh sl fd]. cbn in Hnear, Hidle, Hnew |- *.
  destruct Hidle as (-> & -> & ->).
  assert (H1 : (t - c <? 1) = false) by (apply Z.ltb_ge; lia).
  assert (H2 : (MAX_TIMEOUT <? t - c) = false) by (apply Z.ltb_ge; lia).
  assert (H3 : (1 <=? t - c) && (t - c <=? MAX_TIMEOUT) = true).
  { apply andb_true_intro. split; apply Z.leb_le; lia. }
  assert (H4 : (t =? t') = false) by (apply Z.eqb_neq; congruence).
  assert (Harm : arm t (mkWorld c tt None [] [] nh sl fd) =
                 mkWorld c (Some t) (Some nh) [(nh, (t, Func))] [] (S nh)
                   ((t - c) :: sl) fd).
  { unfold arm, trigger. cbn [triggerTime]. rewrite Hnew.
    cbn [timer set_triggerTime fst]. unfold schedule. cbn [now set_triggerTime].
    rewrite H1, H2. cbn. rewrite H3. cbn.
    now replace (c + (t - c)) with t by lia. }
  cbv zeta. rewrite Harm. unfold trigger, cancel.
  cbn [triggerTime same_instant timer set_triggerTime]. rewrite H4.
  cbn. repeat split; eauto. discriminate.
Qed.

End TimerEdges.

(** An instant five milliseconds in the past. *)
Lemma trigger_due_runs_at_once_witness :
  Timer.fired (Timer.arm 5 (Timer.fresh 10)) = [10] /\
  Timer.sleeps (Timer.arm 5 (Timer.fresh 10)) = [].
Proof.
  destruct (trigger_due_runs_at_once 5 (Timer.fresh 10) ltac:(cbn; lia)
              ltac:(split; reflexivity) ltac:(reflexivity))
    as (Hf & _ & Hs & _).
  split; [exact Hf | exact Hs].
Defined.

(** Two maximal delays and five milliseconds. *)
Lemma punctual_chunks_witness :
  Timer.sleeps (Timer.run (fun _ => 0) 3
                  (Timer.arm (2 * Timer.MAX_TIMEOUT + 5) (Timer.fresh 0))) =
    [5; Timer.MAX_TIMEOUT; Timer.MAX_TIMEOUT].
Proof.
  destruct (punctual_chunks 2 5 (Timer.fresh 0) ltac:(unfold Timer.MAX_TIMEOUT; lia)
              ltac:(repeat split) ltac:(reflexivity))
    as (_ & Hs & _).
  exact Hs.
Defined.

(** A timer armed for 100 ms ahead, then asked for 200 and cancelled. *)
Lemma armed_timer_rejects_change_witness :
  Timer.fired (Timer.fire 0 (Timer.drain (fst (Timer.cancel (Timer.arm 100 (Timer.fresh 0))))))
    = [100].
Proof.
  destruct (armed_timer_rejects_change 100 200 0 (Timer.fresh 0)
              ltac:(cbn; unfold Timer.MAX_TIMEOUT; lia) ltac:(repeat split)
              ltac:(reflexivity) ltac:(discriminate))
    as (_ & _ & _ & _ & _ & _ & Hf).
  exact Hf.
Defined.

(** ** queue.js: errors of a transaction, and the callback of enqueue *)

Section QueueEdges.

Import Toolbox MessageId Queue Loop.

Variable en : endianness.

(** X9: [firstRedisError] returns nothing exactly when the array holds no
    error; when it holds several, the one returned is the last of the
    array, since the loop runs from the end. *)
Theorem firstRedisError_last (arr : list item) :
  (firstRedisError arr = None <-> forall e, ~ In (Err e) arr) /\
  (forall pre e post,
     arr = pre ++ Err e :: post -> (forall e', ~ In (Err e') post) ->
     firstRedisError arr = Some e).
Proof.
  split.
  - split.
    + intros Hnone e He.
      destruct (firstRedisError_Some arr (ex_intro _ e He)) as (error & j & Hf & _).
      congruence.
    + apply firstRedisError_None.
  - intros pre e post -> Hpost.
    destruct (firstRedisError_Some (pre ++ Err e :: post)) as (error & j & Hf & Hnth & Hlast).
    { exists e. apply in_or_app. right. now left. }
    rewrite Hf. f_equal.
    assert (Hhere : nth_error (pre ++ Err e :: post) (List.length pre) = Some (Err e)).
    { rewrite nth_error_app2 by lia. now rewrite Nat.sub_diag. }
    destruct (Nat.lt_trichotomy j (List.length pre)) as [Hlt | [-> | Hgt]].
    + exfalso. exact (Hlast _ e Hlt Hhere).
    + congruence.
    + exfalso. rewrite nth_error_app2 in Hnth by lia.
      destruct (j - List.length pre)%nat as [| m] eqn:Hm; [lia |].
      cbn [nth_error] in Hnth. apply nth_error_In in Hnth. exact (Hpost _ Hnth).
Qed.

Lemma enqueue_sends (time : number) (text : string) (n : nat) (st : state) :
  exists cmds,
    enqueue en time text n st =
      (st, [Db (Multi cmds) (K_enqueue (getMessageId en time text) n)]).
Proof.
  unfold enqueue.
  replace (publish_command en (Num time))
    with (@inl command error (PUBLISH NEXT_DUE_TIME_CHANNEL (writeDouble en time)))
    by reflexivity.
  destruct (negb (upToDate st) || eq_null (nextDueTime st)
            || lt time (ToNumber (nextDueTime st))); eauto.
Qed.

Lemma logs_do_nothing (n : nat) (es : list effect) :
  forallb is_log es = true ->
  ticks es = [] /\ konts es = [] /\ sleepers es = [] /\
  callbacks n es = [] /\ existsb is_throw es = false.
Proof.
  induction es as [| x es IH]; [repeat split |].
  cbn [forallb]. intros H. apply andb_prop in H as [Hx Hes].
  destruct x; try discriminate Hx. cbn. now apply IH.
Qed.

Lemma rollback_calls_back (error : string) (n : nat) (r : reply) (now : number)
  (st : state) :
  exists logs,
    forallb is_log logs = true /\
    resume en (K_rollback error n) r now st =
      (st, logs ++ [EnqueueCallback n (Some error)]).
Proof.
  destruct r; [exists [Log "Could not rollback the write operations."] | exists [] ..];
    split; reflexivity.
Qed.

Lemma clean_exec_calls_back (id : string) (n : nat) (rs : list item) (now : number)
  (st : state) :
  firstRedisError rs = None ->
  exists logs,
    forallb is_log logs = true /\
    resume en (K_enqueue id n) (Results rs) now st =
      (st, logs ++ [EnqueueCallback n None]).
Proof.
  intros Hf. cbn [resume]. rewrite Hf.
  destruct (nth_error rs 1) as [[| s | [| [p | p |] | p] | e] |];
    first [ exists []; split; reflexivity
          | exists [Log "Message was already present in the database."];
            split; reflexivity ].
Qed.

(** X10: a call of [enqueue] on a replica with nothing else under way.
    When the transaction is answered with an error or with the array of
    its results, the callback is called exactly once, whatever that answer
    and, when a rollback is sent, whatever the answer to the rollback; it
    receives no error exactly when the transaction ran and none of its
    operations reports an error; no callback is left waiting and nothing
    is thrown. When the transaction is answered with null, as the [exec]
    of a [multi()] is when a key watched on the connection has changed,
    [firstRedisError] throws on it and the callback is never called. The
    variables of the module are left as they were in every case. *)
Theorem enqueue_calls_back_once (time : number) (text : string) (n : nat) (st : state)
  (t0 t1 t2 : number) (r1 r2 : reply)
  (Hshape : fits (K_enqueue (getMessageId en time text) n) r1 = true) :
  let w := run en (mkWorld st [] [] [])
             [(t0, E_enqueue time text n); (t1, E_reply r1); (t2, E_reply r2)] in
  vars w = st /\ waiting w = [] /\
  if exec_reply r1
  then exists outcome,
         callbacks n (trace w) = [outcome] /\
         (outcome = None <-> exists rs, r1 = Results rs /\ forall e, ~ In (Err e) rs) /\
         existsb is_throw (trace w) = false
  else r1 = Value None /\
       callbacks n (trace w) = [] /\
       existsb is_throw (trace w) = true.
Proof.
  destruct (enqueue_sends time text n st) as (cmds & Hsend).
  set (id := getMessageId en time text) in *.
  assert (W1 : step en (mkWorld st [] [] []) (t0, E_enqueue time text n) =
               mkWorld st [K_enqueue id n] [] [Db (Multi cmds) (K_enqueue id n)]).
  { unfold step. cbn [fst snd vars]. rewrite Hsend. reflexivity. }
  cbv zeta. rewrite !run_cons, W1. cbn [run fold_left].
  destruct r1 as [e | [o |] | l | rs]; try discriminate Hshape; cbn [exec_reply].
  - rewrite (step_reply en _ _ _ _ _ st _ _ [EnqueueCallback n (Some e)]);
      [| reflexivity | reflexivity].
    cbn. rewrite Nat.eqb_refl. repeat split.
    exists (Some e). repeat split; try discriminate.
    intros (rs & H & _). discriminate H.
  - rewrite (step_reply en _ _ _ _ _ st _ _ [Throw "TypeError"]);
      [| reflexivity | reflexivity].
    cbn. repeat split.
  - destruct (firstRedisError rs) as [error |] eqn:Hf.
    + rewrite (step_reply en _ _ _ _ _ st _ _ [Db (rollback id) (K_rollback error n)]);
        [| cbn [resume]; rewrite Hf; reflexivity | reflexivity].
      cbn [app konts sleepers flat_map].
      destruct (rollback_calls_back error n r2 t2 st) as (logs & Hlogs & Hr2).
      destruct (logs_do_nothing n logs Hlogs) as (Ht & Hk & Hs & Hc & Hth).
      rewrite (step_reply en _ _ _ _ _ st _ _ _ Hr2);
        [| unfold ticks in *; rewrite flat_map_app, Ht; reflexivity].
      cbn [trace vars waiting].
      unfold konts, callbacks in *. rewrite !flat_map_app, Hk.
      cbn [flat_map app]. rewrite ?flat_map_app, Hc. cbn [flat_map app].
      rewrite Nat.eqb_refl. cbn [app].
      split; [reflexivity |]. split; [reflexivity |].
      exists (Some error).
      repeat split; try discriminate.
      * intros (rs' & [= <-] & Hno).
        rewrite (firstRedisError_None rs Hno) in Hf. discriminate Hf.
      * cbn [existsb is_throw orb]. rewrite ?existsb_app, Hth. reflexivity.
    + assert (Hno : forall e, ~ In (Err e) rs).
      { intros e He.
        destruct (firstRedisError_Some rs (ex_intro _ e He)) as (error & j & Hf' & _).
        congruence. }
      destruct (clean_exec_calls_back id n rs t1 st Hf) as (logs & Hlogs & Hout).
      destruct (logs_do_nothing n logs Hlogs) as (Ht & Hk & Hs & Hc & Hth).
      rewrite (step_reply en _ _ _ _ _ st _ _ _ Hout);
        [| unfold ticks in *; rewrite flat_map_app, Ht; reflexivity].
      unfold konts, callbacks in *. rewrite !flat_map_app, Hk.
      cbn [flat_map app step snd waiting trace vars].
      rewrite ?flat_map_app, Hc. cbn [flat_map app].
      rewrite Nat.eqb_refl. cbn [app].
      split; [reflexivity |]. split; [reflexivity |].
      exists None.
      repeat split; eauto.
      cbn [existsb is_throw orb]. rewrite ?existsb_app, Hth. reflexivity.
Qed.

(** What a call of [setNextDueTime] with a Number does. *)
Lemma setNextDueTime_number (time now : number) (st : state) :
  let t := sub time (mul (of_Z 3) (latency st)) in
  let r := setNextDueTime (Num time) now st in
  nextDueTime (fst r) = Num time /\ upToDate (fst r) = true /\
  if negb (isFinite t) then
    snd r = [Throw "TypeError: A finite number was expected."] /\
    triggerTime (fst r) = triggerTime st /\ timerStored (fst r) = timerStored st
  else if same_instant (triggerTime st) t then
    snd r = [] /\
    triggerTime (fst r) = triggerTime st /\ timerStored (fst r) = timerStored st
  else
    triggerTime (fst r) = Some t /\
    if timerStored st then
      snd r = [Throw "TypeError: this.timer.clearTimeout is not a function"] /\
      timerStored (fst r) = true
    else if lt (sub t now) (of_Z 1) then
      snd r = [NextTick TimerFunc] /\ timerStored (fst r) = false
    else snd r = [TimerTrigger t] /\ timerStored (fst r) = true.
Proof.
  cbv zeta. unfold setNextDueTime, timer_trigger, mustBeNumber.
  cbn [eq_null ToNumber andb triggerTime timerStored latency].
  destruct (isFinite (sub time (mul (of_Z 3) (latency st)))); cbn [negb];
    [| repeat split].
  destruct (same_instant (triggerTime st) _); [repeat split |].
  destruct (timerStored st) eqn:Hs; [cbn; rewrite ?Hs; repeat split |].
  destruct (lt _ (of_Z 1)); cbn; rewrite ?Hs; repeat split.
Qed.

Lemma on_message_number (time now : number) (st : state) :
  is_number time = true ->
  on_message en (writeDouble en time) now st = setNextDueTime (Num time) now st.
Proof.
  intros Hnum. unfold on_message, bufferToNumber.
  rewrite (readDouble_writeDouble en time Hnum).
  assert (Hlen : List.length (writeDouble en time) = 8%nat) by apply word_bytes_length.
  destruct (writeDouble en time); [discriminate Hlen | reflexivity].
Qed.

(** X11: the payload [enqueue] publishes is the submitted time: a replica
    that receives it on the channel, the sender included, takes the time
    as its next due time and holds itself up to date, and then asks its
    timer for the instant three latencies before that time. The timer
    throws when that instant is not finite, does nothing when it is the
    instant already asked for, and otherwise stores it: then it throws
    when it holds a timeout, gives [inspectQueue] to the next tick when
    the instant is less than a millisecond ahead, and goes to sleep until
    the instant in the remaining case. *)
Theorem published_time_comes_back
  (time : number) (text : string) (n : nat) (st st' : state) (now : number)
  (cmds : list command) (k : kont) (payload : buffer)
  (Hnum : is_number time = true)
  (Hsent : enqueue en time text n st = (st, [Db (Multi cmds) k]))
  (Hpub : In (PUBLISH NEXT_DUE_TIME_CHANNEL payload) cmds) :
  let t := sub time (mul (of_Z 3) (latency st')) in
  let r := on_message en payload now st' in
  nextDueTime (fst r) = Num time /\ upToDate (fst r) = true /\
  if negb (isFinite t) then
    snd r = [Throw "TypeError: A finite number was expected."] /\
    triggerTime (fst r) = triggerTime st' /\ timerStored (fst r) = timerStored st'
  else if same_instant (triggerTime st') t then
    snd r = [] /\
    triggerTime (fst r) = triggerTime st' /\ timerStored (fst r) = timerStored st'
  else
    triggerTime (fst r) = Some t /\
    if timerStored st' then
      snd r = [Throw "TypeError: this.timer.clearTimeout is not a function"] /\
      timerStored (fst r) = true
    else if lt (sub t now) (of_Z 1) then
      snd r = [NextTick TimerFunc] /\ timerStored (fst r) = false
    else snd r = [TimerTrigger t] /\ timerStored (fst r) = true.
Proof.
  assert (Hp : payload = writeDouble en time).
  { unfold enqueue in Hsent.
    replace (publish_command en (Num time))
      with (@inl command error (PUBLISH NEXT_DUE_TIME_CHANNEL (writeDouble en time)))
      in Hsent by reflexivity.
    destruct (negb (upToDate st) || eq_null (nextDueTime st)
              || lt time (ToNumber (nextDueTime st)));
      injection Hsent as <- _; cbn in Hpub;
      repeat (destruct Hpub as [Hpub | Hpub]; try discriminate Hpub);
      try contradiction.
    now injection Hpub. }
  subst payload. cbv zeta. rewrite (on_message_number time now st' Hnum).
  exact (setNextDueTime_number time now st').
Qed.

(** X12: at the end of a pass the replica publishes the minimum it reads.
    For an empty queue the payload is empty, and a replica that receives it
    forgets its due time, holds itself up to date and cancels its timer,
    which throws when the timer holds a timeout. Otherwise the payload is
    the eight bytes of the first score, and a replica that receives it
    takes that score as its next due time, holds itself up to date and
    asks its timer for the instant three latencies before it: the timer
    throws when that instant is not finite, does nothing when it is the
    instant already asked for, and otherwise stores it: then it throws
    when it holds a timeout, gives [inspectQueue] to the next tick when
    the instant is less than a millisecond ahead, and goes to sleep until
    the instant in the remaining case. *)
Theorem republished_minimum_comes_back
  (rs : list string) (now now' : number) (st st' : state) :
  exists payload,
    resume en K_minimum (Strings rs) now st =
      (st, [Db (Multi [PUBLISH NEXT_DUE_TIME_CHANNEL payload]) K_publish]) /\
    let r := on_message en payload now' st' in
    match rs with
    | [] =>
        payload = [] /\
        nextDueTime (fst r) = Null /\ upToDate (fst r) = true /\
        triggerTime (fst r) = None /\ timerStored (fst r) = timerStored st' /\
        snd r = if timerStored st'
                then [Throw "TypeError: this.timer.clearTimeout is not a function"]
                else [TimerCancel]
    | _ :: _ =>
        let minimum := parseInt (nth_error rs 1) in
        let t := sub minimum (mul (of_Z 3) (latency st')) in
        is_number minimum = true ->
        nextDueTime (fst r) = Num minimum /\ upToDate (fst r) = true /\
        if negb (isFinite t) then
          snd r = [Throw "TypeError: A finite number was expected."] /\
          triggerTime (fst r) = triggerTime st' /\
          timerStored (fst r) = timerStored st'
        else if same_instant (triggerTime st') t then
          snd r = [] /\
          triggerTime (fst r) = triggerTime st' /\
          timerStored (fst r) = timerStored st'
        else
          triggerTime (fst r) = Some t /\
          if timerStored st' then
            snd r = [Throw "TypeError: this.timer.clearTimeout is not a function"] /\
            timerStored (fst r) = true
          else if lt (sub t now') (of_Z 1) then
            snd r = [NextTick TimerFunc] /\ timerStored (fst r) = false
          else snd r = [TimerTrigger t] /\ timerStored (fst r) = true
    end.
Proof.
  destruct rs as [| id rs'].
  - exists []. split; [reflexivity |]. cbv zeta.
    unfold on_message, bufferToNumber, setNextDueTime, timer_cancel.
    cbn [eq_null timerStored]. destruct (timerStored st') eqn:Hs; cbn; rewrite ?Hs; repeat split.
  - exists (writeDouble en (parseInt (nth_error (id :: rs') 1))).
    split; [reflexivity |]. cbv zeta.
    generalize (parseInt (nth_error (id :: rs') 1)). intros minimum Hnum.
    rewrite (on_message_number minimum now' st' Hnum).
    exact (setNextDueTime_number minimum now' st').
Qed.

End QueueEdges.

Import Toolbox MessageId Queue.

(** A failed [set] followed by a failed [zadd]: the error of the [zadd]. *)
Lemma firstRedisError_last_witness :
  firstRedisError [Err "first"%string; Err "second"%string; Int 0] =
    Some "second"%string.
Proof.
  destruct (firstRedisError_last [Err "first"%string; Err "second"%string; Int 0])
    as [_ H].
  apply (H [Err "first"%string] "second"%string [Int 0]); [reflexivity |].
  intros e' [He | []]. discriminate He.
Defined.

(** A transaction whose [zadd] fails, and a rollback that fails too. *)
Lemma enqueue_calls_back_once_witness :
  exists outcome,
    Loop.callbacks 7
      (trace (run LE (mkWorld initial [] [] [])
                [(of_Z 10, E_enqueue (of_Z 5000) "hello"%string 7);
                 (of_Z 11, E_reply (Results [Bulk "OK"%string; Err "WRONGTYPE"%string]));
                 (of_Z 12, E_reply (Failure "closed"%string))])) = [outcome] /\
    outcome <> None.
Proof.
  destruct (enqueue_calls_back_once LE (of_Z 5000) "hello"%string 7 initial
              (of_Z 10) (of_Z 11) (of_Z 12)
              (Results [Bulk "OK"%string; Err "WRONGTYPE"%string])
              (Failure "closed"%string) eq_refl)
    as (_ & _ & Hcase).
  cbn [exec_reply] in Hcase. destruct Hcase as (outcome & Hc & Hiff & _).
  exists outcome. split; [exact Hc |].
  intros Hnone. apply Hiff in Hnone as (rs & [= <-] & Hno).
  apply (Hno "WRONGTYPE"%string). right. now left.
Defined.

(** A replica that is not up to date enqueues a message for 5000, and a
    replica whose timer is idle receives the publication at 10. *)
Lemma published_time_comes_back_witness :
  nextDueTime (fst (on_message LE (writeDouble LE (of_Z 5000)) (of_Z 10) initial)) =
    Num (of_Z 5000) /\
  snd (on_message LE (writeDouble LE (of_Z 5000)) (of_Z 10) initial) =
    [TimerTrigger (sub (of_Z 5000) (mul (of_Z 3) (of_Z 0)))].
Proof.
  pose proof (published_time_comes_back LE (of_Z 5000) "hello"%string 0 initial
           initial (of_Z 10)
           [SET (CONTENT_PREFIX ++ getMessageId LE (of_Z 5000) "hello") "hello";
            ZADD QUEUE (of_Z 5000) (getMessageId LE (of_Z 5000) "hello");
            PUBLISH NEXT_DUE_TIME_CHANNEL (writeDouble LE (of_Z 5000))]%string
           (K_enqueue (getMessageId LE (of_Z 5000) "hello"%string) 0)
           (writeDouble LE (of_Z 5000))
           ltac:(reflexivity) ltac:(vm_compute; reflexivity)
           ltac:(right; right; left; reflexivity)) as H.
  cbv zeta in H. destruct H as (Hdue & _ & Htimer).
  split; [exact Hdue |].
  exact (proj1 (proj2 Htimer)).
Defined.

(** A queue whose first entry is due at 1000, and a receiver whose timer
    holds a timeout for 5000. *)
Lemma republished_minimum_comes_back_witness :
  exists payload,
    resume LE K_minimum (Strings ["a"; "1000"]%string) (of_Z 0) armed =
      (armed, [Db (Multi [PUBLISH NEXT_DUE_TIME_CHANNEL payload]) K_publish]) /\
    nextDueTime (fst (on_message LE payload (of_Z 10) Samples.informed)) =
      Num (of_Z 1000) /\
    snd (on_message LE payload (of_Z 10) Samples.informed) =
      [Throw "TypeError: this.timer.clearTimeout is not a function"].
Proof.
  destruct (republished_minimum_comes_back LE ["a"; "1000"]%string (of_Z 0)
              (of_Z 10) armed Samples.informed)
    as (payload & Hsend & Hback).
  exists payload. split; [exact Hsend |].
  cbv zeta in Hback. destruct (Hback eq_refl) as (Hdue & _ & Htimer).
  split; [exact Hdue |].
  exact (proj1 (proj2 Htimer)).
Defined.

(** Case analysis on the tests of a callback, innermost first. *)
Ltac simplify_turn :=
  cbn -[parseInt Math_max PROCESSING_RETRY_DELAY PROCESSING_WINDOW writeDouble
        sub mul of_Z Nat.ltb String.append getMessageId lt firstRedisError
        nth_error bufferToNumber isFinite same_instant valid_date].

Ltac split_turn :=
  match goal with
  | |- context [match firstRedisError ?l with _ => _ end] =>
      destruct (firstRedisError l) eqn:?
  | |- context [match nth_error ?l ?n with _ => _ end] =>
      destruct (nth_error l n) eqn:?
  | |- context [match bufferToNumber ?e ?l with _ => _ end] =>
      destruct (bufferToNumber e l) eqn:?
  | |- context [match ?x with _ => _ end] => is_var x; destruct x
  | |- context [if ?b then _ else _] =>
      lazymatch b with context [fold_left] => fail | _ => idtac end;
      destruct b eqn:?
  end.

Ltac every_turn := repeat (simplify_turn; split_turn); simplify_turn.

Ltac tally :=
  unfold Loop.count in *;
  rewrite ?app_nil_r, ?filter_app, ?length_app; simplify_turn; try lia.

Ltac open_turn :=
  unfold settle, absorb, run_task, resume, on_message, enqueue, on_sub_end,
    c, cb, dequeue_at, tryDequeuing, setNextDueTime, timer_trigger, timer_cancel,
    timer_func, inspectQueue, actuallyInspectQueue, getBatch, after,
    publish_command, mustBeNumber.

(** ** queue.js: the callback of setUp, and a pass that is asked to resume *)

Section QueueRuns.

Import Toolbox MessageId Queue Loop.

Variable en : endianness.

(** Only the callback of [obtainNextDueTime] calls the callback of
    [setUp]: with the error of a failed read, or without error, and then
    it lets go of it. *)
Lemma resume_setups (k : kont) (r : reply) (now : number) (st : state) :
  let res := resume en k r now st in
  (setups (snd res) = [] /\ setupCallback (fst res) = setupCallback st) \/
  (setupCallback st = true /\
   ((exists e, setups (snd res) = [Some e] /\ setupCallback (fst res) = true) \/
    (setups (snd res) = [None] /\ setupCallback (fst res) = false))).
Proof.
  destruct st as [la nd up ins res sc tt ts].
  destruct k; destruct r as [e | [s |] | rs | rs]; cbv zeta; open_turn;
    every_turn; eauto 6.
Qed.

Lemma run_task_setups (t : task) (now : number) (st : state) :
  setups (snd (run_task t now st)) = [] /\
  setupCallback (fst (run_task t now st)) = setupCallback st.
Proof.
  destruct st as [la nd up ins res sc tt ts].
  destruct t; open_turn; every_turn; auto.
Qed.

Lemma setups_app (es es' : list effect) : setups (es ++ es') = setups es ++ setups es'.
Proof. unfold setups. apply flat_map_app. Qed.

Lemma settle_setups (r : state * list effect) (now : number) (w : world) :
  setups (trace (settle r now w)) = setups (trace w) ++ setups (snd r) /\
  setupCallback (vars (settle r now w)) = setupCallback (fst r).
Proof.
  unfold settle.
  assert (H : forall ts w',
            setups (trace (fold_left (fun w' t => absorb (run_task t now (vars w')) w')
                             ts w')) = setups (trace w') /\
            setupCallback (vars (fold_left (fun w' t => absorb (run_task t now (vars w')) w')
                                   ts w')) = setupCallback (vars w')).
  { induction ts as [| t ts IH]; intros w'; [split; reflexivity |].
    cbn [fold_left]. destruct (IH (absorb (run_task t now (vars w')) w')) as [H1 H2].
    rewrite H1, H2. unfold absorb. cbn [trace vars].
    destruct (run_task_setups t now (vars w')) as [H3 H4].
    rewrite setups_app, H3, H4, app_nil_r. split; reflexivity. }
  destruct (H (ticks (snd r)) (absorb r w)) as [H1 H2].
  rewrite H1, H2. unfold absorb. cbn [trace vars]. now rewrite setups_app.
Qed.

Lemma bootstrap_run (flag0 : bool) (evs : list (number * reply)) :
  forall (w : world) (errors : list string),
    setups (trace w) = (if flag0
                        then map Some errors ++ (if setupCallback (vars w) then [] else [None])
                        else []) ->
    (flag0 = false -> setupCallback (vars w) = false) ->
    let w' := run en w (map (fun x => (fst x, E_reply (snd x))) evs) in
    exists errors',
      setups (trace w') =
        (if flag0
         then map Some errors' ++ (if setupCallback (vars w') then [] else [None])
         else []).
Proof.
  induction evs as [| [now r] evs IH]; intros w errors Htr Hflag.
  - exists errors. exact Htr.
  - cbn [map fst snd]. cbv zeta. rewrite run_cons.
    unfold step. cbn [fst snd].
    destruct (waiting w) as [| k rest] eqn:Hw; [exact (IH w errors Htr Hflag) |].
    set (w0 := mkWorld (vars w) rest (timeouts w) (trace w)).
    destruct (settle_setups (resume en k r now (vars w)) now w0) as [Hs Hc].
    cbn [trace w0] in Hs.
    destruct (resume_setups k r now (vars w))
      as [[H1 H2] | [Hheld [(e & H1 & H2) | [H1 H2]]]]; cbv zeta in H1, H2.
    + apply (IH _ errors).
      * rewrite Hs, Hc, H1, H2, app_nil_r. exact Htr.
      * intros Hf. rewrite Hc, H2. now apply Hflag.
    + destruct flag0; [| rewrite (Hflag eq_refl) in Hheld; discriminate Hheld].
      apply (IH _ (errors ++ [e])).
      * rewrite Hs, Hc, H1, H2, Htr, Hheld, map_app, !app_nil_r. reflexivity.
      * discriminate.
    + destruct flag0; [| rewrite (Hflag eq_refl) in Hheld; discriminate Hheld].
      apply (IH _ errors).
      * rewrite Hs, Hc, H1, H2, Htr, Hheld, !app_nil_r. reflexivity.
      * discriminate.
Qed.

(** X13: however many times the next due time is read at start-up and
    after reconnections, and whatever the replies, the callback of [setUp]
    receives the errors of the failed reads, then at most one call without
    error, and nothing after it; that call has taken place exactly when the
    callback is no longer held. When [setUp] was given no callback, none is
    ever called. *)
Theorem setup_signalled_once (st : state) (befores : list number)
  (evs : list (number * reply)) :
  let w := run en (mkWorld st (map K_obtainNextDueTime befores) [] [])
             (map (fun x => (fst x, E_reply (snd x))) evs) in
  exists errors,
    setups (trace w) =
      (if setupCallback st
       then map Some errors ++ (if setupCallback (vars w) then [] else [None])
       else []).
Proof.
  apply (bootstrap_run (setupCallback st) evs
           (mkWorld st (map K_obtainNextDueTime befores) [] []) []).
  - cbn [trace vars]. destruct (setupCallback st); reflexivity.
  - intros H. exact H.
Qed.

(** X14: when a resumption has been asked for, the reply that ends the
    work on the current entry, or brings a batch, ends the pass at once: a
    message whose content has just arrived, and whose date [doTask] can
    print, is still printed and its cleanup sent, the rest of the batch is
    dropped, no retry is scheduled, both flags are reset, and on the next
    tick a new pass starts from the low end of the queue with
    [Math.max(nextDueTime, Date.now())] as its cutoff. *)
Theorem resumption_restarts_pass (k : kont) (r : reply) (now : number) (st : state)
  (rest : list kont) (tos : list task) (tr : list effect)
  (Hres : resumeInspection st = true)
  (Hend : ends_entry k r = true) :
  let cutoff := Math_max (nextDueTime st) (Num now) in
  step en (mkWorld st (k :: rest) tos tr) (now, E_reply r) =
    mkWorld
      (mkState (latency st) (nextDueTime st) (upToDate st) true false (setupCallback st)
         (triggerTime st) (timerStored st))
      (rest ++ konts (entry_effects k r) ++ [K_getBatch cutoff false])
      tos
      (tr ++ entry_effects k r ++
       [NextTick (ActuallyInspectQueue cutoff);
        Db (Single (ZRANGEBYSCORE QUEUE MinusInf (Score cutoff) 0 PROCESSING_BATCH_SIZE))
          (K_getBatch cutoff false)]).
Proof.
  destruct st as [la nd up ins res sc tt ts]. cbn in Hres. subst res.
  cbv zeta. unfold step, settle, absorb.
  cbn [fst snd waiting vars timeouts trace nextDueTime latency upToDate setupCallback
       triggerTime timerStored].
  destruct k; try discriminate Hend;
    destruct r as [e | [s |] | rs | rs]; try discriminate Hend;
    cbn [ends_entry] in Hend; cbn [resume]; rewrite ?Hend;
    cbn -[Math_max]; rewrite ?app_nil_r, <- ?app_assoc; reflexivity.
Qed.

End QueueRuns.

(** A message whose content arrives after the timer has fired again. *)
Lemma resumption_restarts_pass_witness :
  waiting
    (step LE
       (mkWorld (mkState (of_Z 0) (Num (of_Z 1000)) true true true false None false)
          [K_contents "a"%string (of_Z 900)
             (mkBatch (of_Z 1000) false ["a"; "900"; "b"; "950"]%string 0 false)]
          [] [])
       (of_Z 1200, E_reply (Value (Some "hello"%string)))) =
    [K_cleanup; K_getBatch (of_Z 1200) false].
Proof.
  rewrite (resumption_restarts_pass LE
             (K_contents "a"%string (of_Z 900)
                (mkBatch (of_Z 1000) false ["a"; "900"; "b"; "950"]%string 0 false))
             (Value (Some "hello"%string)) (of_Z 1200)
             (mkState (of_Z 0) (Num (of_Z 1000)) true true true false None false)
             [] [] [] eq_refl eq_refl).
  reflexivity.
Defined.

(** ** queue.js: what holds along every run of the event loop *)

Section Guarding.

Import Toolbox MessageId Queue Loop.

Variable en : endianness.




Lemma step_accounted (w : world) (ev : number * event) :
  accounted w -> accounted (step en w ev).
Proof.
  destruct w as [[la nd up ins res sc tt ts] ks tos tr], ev as [now e].
  unfold accounted, step.
  cbn [vars waiting inspectingQueue timerStored fst snd timeouts trace].
  intros (H1 & H2 & H3).
  destruct e as [r | | n | payload | time text cbk |].
  - destruct ks as [| k rest]; [auto |].
    unfold count in H1, H2, H3. cbn [filter] in H1, H2.
    destruct k; cbn [reading reserving List.length] in H1, H2;
      destruct r as [e | [s |] | rs | rs]; open_turn.
    all: every_turn.
    all: tally.
  - open_turn. every_turn; tally.
  - destruct (nth_error tos n) as [[due |] |]; [| | auto]; open_turn;
      every_turn; tally.
  - open_turn. every_turn; tally.
  - open_turn. every_turn; tally.
  - open_turn. every_turn; tally.
Qed.

(** X16: along any run of the event loop, whatever the events and the
    replies, the replica prints no more messages than it has read
    contents, reads no more contents than it has asked for reservations,
    and has sent one cleanup for every message printed. *)
Theorem prints_only_what_it_reserved (w : world) (evs : list (number * event))
  (Hstart : accounted w) :
  let w' := run en w evs in
  (count is_emit (trace w') <= count is_read (trace w'))%nat /\
  (count is_read (trace w') <= count is_reservation (trace w'))%nat /\
  count is_cleanup (trace w') = count is_emit (trace w').
Proof.
  assert (Hacc : accounted (run en w evs)).
  { revert w Hstart. induction evs as [| ev evs IH]; intros w Hw; [exact Hw |].
    rewrite run_cons. apply IH. now apply step_accounted. }
  destruct Hacc as (H1 & H2 & H3). cbv zeta. repeat split; [lia | lia | exact H3].
Qed.

End Guarding.


(** A pass that prints one message. *)
Lemma prints_only_what_it_reserved_witness :
  Loop.count Loop.is_cleanup
    (trace (run LE (mkWorld armed [] [] [])
              [(of_Z 1000, E_timer);
               (of_Z 1001, E_reply (Strings ["a"; "1000"]%string));
               (of_Z 1002, E_reply (Value (Some "OK"%string)));
               (of_Z 1003, E_reply (Value (Some "hello"%string)))])) =
  Loop.count Loop.is_emit
    (trace (run LE (mkWorld armed [] [] [])
              [(of_Z 1000, E_timer);
               (of_Z 1001, E_reply (Strings ["a"; "1000"]%string));
               (of_Z 1002, E_reply (Value (Some "OK"%string)));
               (of_Z 1003, E_reply (Value (Some "hello"%string)))])).
Proof.
  destruct (prints_only_what_it_reserved LE (mkWorld armed [] [] [])
              [(of_Z 1000, E_timer);
               (of_Z 1001, E_reply (Strings ["a"; "1000"]%string));
               (of_Z 1002, E_reply (Value (Some "OK"%string)));
               (of_Z 1003, E_reply (Value (Some "hello"%string)))]
              ltac:(vm_compute; repeat split; lia))
    as (_ & _ & H).
  exact H.
Defined.

(** ** queue.js and the store: submitting a message *)

Section StoreRuns.

Import Toolbox MessageId Queue Loop Redis.

Variable format_score : number -> string.
Variable en : endianness.

Lemma filter_not_member (id : string) (l : list (string * number)) :
  existsb (is_member id) l = false ->
  filter (fun e => negb (is_member id e)) l = l.
Proof.
  induction l as [| e l IH]; cbn [existsb filter]; [reflexivity |].
  intros H. apply orb_false_elim in H as [He Hl].
  rewrite He. cbn [negb]. now rewrite IH.
Qed.

Lemma filter_twice {A} (f : A -> bool) (l : list A) :
  filter f (filter f l) = filter f l.
Proof.
  induction l as [| x l IH]; cbn [filter]; [reflexivity |].
  destruct (f x) eqn:Hx; [cbn [filter]; rewrite Hx, IH; reflexivity | exact IH].
Qed.

(** The transaction [enqueue] sends. *)
Lemma enqueue_commands (time : number) (text : string) (n : nat) (st : state)
  (cmds : list command) (k : kont) :
  enqueue en time text n st = (st, [Db (Multi cmds) k]) ->
  let id := getMessageId en time text in
  k = K_enqueue id n /\
  exists rest,
    cmds = SET (CONTENT_PREFIX ++ id) text :: ZADD QUEUE time id :: rest /\
    (rest = [] \/ rest = [PUBLISH NEXT_DUE_TIME_CHANNEL (writeDouble en time)]).
Proof.
  intros Hsent id. unfold enqueue in Hsent. fold id in Hsent.
  replace (publish_command en (Num time))
    with (@inl command error (PUBLISH NEXT_DUE_TIME_CHANNEL (writeDouble en time)))
    in Hsent by reflexivity.
  destruct (negb (upToDate st) || eq_null (nextDueTime st)
            || lt time (ToNumber (nextDueTime st)));
    injection Hsent as <- <-; split; eauto.
Qed.

(** What that transaction does to the store, and what it answers. *)
Lemma enqueue_store (time : number) (text : string) (n : nat) (st : state)
  (cmds : list command) (k : kont) (now : number) (s s1 : store) (rs : list item) :
  enqueue en time text n st = (st, [Db (Multi cmds) k]) ->
  exec now s cmds = (s1, rs) ->
  let id := getMessageId en time text in
  msgq s1 = (id, time) :: filter (fun e => negb (is_member id e)) (msgq s) /\
  (forall key, keys s1 key =
                 if String.eqb key (CONTENT_PREFIX ++ id) then Some (text, None)
                 else keys s key) /\
  firstRedisError rs = None /\
  nth_error rs 1 = Some (Int (if existsb (is_member id) (msgq s) then 0 else 1)).
Proof.
  intros Hsent Hexec id.
  destruct (enqueue_commands time text n st cmds k Hsent) as (_ & rest & -> & Hrest).
  fold id in Hexec. cbn [exec exec_item put msgq keys] in Hexec.
  destruct (existsb (is_member id) (msgq s)) eqn:Hm;
    destruct Hrest as [-> | ->]; cbn [exec exec_item zrem msgq keys] in Hexec;
    injection Hexec as <- <-; cbn [msgq keys];
    rewrite ?(filter_not_member id (msgq s) Hm); repeat split; reflexivity.
Qed.

Lemma member_to_front (id : string) (t : number) (l : list (string * number)) :
  NoDup (map fst l) -> In (id, t) l ->
  Permutation ((id, t) :: filter (fun e => negb (is_member id e)) l) l.
Proof.
  induction l as [| x l IH]; [intros _ [] |].
  cbn [map]. intros Hnd Hin. inversion Hnd as [| ? ? Hnot Hnd']; subst.
  cbn [filter]. destruct Hin as [-> | Hin].
  - unfold is_member at 1. cbn [fst]. rewrite String.eqb_refl. cbn [negb].
    rewrite filter_not_member; [reflexivity |].
    destruct (existsb (is_member id) l) eqn:He; [| reflexivity].
    apply existsb_exists in He as (y & Hy & Hid). unfold is_member in Hid.
    apply String.eqb_eq in Hid. exfalso. apply Hnot. cbn [fst]. rewrite <- Hid.
    now apply in_map.
  - assert (Hne : is_member id x = false).
    { unfold is_member. apply String.eqb_neq. intros Heq. apply Hnot.
      rewrite Heq. exact (in_map fst l (id, t) Hin). }
    rewrite Hne. cbn [negb].
    rewrite perm_swap. apply perm_skip. now apply IH.
Qed.

(** X17: a request submitted again while its message is still in the
    queue, with the same score and its content in place, by any replica
    and at any moment, leaves the store with the same entries in the queue
    and the same keys. The caller is told of no error, and the duplicate
    is logged. *)
Theorem resubmission_changes_nothing
  (time : number) (text : string) (n : nat) (st st' : state)
  (cmds : list command) (k : kont)
  (now now' : number) (s s' : store) (rs : list item)
  (Hagain : enqueue en time text n st = (st, [Db (Multi cmds) k]))
  (Hexec : serve format_score now s (Multi cmds) = Some (s', Results rs))
  (Hnd : NoDup (map fst (msgq s)))
  (Hthere : In (getMessageId en time text, time) (msgq s))
  (Hcontent : keys s (CONTENT_PREFIX ++ getMessageId en time text) = Some (text, None)) :
  Permutation (msgq s') (msgq s) /\
  (forall key, keys s' key = keys s key) /\
  resume en k (Results rs) now' st' =
    (st', [Log "Message was already present in the database.";
           EnqueueCallback n None]).
Proof.
  unfold serve in Hexec.
  destruct (exec now s cmds) as [s1 rs1] eqn:E. injection Hexec as <- <-.
  destruct (enqueue_store time text n st cmds k now s s1 rs1 Hagain E)
    as (Hq & Hk & Hf & Hn).
  destruct (enqueue_commands time text n st cmds k Hagain) as (-> & _).
  set (id := getMessageId en time text) in *.
  assert (Hmem : existsb (is_member id) (msgq s) = true).
  { apply existsb_exists. exists (id, time). split; [exact Hthere |].
    apply String.eqb_refl. }
  split; [| split].
  - rewrite Hq. now apply member_to_front.
  - intros key. rewrite Hk.
    destruct (String.eqb key (CONTENT_PREFIX ++ id)) eqn:He; [| reflexivity].
    apply String.eqb_eq in He. now rewrite He, Hcontent.
  - cbn [resume]. rewrite Hf, Hn, Hmem. reflexivity.
Qed.

Lemma enqueue_keeps_sound (time : number) (text : string) (now : number) (s s1 : store) :
  let id := getMessageId en time text in
  msgq s1 = (id, time) :: filter (fun e => negb (is_member id e)) (msgq s) ->
  (forall key, keys s1 key =
                 if String.eqb key (CONTENT_PREFIX ++ id) then Some (text, None)
                 else keys s key) ->
  sound now s ->
  keys s (LOCK_PREFIX ++ id) = None ->
  sound now s1.
Proof.
  intros id Hq Hk [Hnd Hfree] Hlock. split.
  - rewrite Hq. cbn [map fst]. constructor.
    + intros Hin. apply in_map_iff in Hin as (e & He & Hin).
      apply filter_In in Hin as [_ Hne]. unfold is_member in Hne.
      rewrite He, String.eqb_refl in Hne. discriminate Hne.
    + now apply NoDup_map_filter.
  - intros e He. unfold due in He. rewrite Hq in He.
    apply filter_In in He as [Hin Hd]. unfold free.
    rewrite !Hk, lock_content_eqb, content_key_eqb.
    destruct Hin as [<- | Hin].
    + cbn [fst]. rewrite String.eqb_refl. split; [exact Hlock | eauto].
    + apply filter_In in Hin as [Hin _].
      destruct (Hfree e) as [Hl (text' & Hc)].
      { unfold due. apply filter_In. split; assumption. }
      split; [exact Hl |].
      destruct (String.eqb (fst e) id); eauto.
Qed.

(** X18: from submission to display. When the transaction of [enqueue]
    has run on a store whose due entries are free, the lock of the new
    message is not held, the message is due by [now] and the scores of
    the due messages, the new one included, come back as dates [doTask]
    can print, the pass that the timer of an idle replica starts at [now]
    with [now] for its cutoff prints the text; after the pass the message
    is no longer in the queue, its content is deleted, and nothing due is
    left. *)
Theorem enqueued_message_is_printed
  (time : number) (text : string) (n : nat) (st0 st : state)
  (cmds : list command) (k : kont) (t0 now : number) (clock : nat -> number)
  (s s1 : store) (rs : list item)
  (Hsent : enqueue en time text n st0 = (st0, [Db (Multi cmds) k]))
  (Hexec : serve format_score t0 s (Multi cmds) = Some (s1, Results rs))
  (Hdue : SFleb time now = true)
  (Hdate : valid_date (parseInt (Some (format_score time))) = true)
  (Hdated : forall e, In e (due now s) -> dated format_score e = true)
  (Hcut : Math_max (nextDueTime st) (Num now) = now)
  (Hstored : timerStored st = true)
  (Hidle : inspectingQueue st = false)
  (Hres : resumeInspection st = false)
  (Hsound : sound now s)
  (Hlock : keys s (LOCK_PREFIX ++ getMessageId en time text) = None) :
  exists m,
    let sys := answers format_score en clock m
                 (timer_fires en now (mkSystem (mkWorld st [] [] []) s1 [])) in
    In text (texts (trace (node sys))) /\
    ~ In (getMessageId en time text) (map fst (msgq (db sys))) /\
    keys (db sys) (CONTENT_PREFIX ++ getMessageId en time text) = None /\
    due now (db sys) = [].
Proof.
  unfold serve in Hexec.
  destruct (exec t0 s cmds) as [s1' rs'] eqn:E1. injection Hexec as <- <-.
  destruct (enqueue_store time text n st0 cmds k t0 s s1' rs' Hsent E1)
    as (Hq & Hk & _ & _).
  set (id := getMessageId en time text) in *.
  pose proof (enqueue_keeps_sound time text now s s1' Hq Hk Hsound Hlock) as Hsound1.
  assert (Hstart :
    timer_fires en now (mkSystem (mkWorld st [] [] []) s1' []) =
    mkSystem
      (mkWorld (set_inspectingQueue true (set_timer None false st))
         [K_getBatch now false] []
         ([] ++ [Db (Single (query now false)) (K_getBatch now false)]))
      s1' [Single (query now false)]).
  { unfold timer_fires, step, settle, sent_during, timer_func, inspectQueue.
    cbn [fst snd node vars db sent]. rewrite Hstored.
    cbn [set_timer inspectingQueue nextDueTime]. rewrite Hidle, Hcut. reflexivity. }
  assert (Hdated1 : forall e, In e (due now s1') -> dated format_score e = true).
  { intros e He. unfold due in He. rewrite Hq in He.
    apply filter_In in He as [[<- | Hin] Hd]; [exact Hdate |].
    apply filter_In in Hin as [Hin _]. apply Hdated.
    unfold due. apply filter_In. now split. }
  destruct (pass_from_query format_score en now (List.length (due now s1')) clock s1'
              (set_inspectingQueue true (set_timer None false st)) false []
              ([] ++ [Db (Single (query now false)) (K_getBatch now false)])
              (le_n _) Hsound1 Hdated1 Hres)
    as (m & s' & more & Hrun & Ht & Hq' & Hk').
  assert (Hin : In (id, time) (due now s1')).
  { unfold due. rewrite Hq. cbn [filter]. unfold is_due at 1. cbn [snd].
    rewrite Hdue. now left. }
  exists m. cbv zeta. rewrite Hstart, Hrun. cbn [node db trace].
  split; [| split; [| split]].
  - assert (Hsome : In (Some text) (map (content s1') (due now s1'))).
    { apply in_map_iff. exists (id, time). split; [| exact Hin].
      unfold content. cbn [fst]. now rewrite Hk, String.eqb_refl. }
    apply (Permutation_in _ (Permutation_sym Ht)) in Hsome.
    apply in_map_iff in Hsome as (x & [= ->] & Hx).
    unfold texts in *. cbn [app flat_map]. exact Hx.
  - rewrite Hq'. intros H. apply in_map_iff in H as (e & He & Hine).
    apply filter_In in Hine as [Hine Hnd].
    assert (e = (id, time)).
    { destruct Hsound1 as [Hnodup _].
      apply (NoDup_fst_inj (msgq s1') e (id, time) Hnodup Hine);
        [rewrite Hq; now left | exact He]. }
    subst e. unfold is_due in Hnd. cbn [snd] in Hnd. rewrite Hdue in Hnd. discriminate Hnd.
  - rewrite Hk'.
    assert (Hkey : key_of (map fst (due now s1')) (CONTENT_PREFIX ++ id) = true).
    { unfold key_of. apply existsb_exists. exists id. split.
      - apply in_map_iff. exists (id, time). split; [reflexivity | exact Hin].
      - now rewrite String.eqb_refl. }
    now rewrite Hkey.
  - unfold due. rewrite Hq'. clear.
    induction (msgq s1') as [| e l IH]; [reflexivity |]. cbn [filter].
    destruct (is_due now e) eqn:Hd; cbn [negb filter]; [exact IH |].
    now rewrite Hd.
Qed.

End StoreRuns.

(** The message "hello" for 5000, submitted again to the store that holds
    it. *)
Lemma resubmission_changes_nothing_witness :
  Permutation (Redis.msgq Samples.twice) (Redis.msgq Samples.once).
Proof.
  destruct (resubmission_changes_nothing Redis.score_text LE
              (of_Z 5000) "hello"%string 2 Samples.informed initial
              Samples.hello_writes (K_enqueue Samples.hello_id 2)
              (of_Z 20) (of_Z 21)
              Samples.once Samples.twice
              (snd (Redis.exec (of_Z 20) Samples.once Samples.hello_writes))
              ltac:(vm_compute; reflexivity) ltac:(vm_compute; reflexivity)
              ltac:(vm_compute; repeat constructor; intros [])
              ltac:(vm_compute; left; reflexivity)
              ltac:(vm_compute; reflexivity))
    as (H & _).
  exact H.
Defined.

(** The same message, printed by the pass that starts at 6000. *)
Lemma enqueued_message_is_printed_witness :
  exists m,
    In "hello"%string
      (Redis.texts
         (trace
            (Redis.node
               (Redis.answers Redis.score_text LE (fun _ => of_Z 6000) m
                  (Redis.timer_fires LE (of_Z 6000)
                     (Redis.mkSystem (mkWorld Samples.informed [] [] [])
                        Samples.once [])))))).
Proof.
  destruct (enqueued_message_is_printed Redis.score_text LE
              (of_Z 5000) "hello"%string 1 initial Samples.informed
              (Samples.hello_writes ++ [Samples.hello_publish])
              (K_enqueue Samples.hello_id 1)
              (of_Z 10) (of_Z 6000) (fun _ => of_Z 6000)
              Samples.empty Samples.once
              (snd (Redis.exec (of_Z 10) Samples.empty
                      (Samples.hello_writes ++ [Samples.hello_publish])))
              ltac:(vm_compute; reflexivity) ltac:(vm_compute; reflexivity)
              ltac:(vm_compute; reflexivity) ltac:(vm_compute; reflexivity)
              ltac:(intros e [])
              ltac:(vm_compute; reflexivity) ltac:(reflexivity)
              ltac:(reflexivity) ltac:(reflexivity)
              ltac:(split; [constructor | intros e []])
              ltac:(reflexivity))
    as (m & H & _).
  exists m. exact H.
Defined.

(** ** index.js: the request handler *)

Section HandlerFacts.

Import MessageId Http.

Variable service_path service_method : string.
Variable maxMessageLength : nat.
Variable isEncoding : string -> bool.

Lemma append_length (a b : string) :
  String.length (a ++ b) = (String.length a + String.length b)%nat.
Proof. induction a as [| ch a IH]; cbn; [reflexivity | now rewrite IH]. Qed.

Lemma append_assoc (a b c : string) : ((a ++ b) ++ c = a ++ (b ++ c))%string.
Proof. induction a as [| ch a IH]; cbn; [reflexivity | now rewrite IH]. Qed.

Lemma append_empty_r (a : string) : (a ++ EmptyString = a)%string.
Proof. induction a as [| ch a IH]; cbn; [reflexivity | now rewrite IH]. Qed.

(** One event keeps the time, keeps the body within the limit, and hands
    over a body only if it is not empty. *)
Lemma handle_keeps (ev : event) (x : exchange) :
  (String.length (body x) <= maxMessageLength)%nat ->
  let res := handle maxMessageLength ev x in
  ts (fst res) = ts x /\
  (String.length (body (fst res)) <= maxMessageLength)%nat /\
  forall t b, In (Enqueue t b) (snd res) ->
    t = ts x /\ (0 < String.length b <= maxMessageLength)%nat.
Proof.
  intros Hfit. destruct ev as [chunk | complete | [e |]]; cbn [handle].
  - unfold on_data, replyWithError. destruct (listening x).
    + destruct (Nat.ltb_spec maxMessageLength
                  (String.length (body x) + String.length chunk)) as [Hlt | Hge];
        cbn [fst snd ts body].
      * split; [reflexivity |]. split; [exact Hfit |].
        intros t b [H | []]; discriminate H.
      * rewrite append_length. split; [reflexivity |]. split; [exact Hge |].
        intros t b [].
    + cbn [fst snd]. split; [reflexivity |]. split; [exact Hfit |]. intros t b [].
  - unfold on_end, replyWithError.
    destruct complete; cbn [negb orb].
    + destruct (Nat.eqb_spec (String.length (body x)) 0) as [Hz | Hnz]; cbn [fst snd ts body].
      * split; [reflexivity |]. split; [exact Hfit |].
        intros t b [H | []]; discriminate H.
      * split; [reflexivity |]. split; [exact Hfit |].
        intros t b [[= <- <-] | []]. split; [reflexivity | lia].
    + cbn [fst snd ts body]. split; [reflexivity |]. split; [exact Hfit |].
      intros t b [H | []]; discriminate H.
  - cbn. split; [reflexivity |]. split; [exact Hfit |].
    intros t b [H | [H | []]]; discriminate H.
  - cbn. split; [reflexivity |]. split; [exact Hfit |].
    intros t b [H | []]; discriminate H.
Qed.

Lemma run_keeps (evs : list event) :
  forall x, (String.length (body x) <= maxMessageLength)%nat ->
  forall t b, In (Enqueue t b) (snd (run maxMessageLength evs x)) ->
    t = ts x /\ (0 < String.length b <= maxMessageLength)%nat.
Proof.
  induction evs as [| ev evs IH]; intros x Hfit t b Hin; [destruct Hin |].
  cbn [run] in Hin.
  pose proof (handle_keeps ev x Hfit) as Hh.
  destruct (handle maxMessageLength ev x) as [x1 es1].
  cbn [fst snd] in Hh. destruct Hh as (Hts & Hfit1 & Hes1).
  specialize (IH x1 Hfit1 t b).
  destruct (run maxMessageLength evs x1) as [x2 es2]. cbn [snd] in Hin, IH.
  apply in_app_or in Hin as [Hin | Hin]; [now apply Hes1 |].
  rewrite <- Hts. now apply IH.
Qed.

(** X19: a request whose events reach the listeners is one that asked for
    the path and the method of the service, with no time or one that is
    not NaN, and no reply was sent for it before its body is read. Whatever
    then arrives, in whatever order, a body handed to [enqueue] comes with
    the time computed from the request, is not empty and is not longer
    than [maxMessageLength]. *)
Theorem request_reaches_queue_checked
  (rq : request) (now : number) (x : exchange) (es : list effect) (evs : list event)
  (Haccepted : on_request service_path service_method isEncoding rq now = (Some x, es)) :
  pathname rq = service_path /\ method rq = service_method /\
  display_time (ts_param rq) now = Some (ts x) /\
  statuses es = [] /\
  forall t b, In (Enqueue t b) (snd (run maxMessageLength evs x)) ->
    t = ts x /\ (0 < String.length b <= maxMessageLength)%nat.
Proof.
  unfold on_request in Haccepted.
  destruct (String.eqb_spec (pathname rq) service_path) as [Hp | Hp];
    [| discriminate Haccepted].
  destruct (String.eqb_spec (method rq) service_method) as [Hm | Hm];
    [| discriminate Haccepted].
  cbn [negb] in Haccepted.
  destruct (display_time (ts_param rq) now) as [t0 |] eqn:Hd; [| discriminate Haccepted].
  assert (Hx : ts x = t0 /\ body x = EmptyString /\ statuses es = []).
  { destruct (content_type rq) as [[| type [encoding |]] |];
      repeat match type of Haccepted with
             | context [if ?c then _ else _] => destruct c
             end;
      try discriminate Haccepted;
      injection Haccepted as <- <-; destruct (ts_param rq); repeat split;
      try reflexivity; destruct (lt t0 now); reflexivity. }
  destruct Hx as (Hts & Hbody & Hst).
  split; [exact Hp |]. split; [exact Hm |]. split; [now rewrite Hts |].
  split; [exact Hst |].
  apply run_keeps. rewrite Hbody. cbn. lia.
Qed.

Lemma handler_run_app (evs1 evs2 : list event) (x : exchange) :
  run maxMessageLength (evs1 ++ evs2) x =
    (fst (run maxMessageLength evs2 (fst (run maxMessageLength evs1 x))),
     snd (run maxMessageLength evs1 x) ++
     snd (run maxMessageLength evs2 (fst (run maxMessageLength evs1 x)))).
Proof.
  revert x. induction evs1 as [| ev evs1 IH]; intros x; cbn [app run fst snd].
  - now destruct (run maxMessageLength evs2 x).
  - destruct (handle maxMessageLength ev x) as [x1 es1]. rewrite IH.
    destruct (run maxMessageLength evs1 x1) as [x2 es2]. cbn [fst snd].
    now rewrite app_assoc.
Qed.

(** Chunks that fit are appended to the body, silently. *)
Lemma data_accumulates (chunks : list string) :
  forall x, listening x = true ->
    (String.length (body x) + String.length (join chunks) <= maxMessageLength)%nat ->
    run maxMessageLength (map Data chunks) x =
      (mkExchange (ts x) (body x ++ join chunks) true, []).
Proof.
  induction chunks as [| ch chunks IH]; intros x Hl Hfit; cbn [map run].
  - cbn [join fold_right]. rewrite append_empty_r. destruct x; cbn in Hl |- *. now subst.
  - change (join (ch :: chunks)) with (ch ++ join chunks)%string in *.
    rewrite append_length in Hfit.
    cbn [handle]. unfold on_data. rewrite Hl.
    destruct (Nat.ltb_spec maxMessageLength
                (String.length (body x) + String.length ch)) as [Hlt | Hge]; [lia |].
    rewrite IH; cbn [ts body listening]; [| reflexivity | rewrite append_length; lia].
    now rewrite append_assoc.
Qed.

(** Once the listener is removed, chunks go nowhere. *)
Lemma data_unheard (chunks : list string) (x : exchange) :
  listening x = false -> run maxMessageLength (map Data chunks) x = (x, []).
Proof.
  intros Hl. induction chunks as [| ch chunks IH]; cbn [map run]; [reflexivity |].
  cbn [handle]. unfold on_data. rewrite Hl, IH. reflexivity.
Qed.

(** X20: a body that outgrows [maxMessageLength] is answered with 413 at
    the chunk that does not fit, and the chunks after it are not read. The
    ['end'] listener still runs: when nothing was kept before that chunk it
    answers 400 on the response already ended, and otherwise it hands the
    chunks kept so far to [enqueue], so the beginning of the refused
    message is stored. *)
Theorem oversized_body_keeps_prefix
  (chunks : list string) (big : string) (more : list string) (x : exchange)
  (Hstart : listening x = true /\ body x = EmptyString)
  (Hfit : (String.length (join chunks) <= maxMessageLength)%nat)
  (Hbig : (maxMessageLength < String.length (join chunks) + String.length big)%nat) :
  snd (run maxMessageLength
         (map Data chunks ++ Data big :: map Data more ++ [End true]) x) =
    Reply 413 ::
    (if (String.length (join chunks) =? 0)%nat then [Reply 400]
     else [Enqueue (ts x) (join chunks)]).
Proof.
  destruct Hstart as [Hl Hb].
  rewrite handler_run_app, (data_accumulates chunks x Hl) by (rewrite Hb; cbn; lia).
  rewrite Hb. cbn [fst snd app append].
  cbn [run handle]. unfold on_data at 1. cbn [listening body ts].
  apply Nat.ltb_lt in Hbig. rewrite Hbig. unfold replyWithError at 1.
  cbn [ts body status_of].
  rewrite handler_run_app, data_unheard by reflexivity.
  cbn [fst snd app run handle]. unfold on_end, replyWithError. cbn [negb orb body ts].
  destruct (String.length (join chunks) =? 0)%nat; reflexivity.
Qed.

(** X21: a complete request whose chunks add up to a body that is not
    empty and fits is handed to [enqueue] whole, once, with the chunks in
    the order of arrival, and nothing is replied before the queue calls
    back: 200 when it reports no error, 500 with the error logged when it
    does. A request that ends before it is complete is answered with 400
    and nothing is stored. *)
Theorem small_request_is_stored_whole
  (chunks : list string) (outcome : option string) (x : exchange)
  (Hstart : listening x = true /\ body x = EmptyString)
  (Hsize : (0 < String.length (join chunks) <= maxMessageLength)%nat) :
  snd (run maxMessageLength (map Data chunks ++ [End true; Enqueued outcome]) x) =
    Enqueue (ts x) (join chunks) ::
    match outcome with
    | Some e => [Log e; Reply 500]
    | None => [Reply 200]
    end /\
  snd (run maxMessageLength (map Data chunks ++ [End false]) x) = [Reply 400].
Proof.
  destruct Hstart as [Hl Hb].
  rewrite !handler_run_app, (data_accumulates chunks x Hl) by (rewrite Hb; cbn; lia).
  rewrite Hb. cbn [fst snd app append run handle].
  unfold on_end. cbn [negb orb body ts].
  destruct (Nat.eqb_spec (String.length (join chunks)) 0) as [Hz | Hnz]; [lia |].
  split; [| reflexivity].
  destruct outcome; reflexivity.
Qed.

End HandlerFacts.

(** A request for [/echoAtTime] with no time, in two chunks, where 10
    characters are allowed. *)
Lemma request_reaches_queue_checked_witness :
  MessageId.display_time None (of_Z 7000) = Some (of_Z 7000) /\
  (In (Http.Enqueue (of_Z 7000) "hello"%string)
     (snd (Http.run 10 [Http.Data "hel"; Http.Data "lo"; Http.End true]%string
             (Http.mkExchange (of_Z 7000) EmptyString true))) ->
   (0 < String.length "hello" <= 10)%nat).
Proof.
  destruct (request_reaches_queue_checked "/echoAtTime"%string "POST"%string 10
              (fun _ => true)
              (Http.mkRequest "/echoAtTime"%string "POST"%string None None)
              (of_Z 7000) (Http.mkExchange (of_Z 7000) EmptyString true) []
              [Http.Data "hel"; Http.Data "lo"; Http.End true]%string
              ltac:(reflexivity))
    as (_ & _ & Ht & _ & H).
  split; [exact Ht |].
  intros Hin. exact (proj2 (H _ _ Hin)).
Defined.

(** Three characters allowed: "ab" is kept, "cd" does not fit. *)
Lemma oversized_body_keeps_prefix_witness :
  snd (Http.run 3 [Http.Data "ab"; Http.Data "cd"; Http.Data "ef"; Http.End true]%string
         (Http.mkExchange (of_Z 7000) EmptyString true)) =
    [Http.Reply 413; Http.Enqueue (of_Z 7000) "ab"%string].
Proof.
  apply (oversized_body_keeps_prefix 3 ["ab"%string] "cd"%string ["ef"%string]
           (Http.mkExchange (of_Z 7000) EmptyString true)).
  - split; reflexivity.
  - cbn. lia.
  - cbn. lia.
Defined.

(** The same chunks where 10 characters are allowed, stored without error. *)
Lemma small_request_is_stored_whole_witness :
  snd (Http.run 10 [Http.Data "ab"; Http.Data "cd"; Http.End true; Http.Enqueued None]%string
         (Http.mkExchange (of_Z 7000) EmptyString true)) =
    [Http.Enqueue (of_Z 7000) "abcd"%string; Http.Reply 200].
Proof.
  destruct (small_request_is_stored_whole 10 ["ab"; "cd"]%string None
              (Http.mkExchange (of_Z 7000) EmptyString true)
              ltac:(split; reflexivity) ltac:(cbn; lia))
    as [H _].
  exact H.
Defined.

(** ** queue.js, setUp: reading the due time when both connections are up *)

Section LinkFacts.

Import Links.

Lemma unrefreshed_app (acts acts' : list action) (stale : bool) :
  unrefreshed stale (acts ++ acts') = unrefreshed (unrefreshed stale acts) acts'.
Proof.
  revert stale. induction acts as [| [| |] acts IH]; intros stale; cbn [app unrefreshed];
    auto.
Qed.

Lemma links_refreshed (evs : list event) :
  forall (l : links) (stale : bool),
    (dbReady l && subReady l = true -> stale = false) ->
    dbReady (fst (run evs l)) && subReady (fst (run evs l)) = true ->
    unrefreshed stale (snd (run evs l)) = false.
Proof.
  induction evs as [| ev evs IH]; intros l stale Hinv Hup; cbn [run] in *.
  - cbn [fst snd unrefreshed] in *. auto.
  - destruct (on ev l) as [l1 as1] eqn:Hon.
    destruct (run evs l1) as [l2 as2] eqn:Hrun. cbn [fst snd] in *.
    rewrite unrefreshed_app.
    specialize (IH l1 (unrefreshed stale as1)). rewrite Hrun in IH. cbn [fst snd] in IH.
    apply IH; [| exact Hup].
    destruct l as [d s], ev; cbn in Hon; injection Hon as <- <-; cbn in *;
      try (destruct d); try (destruct s); cbn in *; auto; try discriminate.
Qed.

(** X22: whatever the order in which the two connections come up, go down
    and come back, whenever both are up the next due time has been asked
    for since the subscription was last lost, and since the start if it
    never was. *)
Theorem links_up_means_asked (evs : list event)
  (Hup : dbReady (fst (run evs initial)) && subReady (fst (run evs initial)) = true) :
  unrefreshed true (snd (run evs initial)) = false.
Proof.
  apply links_refreshed; [| exact Hup]. cbn. discriminate.
Qed.

End LinkFacts.

(** The subscription is lost and restored while the database link stays. *)
Lemma links_up_means_asked_witness :
  Links.unrefreshed true
    (snd (Links.run [Links.Db_ready; Links.Sub_ready; Links.Sub_subscribe;
                     Links.Sub_end; Links.Sub_ready; Links.Sub_subscribe]
            Links.initial)) = false.
Proof.
  apply (links_up_means_asked
           [Links.Db_ready; Links.Sub_ready; Links.Sub_subscribe;
            Links.Sub_end; Links.Sub_ready; Links.Sub_subscribe]).
  reflexivity.
Defined.

(** ** queue.js: shutDown *)

Section ShutdownFacts.

Import Shutdown.

(** Once the count has reached zero, later 'close' events call nothing. *)
Lemma closed_stays_quiet (closes : list stream) :
  forall n dl sl, n <= 0 -> snd (run closes (mkClosing n dl sl)) = [].
Proof.
  induction closes as [| s closes IH]; intros n dl sl Hn; [reflexivity |].
  cbn [run]. unfold on_close, done. cbn [db_listens sub_listens conn].
  assert (Hz : (n - 1 =? 0) = false) by (apply Z.eqb_neq; lia).
  pose proof (IH (n - 1) dl sl ltac:(lia)) as IH1.
  pose proof (IH n dl sl Hn) as IH2.
  destruct s, dl, sl; rewrite ?Hz;
    repeat match goal with
           | |- context [run closes ?c] => destruct (run closes c)
           end;
    cbn [snd app] in *; assumption.
Qed.

(** X23: when both connections exist and a callback is given, [shutDown]
    ends both and calls back once, at the second of the two 'close'
    events, in whichever order they come, and not again on later ones.
    When no connection exists the callback is never called. When
    [timer.cancel()] throws, as it does while a timeout is stored,
    [shutDown] ends no connection and calls nothing. *)
Theorem shutDown_calls_back_after_last_close :
  (forall first later,
     exists c,
       shutDown Timer.Done true true true =
         (Some c, [End DbStream; End SubStream]) /\
       snd (on_close first c) = [] /\
       snd (run (first :: other first :: later) c) = [Callback]) /\
  (forall callback closes,
     exists c,
       shutDown Timer.Done false false callback = (Some c, []) /\
       snd (run closes c) = []) /\
  (forall w db sub callback,
     Timer.timer w <> None ->
     exists msg,
       shutDown (snd (Timer.cancel w)) db sub callback = (None, [Throw msg])).
Proof.
  split; [| split].
  - intros first later. exists (mkClosing 2 true true).
    split; [reflexivity |].
    split; [destruct first; reflexivity |].
    pose proof (closed_stays_quiet later 0 true true ltac:(lia)) as Hq.
    destruct first; cbn [other run]; unfold on_close, done;
      cbn [db_listens sub_listens conn];
      change (2 - 1 - 1) with 0; change (2 - 1) with 1;
      cbn [Z.eqb];
      destruct (run later (mkClosing 0 true true)); cbn [snd app] in *;
      now rewrite Hq.
  - intros callback closes. exists (mkClosing 0 false false).
    split; [reflexivity |].
    apply closed_stays_quiet. lia.
  - intros w db sub callback Hw. unfold Timer.cancel. cbn [Timer.timer Timer.set_triggerTime].
    destruct (Timer.timer w) as [h |]; [| contradiction].
    eexists. reflexivity.
Qed.

End ShutdownFacts.

(** A shutdown while the timer waits for an instant 100 ms ahead. *)
Lemma shutDown_calls_back_after_last_close_witness :
  exists msg,
    Shutdown.shutDown (snd (Timer.cancel (Timer.arm 100 (Timer.fresh 0)))) true true true =
      (None, [Shutdown.Throw msg]).
Proof.
  destruct shutDown_calls_back_after_last_close as (_ & _ & H).
  apply H. discriminate.
Defined.

(** ** queue.js: the cutoff of a retried pass *)

Section RetryCutoff.

Import Toolbox MessageId Queue Loop.

Variable en : endianness.

(** X24: a pass that ends with a leftover is retried with the cutoff it
    had: when the reservation of the last entry of a last batch fails, the
    retry is scheduled after [PROCESSING_RETRY_DELAY], and when it fires,
    at whatever instant and whatever [nextDueTime] has become, the range
    query it sends is bounded by the cutoff of the pass that ended, not by
    [Math.max(nextDueTime, Date.now())]. *)
Theorem retry_reuses_cutoff
  (id : string) (time : number) (env : batch_env) (st : state)
  (tos : list task) (tr : list effect) (t1 t2 : number)
  (Hres : resumeInspection st = false)
  (Hlast : (i env + 2 <? List.length (response env))%nat = false)
  (Hshort : (List.length (response env) <? PROCESSING_BATCH_SIZE * 2)%nat = true) :
  run en (mkWorld st [K_reserve id time env] tos tr)
    [(t1, E_reply (Value None)); (t2, E_timeout (List.length tos))] =
  mkWorld
    (mkState (latency st) (nextDueTime st) (upToDate st) true false (setupCallback st)
       (triggerTime st) (timerStored st))
    [K_getBatch (dueTime env) false]
    tos
    (tr ++
     [SetTimeout (ActuallyInspectQueue (dueTime env)) PROCESSING_RETRY_DELAY;
      Db (Single (ZRANGEBYSCORE QUEUE MinusInf (Score (dueTime env)) 0
                    PROCESSING_BATCH_SIZE))
        (K_getBatch (dueTime env) false)]).
Proof.
  destruct st as [la nd up ins res sc tt ts]. cbn in Hres. subst res.
  assert (Hc : resume en (K_reserve id time env) (Value None) t1
                 (mkState la nd up ins false sc tt ts) =
               (mkState la nd up false false sc tt ts,
                [SetTimeout (ActuallyInspectQueue (dueTime env)) PROCESSING_RETRY_DELAY])).
  { cbn [resume]. unfold c. cbn [resumeInspection]. rewrite Hlast, Hshort.
    unfold cb. cbn [resumeInspection set_inspectingQueue orb leftovers].
    rewrite orb_true_r. reflexivity. }
  rewrite run_cons, (step_reply en _ _ _ _ _ _ _ _ _ Hc eq_refl).
  cbn [app konts sleepers flat_map run fold_left].
  unfold step. cbn [fst snd timeouts vars waiting trace].
  rewrite nth_error_app2, Nat.sub_diag by lia. cbn [nth_error].
  rewrite firstn_app, Nat.sub_diag, firstn_all, firstn_O, app_nil_r.
  replace (skipn (S (List.length tos)) (tos ++ [ActuallyInspectQueue (dueTime env)]))
    with (@nil task).
  2:{ rewrite skipn_all2; [reflexivity |]. rewrite length_app. cbn. lia. }
  rewrite app_nil_r.
  unfold settle, absorb, run_task, actuallyInspectQueue, getBatch.
  cbn -[PROCESSING_RETRY_DELAY PROCESSING_BATCH_SIZE].
  rewrite app_nil_r, <- app_assoc. reflexivity.
Qed.

End RetryCutoff.

(** A pass with cutoff 1000 whose only entry a peer holds; the retry fires
    at 2102, after news of a message due at 1500. *)
Lemma retry_reuses_cutoff_witness :
  waiting
    (run LE
       (mkWorld (mkState (of_Z 0) (Num (of_Z 1500)) true true false false None false)
          [K_reserve "a"%string (of_Z 1000)
             (mkBatch (of_Z 1000) false ["a"; "1000"]%string 0 false)] [] [])
       [(of_Z 1002, E_reply (Value None)); (of_Z 2102, E_timeout 0)]) =
    [K_getBatch (of_Z 1000) false].
Proof.
  exact (f_equal waiting
           (retry_reuses_cutoff LE "a"%string (of_Z 1000)
              (mkBatch (of_Z 1000) false ["a"; "1000"]%string 0 false)
              (mkState (of_Z 0) (Num (of_Z 1500)) true true false false None false)
              [] [] (of_Z 1002) (of_Z 2102) eq_refl eq_refl eq_refl)).
Defined.
